(** * The chunk-merge engine of [safebrowsinglist.go]

    A shallow embedding of [SafeBrowsingList.load], [updateLookupMap] and
    [loadDataFromRedirectLists], together with the facts the specification
    states about them.

    The Go code mutates three kinds of store: the fields of the list object,
    the tries the [*HatTrie] fields point to, and the files on disk.  All
    three are explicit here: tries live in a store indexed by address (so that
    [sbl.Lookup = sbl.tmpLookup] is a pointer copy), and the disk is a finite
    map from paths to gob streams.  Failures of the storage layer are driven by
    an oracle ([Faults]) so that every error branch of the source can be
    reached. *)

From Stdlib Require Import ZArith Ascii String List Lia.
From Stdlib.Strings Require Import Byte.
From stdpp Require Import gmap strings list fin_maps pretty sorting.

Local Open Scope Z_scope.
#[local] Set Warnings "-clear-no-such-hyp".

(* ===================================================================== *)
(** ** Protocol data *)
(* ===================================================================== *)

(** [ChunkData_ChunkType], [ChunkData_PrefixType] and [ChunkNum] are integer
    types of the package; their declarations are not in this file of the
    source.  The two enums are int32-backed, so a decoded record may carry a
    value that is none of the named constants. *)
Abbreviation ChunkData_ChunkType := Z (only parsing).
Abbreviation ChunkData_PrefixType := Z (only parsing).
Abbreviation ChunkNum := Z (only parsing).

(** Modelled from the spec: the chunk types ADD and SUB, declared outside
    this file.  The numbers are those of the protocol's enumeration; the
    proofs use only that the two differ. *)
Definition CHUNK_TYPE_ADD : ChunkData_ChunkType := 0.
Definition CHUNK_TYPE_SUB : ChunkData_ChunkType := 1.

(** Modelled from the spec: the prefix types for 4-byte and 32-byte entries,
    declared outside this file; again only their being different matters. *)
Definition PREFIX_4B : ChunkData_PrefixType := 0.
Definition PREFIX_32B : ChunkData_PrefixType := 1.

(** Modelled from the spec: the entry widths [PREFIX_4B_SZ] and
    [PREFIX_32B_SZ], declared outside this file ("4-byte", "32-byte"). *)
Definition PREFIX_4B_SZ : Z := 4.
Definition PREFIX_32B_SZ : Z := 32.

(** Modelled from the spec: [ChunkData], the chunk record (number, type,
    entry width, hash blob), a protocol message declared outside this file.
    Only the fields the merge reads are kept. *)
Record ChunkData := mkChunk {
  ChunkNumber : Z;
  ChunkType : ChunkData_ChunkType;
  PrefixType : ChunkData_PrefixType;
  Hashes : list byte
}.

(** A [*ChunkData]; [None] is the nil pointer.  The getters are those
    generated for the message: they answer the default (the zero value) on a
    nil receiver, whereas a field access on nil panics. *)
Definition GetChunkNumber (chunk : option ChunkData) : Z :=
  match chunk with Some c => ChunkNumber c | None => 0 end.
Definition GetChunkType (chunk : option ChunkData) : ChunkData_ChunkType :=
  match chunk with Some c => ChunkType c | None => CHUNK_TYPE_ADD end.
Definition GetPrefixType (chunk : option ChunkData) : ChunkData_PrefixType :=
  match chunk with Some c => PrefixType c | None => PREFIX_4B end.

(** [ChunkNum(chunk.GetChunkNumber())], a conversion between integer types
    that keeps different numbers different. *)
Definition cast_ChunkNum (n : Z) : ChunkNum := n.

(* ===================================================================== *)
(** ** Errors, outcomes *)
(* ===================================================================== *)

Inductive error :=
| EOF                                  (* io.EOF *)
| ErrNotExist                          (* os.IsNotExist holds of it *)
| ErrOpen | ErrCreate | ErrRemove | ErrRename
| ErrEncode | ErrDecode
| ErrExternal (msg : string)           (* from request / ReadChunk *)
| ErrOpeningFile (cause : error)       (* "Error opening file: %s" *)
| ErrStatus (code : Z)                 (* "Unexpected server response code: %d" *)
| ErrNoChunk.                          (* "No chunk : empty redirect file" *)

Definition IsNotExist (e : error) : bool :=
  match e with ErrNotExist => true | _ => false end.

Definition is_EOF (e : error) : bool :=
  match e with EOF => true | _ => false end.

(** What a call can come to: it returns, it panics (nil dereference, index
    out of range), or the loop inside it is still running when the fuel is
    spent. *)
Inductive Res (A : Type) :=
| Ret (a : A)
| Panic
| OutOfFuel.
Arguments Ret {A} a.
Arguments Panic {A}.
Arguments OutOfFuel {A}.

#[global] Instance Res_bind : MBind Res := fun A B k m =>
  match m with
  | Ret a => k a
  | Panic => Panic
  | OutOfFuel => OutOfFuel
  end.

(* ===================================================================== *)
(** ** The list object and the world around it *)
(* ===================================================================== *)

(** Modelled from the spec: [HatTrie], the prefix/hash container, whose
    implementation is outside this file.  A trie is a mutable set of byte
    strings: [Set] inserts, [Delete] removes and does nothing for an absent
    key.  The fields of the list hold addresses of tries. *)
Abbreviation HatTrie := (gset string) (only parsing).

Record SafeBrowsingList := mkList {
  Name : string;
  FileName : string;
  DataRedirects : list string;
  (* map[ChunkData_ChunkType]map[ChunkNum]bool: only the presence of a key
     is ever consulted by the merge *)
  DeleteChunks : gmap Z (gset Z);
  ChunkRanges : gmap Z string;
  Lookup : option positive;
  FullHashRequested : option positive;
  FullHashes : option positive;
  tmpLookup : option positive;
  tmpFullHashes : option positive;
  tmpFullHashRequested : option positive
}.

(** One item of a gob stream on disk: a record, or bytes the decoder
    rejects. *)
Inductive gobItem :=
| GobChunk (c : ChunkData)
| GobGarbage.

Inductive LogLevel := Info | Warn | Debug.
Inductive LogArg := AInt (z : Z) | AStr (s : string) | AErr (e : error).
Record LogEntry := mkLog { level : LogLevel; format : string; args : list LogArg }.

Record World := mkWorld {
  sbl : SafeBrowsingList;
  tries : gmap positive (gset string);
  disk : gmap string (list gobItem);
  logged : list LogEntry
}.

(** Injected storage failures. [encode_error n] tells whether the encoder
    fails on the record that would become the [n]-th of its stream. *)
Record Faults := mkFaults {
  open_error : string -> bool;
  create_error : string -> bool;
  remove_error : string -> bool;
  rename_error : string -> bool;
  encode_error : nat -> bool
}.

Definition no_faults : Faults :=
  mkFaults (fun _ => false) (fun _ => false) (fun _ => false)
           (fun _ => false) (fun _ => false).

Definition set_sbl (f : SafeBrowsingList -> SafeBrowsingList) (w : World) : World :=
  mkWorld (f (sbl w)) (tries w) (disk w) (logged w).
Definition set_tries (t : gmap positive (gset string)) (w : World) : World :=
  mkWorld (sbl w) t (disk w) (logged w).
Definition set_disk (d : gmap string (list gobItem)) (w : World) : World :=
  mkWorld (sbl w) (tries w) d (logged w).

(** [sbl.DeleteChunks = dc], as the code that registers deletions between
    two merges leaves it. *)
Definition with_DeleteChunks (dc : gmap Z (gset Z)) (w : World) : World :=
  set_sbl (fun s =>
    mkList (Name s) (FileName s) (DataRedirects s) dc (ChunkRanges s)
      (Lookup s) (FullHashRequested s) (FullHashes s)
      (tmpLookup s) (tmpFullHashes s) (tmpFullHashRequested s)) w.

Definition Logger (lv : LogLevel) (fmt : string) (a : list LogArg) (w : World) : World :=
  mkWorld (sbl w) (tries w) (disk w) (logged w ++ [mkLog lv fmt a]).

(** *** Tries *)

Definition NewTrie (w : World) : positive * World :=
  let l := fresh (dom (tries w)) in
  (l, set_tries (<[l := ∅]> (tries w)) w).

Definition trie_update (f : gset string -> gset string)
    (p : option positive) (w : World) : Res World :=
  match p with
  | None => Panic
  | Some l =>
      match tries w !! l with
      | None => Panic
      | Some s => Ret (set_tries (<[l := f s]> (tries w)) w)
      end
  end.

Definition trie_Set (p : option positive) (key : string) : World -> Res World :=
  trie_update (fun s => {[key]} ∪ s) p.
Definition trie_Delete (p : option positive) (key : string) : World -> Res World :=
  trie_update (fun s => s ∖ {[key]}) p.

(** What a reader sees through a trie pointer. *)
Definition contents (w : World) (p : option positive) : option (gset string) :=
  l ← p; tries w !! l.

(** *** Byte slices *)

(** [s[i:j]]; out of range panics. *)
Definition slice (s : list byte) (i j : Z) : option (list byte) :=
  if (0 <=? i) && (i <=? j) && (j <=? Z.of_nat (length s))
  then Some (take (Z.to_nat (j - i)) (drop (Z.to_nat i) s))
  else None.

(* ===================================================================== *)
(** ** [updateLookupMap] *)
(* ===================================================================== *)

(** [hex.EncodeToString] *)
Definition hex_digit (n : N) : Ascii.ascii :=
  match String.get (N.to_nat n) "0123456789abcdef" with
  | Some a => a
  | None => "0"%char
  end.

Definition hex_EncodeToString (bs : list byte) : string :=
  foldr (fun b acc =>
           String (hex_digit (N.div (Byte.to_N b) 16))
             (String (hex_digit (N.modulo (Byte.to_N b) 16)) acc))
        EmptyString bs.

(** The body of the entry loop: the two nested switches. *)
Definition apply_entry (chunk : ChunkData) (hashlen : Z) (hash : list byte)
    (w : World) : Res World :=
  if hashlen =? PREFIX_4B_SZ then
    let prefix := string_of_list_byte hash in
    if ChunkType chunk =? CHUNK_TYPE_ADD then
      trie_Set (tmpLookup (sbl w)) prefix w
    else if ChunkType chunk =? CHUNK_TYPE_SUB then
      trie_Delete (tmpLookup (sbl w)) prefix w
    else Ret w
  else if hashlen =? PREFIX_32B_SZ then
    let lookupHash := string_of_list_byte hash in
    if ChunkType chunk =? CHUNK_TYPE_ADD then
      trie_Set (tmpFullHashes (sbl w)) lookupHash
        (Logger Debug "Adding full length hash: %s"
           [AStr (hex_EncodeToString hash)] w)
    else if ChunkType chunk =? CHUNK_TYPE_SUB then
      w' ← trie_Delete (tmpFullHashes (sbl w)) lookupHash w;
      trie_Set (tmpFullHashRequested (sbl w')) lookupHash w'
    else Ret w
  else Ret w.

(** [for i := 0; (i + hashlen) <= hasheslen; i += hashlen { ... }], one
    unit of fuel per test of the loop condition. *)
Fixpoint entry_loop (fuel : nat) (chunk : ChunkData) (hashlen hasheslen i : Z)
    (w : World) : Res World :=
  match fuel with
  | O => OutOfFuel
  | S fuel' =>
      if i + hashlen <=? hasheslen then
        match slice (Hashes chunk) i (i + hashlen) with
        | None => Panic
        | Some hash =>
            w' ← apply_entry chunk hashlen hash w;
            entry_loop fuel' chunk hashlen hasheslen (i + hashlen) w'
        end
      else Ret w
  end.

Definition entry_width (chunk : ChunkData) : Z :=
  let hashlen := 0 in
  let hashlen := if PrefixType chunk =? PREFIX_4B then PREFIX_4B_SZ else hashlen in
  let hashlen := if PrefixType chunk =? PREFIX_32B then PREFIX_32B_SZ else hashlen in
  hashlen.

Definition updateLookupMap (fuel : nat) (chunk : option ChunkData) (w : World)
    : Res World :=
  match chunk with
  | None => Panic
  | Some c =>
      let hasheslen := Z.of_nat (length (Hashes c)) in
      entry_loop fuel c (entry_width c) hasheslen 0 w
  end.

(* ===================================================================== *)
(** ** Files *)
(* ===================================================================== *)

Section Storage.
Variable env : Faults.

(** [os.Open]: the stream to read, or the error. *)
Definition os_Open (name : string) (w : World)
    : option (list gobItem) * option error :=
  if open_error env name then (None, Some ErrOpen)
  else match disk w !! name with
       | None => (None, Some ErrNotExist)
       | Some content => (Some content, None)
       end.

(** [os.Create]: truncates or creates. *)
Definition os_Create (name : string) (w : World) : option error * World :=
  if create_error env name then (Some ErrCreate, w)
  else (None, set_disk (<[name := []]> (disk w)) w).

Definition os_Remove (name : string) (w : World) : option error * World :=
  match disk w !! name with
  | None => (Some ErrNotExist, w)
  | Some _ =>
      if remove_error env name then (Some ErrRemove, w)
      else (None, set_disk (delete name (disk w)) w)
  end.

Definition os_Rename (old new : string) (w : World) : option error * World :=
  match disk w !! old with
  | None => (Some ErrNotExist, w)
  | Some content =>
      if rename_error env old then (Some ErrRename, w)
      else (None, set_disk (<[new := content]> (delete old (disk w))) w)
  end.

(** [enc.Encode(chunk)] on the encoder that writes to [path]. *)
Definition gob_Encode (path : string) (chunk : option ChunkData) (w : World)
    : option error * World :=
  match chunk with
  | None => (Some ErrEncode, w)
  | Some c =>
      let written := default [] (disk w !! path) in
      if encode_error env (length written) then (Some ErrEncode, w)
      else (None, set_disk (<[path := written ++ [GobChunk c]]> (disk w)) w)
  end.
End Storage.

(* ===================================================================== *)
(** ** The chunk range encoder *)
(* ===================================================================== *)

Fixpoint runs_from (lo hi : Z) (rest : list Z) : list (Z * Z) :=
  match rest with
  | [] => [(lo, hi)]
  | n :: rest' =>
      if n =? hi + 1 then runs_from lo n rest'
      else (lo, hi) :: runs_from n n rest'
  end.

Definition runs (sorted : list Z) : list (Z * Z) :=
  match sorted with
  | [] => []
  | n :: rest => runs_from n n rest
  end.

Definition render_run (r : Z * Z) : string :=
  if fst r =? snd r then pretty (fst r)
  else pretty (fst r) +:+ "-" +:+ pretty (snd r).

(** Modelled from the spec: [buildChunkRanges], defined outside this file.
    The comma-joined maximal consecutive runs of the set in ascending order,
    a run of one number as that number, a longer run as [start-end]. *)
Definition buildChunkRanges (indexes : gset Z) : string :=
  String.concat "," (render_run <$> runs (merge_sort Z.le (elements indexes))).

(* ===================================================================== *)
(** ** [load] *)
(* ===================================================================== *)

(** The local variables of [load] that outlive an iteration. *)
Record Locals := mkLocals {
  addChunkIndexes : gset Z;
  subChunkIndexes : gset Z;
  addPrefixCount : Z;
  subPrefixCount : Z;
  addFullHashCount : Z;
  subFullHashCount : Z;
  deletedChunkCount : Z;
  addedChunkCount : Z
}.

Definition set_addedChunkCount (n : Z) (v : Locals) : Locals :=
  mkLocals (addChunkIndexes v) (subChunkIndexes v) (addPrefixCount v)
    (subPrefixCount v) (addFullHashCount v) (subFullHashCount v)
    (deletedChunkCount v) n.
Definition set_deletedChunkCount (n : Z) (v : Locals) : Locals :=
  mkLocals (addChunkIndexes v) (subChunkIndexes v) (addPrefixCount v)
    (subPrefixCount v) (addFullHashCount v) (subFullHashCount v)
    n (addedChunkCount v).

(** [_, exists := sbl.DeleteChunks[chunk.GetChunkType()][cast]] *)
Definition deleted (dc : gmap Z (gset Z)) (chunk : option ChunkData) : bool :=
  match dc !! GetChunkType chunk with
  | Some nums => bool_decide (cast_ChunkNum (GetChunkNumber chunk) ∈ nums)
  | None => false
  end.

Definition marked_deleted (w : World) (chunk : option ChunkData) : bool :=
  deleted (DeleteChunks (sbl w)) chunk.

(** [len(chunk.Hashes)] *)
Definition len_Hashes (chunk : option ChunkData) : Res Z :=
  match chunk with
  | None => Panic
  | Some c => Ret (Z.of_nat (length (Hashes c)))
  end.

(** The four recognised arms of the [else if] chain, which both loops of
    [load] share; [None] when none of them applies and the final [else] of the
    loop is taken. *)
Definition tally (chunk : option ChunkData) (v : Locals) : Res (option Locals) :=
  let cast := cast_ChunkNum (GetChunkNumber chunk) in
  if (GetChunkType chunk =? CHUNK_TYPE_ADD) && (GetPrefixType chunk =? PREFIX_4B) then
    n ← len_Hashes chunk;
    Ret (Some (mkLocals ({[cast]} ∪ addChunkIndexes v) (subChunkIndexes v)
                 (addPrefixCount v + Z.quot n PREFIX_4B_SZ)
                 (subPrefixCount v) (addFullHashCount v) (subFullHashCount v)
                 (deletedChunkCount v) (addedChunkCount v)))
  else if (GetChunkType chunk =? CHUNK_TYPE_ADD) && (GetPrefixType chunk =? PREFIX_32B) then
    n ← len_Hashes chunk;
    Ret (Some (mkLocals ({[cast]} ∪ addChunkIndexes v) (subChunkIndexes v)
                 (addPrefixCount v) (subPrefixCount v)
                 (addFullHashCount v + Z.quot n PREFIX_32B_SZ)
                 (subFullHashCount v)
                 (deletedChunkCount v) (addedChunkCount v)))
  else if (GetChunkType chunk =? CHUNK_TYPE_SUB) && (GetPrefixType chunk =? PREFIX_4B) then
    n ← len_Hashes chunk;
    Ret (Some (mkLocals (addChunkIndexes v) ({[cast]} ∪ subChunkIndexes v)
                 (addPrefixCount v)
                 (subPrefixCount v + Z.quot n PREFIX_4B_SZ)
                 (addFullHashCount v) (subFullHashCount v)
                 (deletedChunkCount v) (addedChunkCount v)))
  else if (GetChunkType chunk =? CHUNK_TYPE_SUB) && (GetPrefixType chunk =? PREFIX_32B) then
    n ← len_Hashes chunk;
    Ret (Some (mkLocals (addChunkIndexes v) ({[cast]} ∪ subChunkIndexes v)
                 (addPrefixCount v) (subPrefixCount v) (addFullHashCount v)
                 (subFullHashCount v + Z.quot n PREFIX_32B_SZ)
                 (deletedChunkCount v) (addedChunkCount v)))
  else Ret None.

(** How the loop over the existing log is left: by [break] with the decoder's
    error, or by [return err]. *)
Inductive loop_exit :=
| Broke (err : error)
| Returned (err : error).

Section Load.
Variable env : Faults.
Variable fuel : nat.

(** The loop over the existing log (source lines 184-219): [dec.Decode]
    hands out the items of [stream] one by one and [io.EOF] at its end. *)
Fixpoint load_existing (tmp : string) (stream : list gobItem)
    (v : Locals) (w : World) : Res (loop_exit * Locals * World) :=
  match stream with
  | [] => Ret (Broke EOF, v, w)
  | GobGarbage :: _ => Ret (Broke ErrDecode, v, w)
  | GobChunk c :: rest =>
      let chunk := Some c in
      if marked_deleted w chunk then
        load_existing tmp rest
          (set_deletedChunkCount (deletedChunkCount v + 1) v) w
      else
        r ← tally chunk v;
        let '(v, w) :=
          match r with
          | Some v' => (v', w)
          | None => (v, Logger Warn "Chunk not decoded properly" [] w)
          end in
        match gob_Encode env tmp chunk w with
        | (Some err, w) => Ret (Returned err, v, w)
        | (None, w) =>
            w ← updateLookupMap fuel chunk w;
            load_existing tmp rest
              (set_addedChunkCount (addedChunkCount v + 1) v) w
        end
  end.

(** The loop over the new chunks (source lines 245-276). *)
Fixpoint load_new (tmp : string) (newChunks : list (option ChunkData))
    (v : Locals) (w : World) : Res (option error * Locals * World) :=
  match newChunks with
  | [] => Ret (None, v, w)
  | chunk :: rest =>
      if marked_deleted w chunk then
        load_new tmp rest (set_addedChunkCount (addedChunkCount v - 1) v) w
      else
        r ← tally chunk v;
        match r with
        | None =>
            load_new tmp rest
              (set_addedChunkCount (addedChunkCount v - 1) v)
              (Logger Warn "Unknow chunk type" [] w)
        | Some v =>
            match gob_Encode env tmp chunk w with
            | (Some err, w) => Ret (Some err, v, w)
            | (None, w) =>
                w ← updateLookupMap fuel chunk w;
                load_new tmp rest v w
            end
        end
  end.

(** Source lines 279-314: the pointer swap, the file swap, the summary. *)
Definition load_commit (f : option (list gobItem)) (v : Locals) (w : World)
    : option error * World :=
  let w := Logger Info "Replacing FullHashes and Lookup lists" [] w in
  let w := set_sbl (fun s =>
    mkList (Name s) (FileName s) (DataRedirects s) (DeleteChunks s)
      (ChunkRanges s) (tmpLookup s) (FullHashRequested s) (FullHashes s)
      (tmpLookup s) (tmpFullHashes s) (tmpFullHashRequested s)) w in
  let w := set_sbl (fun s =>
    mkList (Name s) (FileName s) (DataRedirects s) (DeleteChunks s)
      (ChunkRanges s) (Lookup s) (FullHashRequested s) (tmpFullHashes s)
      (tmpLookup s) (tmpFullHashes s) (tmpFullHashRequested s)) w in
  let w := set_sbl (fun s =>
    mkList (Name s) (FileName s) (DataRedirects s) (DeleteChunks s)
      (ChunkRanges s) (Lookup s) (tmpFullHashRequested s) (FullHashes s)
      (tmpLookup s) (tmpFullHashes s) (tmpFullHashRequested s)) w in
  let w := Logger Info "Replaced FullHashes and Lookup lists" [] w in
  let name := FileName (sbl w) in
  let '(err, w) :=
    match f with
    | Some _ => os_Remove env name w
    | None => (None, w)
    end in
  match err with
  | Some e => (Some e, w)
  | None =>
      let '(err, w) := os_Rename env (name +:+ ".tmp") name w in
      match err with
      | Some e => (Some e, w)
      | None =>
          let w := set_sbl (fun s =>
            mkList (Name s) (FileName s) (DataRedirects s) (DeleteChunks s)
              (<[CHUNK_TYPE_SUB := buildChunkRanges (subChunkIndexes v)]>
                 {[CHUNK_TYPE_ADD := buildChunkRanges (addChunkIndexes v)]})
              (Lookup s) (FullHashRequested s) (FullHashes s)
              (tmpLookup s) (tmpFullHashes s) (tmpFullHashRequested s)) w in
          let w := set_sbl (fun s =>
            mkList (Name s) (FileName s) (DataRedirects s) ∅
              (ChunkRanges s)
              (Lookup s) (FullHashRequested s) (FullHashes s)
              (tmpLookup s) (tmpFullHashes s) (tmpFullHashRequested s)) w in
          let w := Logger Info
            ("Update added %d chunks and deleted %d chunks "
             +:+ "(%d ADD prefixes add, %d SUB prefixes, %d ADD full hashes, %d SUB full hashes)")
            [AInt (addedChunkCount v); AInt (deletedChunkCount v);
             AInt (addPrefixCount v); AInt (subPrefixCount v);
             AInt (addFullHashCount v); AInt (subFullHashCount v)] w in
          (None, w)
      end
  end.

(** Source lines 183-223: [if dec != nil { for { ... } if err != io.EOF
    { return err } }].  [inl] is an early [return err]. *)
Definition load_old (tmp : string) (dec : option (list gobItem))
    (v : Locals) (w : World)
    : Res (option error * World + Locals * World) :=
  match dec with
  | Some stream =>
      '(ex, v, w) ← load_existing tmp stream v w;
      match ex with
      | Returned err => Ret (inl (Some err, w))
      | Broke err =>
          if is_EOF err then Ret (inr (v, w))
          else Ret (inl (Some err, w))
      end
  | None => Ret (inr (v, w))
  end.

(** Source lines 173-179: three fresh tries for the update. *)
Definition reset_tmp (w : World) : World :=
  let '(l, w) := NewTrie w in
  let w := set_sbl (fun s =>
    mkList (Name s) (FileName s) (DataRedirects s) (DeleteChunks s)
      (ChunkRanges s) (Lookup s) (FullHashRequested s) (FullHashes s)
      (Some l) (tmpFullHashes s) (tmpFullHashRequested s)) w in
  let '(l, w) := NewTrie w in
  let w := set_sbl (fun s =>
    mkList (Name s) (FileName s) (DataRedirects s) (DeleteChunks s)
      (ChunkRanges s) (Lookup s) (FullHashRequested s) (FullHashes s)
      (tmpLookup s) (Some l) (tmpFullHashRequested s)) w in
  let '(l, w) := NewTrie w in
  set_sbl (fun s =>
    mkList (Name s) (FileName s) (DataRedirects s) (DeleteChunks s)
      (ChunkRanges s) (Lookup s) (FullHashRequested s) (FullHashes s)
      (tmpLookup s) (tmpFullHashes s) (Some l)) w.

(** Source lines 158-277, after both files are open: fresh tries, then the
    two loops. *)
Definition load_merge (dec : option (list gobItem))
    (newChunks : list (option ChunkData)) (w : World)
    : Res (option error * World + Locals * World) :=
  let tmp := FileName (sbl w) +:+ ".tmp" in
  let v := mkLocals ∅ ∅ 0 0 0 0 0 0 in
  let w := reset_tmp w in
  let w := Logger Info "Load existing data from files" [] w in
  r ← load_old tmp dec v w;
  match r with
  | inl out => Ret (inl out)
  | inr (v, w) =>
      let w := Logger Info
        ("Loaded %d existing add chunks and %d sub chunks "
         +:+ "(%d ADD prefixes, %d SUB prefixes, %d ADD full hashes, %d SUB full hashes), deleted %d chunks, added %d chunks from file.")
        [AInt (Z.of_nat (size (addChunkIndexes v)));
         AInt (Z.of_nat (size (subChunkIndexes v)));
         AInt (addPrefixCount v); AInt (subPrefixCount v);
         AInt (addFullHashCount v); AInt (subFullHashCount v);
         AInt (deletedChunkCount v); AInt (addedChunkCount v)] w in
      let v := mkLocals (addChunkIndexes v) (subChunkIndexes v) 0 0 0 0 0
                 (Z.of_nat (length newChunks)) in
      let w := Logger Info "Add updated chunks" [] w in
      '(err, v, w) ← load_new tmp newChunks v w;
      match err with
      | Some e => Ret (inl (Some e, w))
      | None => Ret (inr (v, w))
      end
  end.

(** The deferred [close_tmp_file]: the result of the removal is dropped. *)
Definition close_tmp_file (fileName : string) (w : World) : World :=
  snd (os_Remove env (fileName +:+ ".tmp") w).

Definition load (newChunks : list (option ChunkData)) (w : World)
    : Res (option error * World) :=
  let w := Logger Info "Reloading %s" [AStr (Name (sbl w))] w in
  let name := FileName (sbl w) in
  let '(f, err) := os_Open env name w in
  let w :=
    match err with
    | Some e =>
        if negb (IsNotExist e) then
          Logger Warn "Error opening data file for reading, assuming empty: %s"
            [AErr e] w
        else w
    | None => w
    end in
  let dec := f in
  match os_Create env (name +:+ ".tmp") w with
  | (Some err, w) => Ret (Some (ErrOpeningFile err), w)
  | (None, w) =>
      r ← load_merge dec newChunks w;
      let '(err, w) :=
        match r with
        | inl out => out
        | inr (v, w) => load_commit f v w
        end in
      Ret (err, close_tmp_file name w)
  end.
End Load.

(* ===================================================================== *)
(** ** [loadDataFromRedirectLists] *)
(* ===================================================================== *)

Record Response := mkResponse { StatusCode : Z; Body : list byte }.

Definition uint32 (n : Z) : Z := n mod 2 ^ 32.

Section Redirects.
(** The transport and the wire decoder are collaborators defined outside
    this file. *)
Variable request : string -> Response + error.
Variable ReadChunk : list byte -> Z -> (option ChunkData * Z) + error.
Variable env : Faults.
Variable fuel : nat.

(** [for len != 0 { chunk, new_len, err := ReadChunk(data[(length-len):], len) ... }] *)
Fixpoint read_chunks (n : nat) (data : list byte) (length len : Z)
    (newChunks : list (option ChunkData))
    : Res (error + list (option ChunkData)) :=
  match n with
  | O => OutOfFuel
  | S n' =>
      if len =? 0 then Ret (inr newChunks)
      else
        match slice data (uint32 (length - len)) (Z.of_nat (List.length data)) with
        | None => Panic
        | Some rest =>
            match ReadChunk rest len with
            | inr err => Ret (inl err)
            | inl (chunk, new_len) =>
                read_chunks n' data length (uint32 new_len) (newChunks ++ [chunk])
            end
        end
  end.

Fixpoint fetch_redirects (urls : list string)
    (newChunks : list (option ChunkData))
    : Res (error + list (option ChunkData)) :=
  match urls with
  | [] => Ret (inr newChunks)
  | url :: rest =>
      match request url with
      | inr err => Ret (inl err)
      | inl response =>
          if negb (StatusCode response =? 200) then
            Ret (inl (ErrStatus (StatusCode response)))
          else
            let data := Body response in
            let length := uint32 (Z.of_nat (List.length data)) in
            r ← read_chunks fuel data length length newChunks;
            match r with
            | inl err => Ret (inl err)
            | inr newChunks => fetch_redirects rest newChunks
            end
      end
  end.

Definition loadDataFromRedirectLists (w : World) : Res (option error * World) :=
  if Z.of_nat (length (DataRedirects (sbl w))) <? 1 then
    Ret (None, Logger Info "No pending updates available" [] w)
  else
    r ← fetch_redirects (DataRedirects (sbl w)) [];
    match r with
    | inl err => Ret (Some err, w)
    | inr newChunks =>
        match newChunks with
        | [] => Panic                       (* newChunks[0]: index out of range *)
        | None :: _ => Ret (Some ErrNoChunk, w)
        | Some _ :: _ => load env fuel newChunks w
        end
    end.
End Redirects.

(* ===================================================================== *)
(** ** Reference definitions used by the statements *)
(* ===================================================================== *)

(** Running a list of effects in sequence. *)
Fixpoint foldM {A B : Type} (f : B -> A -> Res A) (l : list B) (a : A) : Res A :=
  match l with
  | [] => Ret a
  | b :: l' => a' ← f b a; foldM f l' a'
  end.

(** The [k]-th entry of width [width] of a hash blob, and the entries that
    fit entirely. *)
Definition nth_entry (width : Z) (hashes : list byte) (k : nat) : list byte :=
  take (Z.to_nat width) (drop (k * Z.to_nat width) hashes).

Definition entry_count (width : Z) (hashes : list byte) : nat :=
  Z.to_nat (Z.of_nat (length hashes) / width).

Definition entries (width : Z) (hashes : list byte) : list (list byte) :=
  nth_entry width hashes <$> seq 0 (entry_count width hashes).

Definition recognised_prefix (c : ChunkData) : Prop :=
  PrefixType c = PREFIX_4B \/ PrefixType c = PREFIX_32B.

(** One of the four buckets ADD-4B, ADD-32B, SUB-4B, SUB-32B. *)
Definition in_bucket (c : ChunkData) : bool :=
  ((ChunkType c =? CHUNK_TYPE_ADD) || (ChunkType c =? CHUNK_TYPE_SUB))
  && ((PrefixType c =? PREFIX_4B) || (PrefixType c =? PREFIX_32B)).

(** [n] is the chunk number of a record of type [ty] among [cs]. *)
Definition has_number (ty : Z) (cs : list ChunkData) (n : Z) : Prop :=
  exists c, c ∈ cs /\ ChunkType c = ty /\ cast_ChunkNum (ChunkNumber c) = n.

(** The records of the old log that are not marked for deletion, and the
    records of the delta that are neither marked nor outside the buckets. *)
Definition survivors_existing (dc : gmap Z (gset Z)) (cs : list ChunkData)
    : list ChunkData :=
  filter (fun c => deleted dc (Some c) = false) cs.

Definition survivors_new (dc : gmap Z (gset Z))
    (newChunks : list (option ChunkData)) : list ChunkData :=
  omap (fun chunk =>
          match chunk with
          | Some c =>
              if negb (deleted dc chunk) && in_bucket c then Some c else None
          | None => None
          end) newChunks.

(* ===================================================================== *)
(** ** The three tables as values *)
(* ===================================================================== *)

(** The contents of the three tries a merge builds. *)
Record Tables := mkTables {
  tLookup : gset string;
  tFullHashes : gset string;
  tFullHashRequested : gset string
}.

Definition no_tables : Tables := mkTables ∅ ∅ ∅.

(** The lookup-update rule of the specification, per entry. *)
Definition table_entry (c : ChunkData) (hashlen : Z) (T : Tables)
    (hash : list byte) : Tables :=
  let key := string_of_list_byte hash in
  if hashlen =? PREFIX_4B_SZ then
    if ChunkType c =? CHUNK_TYPE_ADD then
      mkTables ({[key]} ∪ tLookup T) (tFullHashes T) (tFullHashRequested T)
    else if ChunkType c =? CHUNK_TYPE_SUB then
      mkTables (tLookup T ∖ {[key]}) (tFullHashes T) (tFullHashRequested T)
    else T
  else if hashlen =? PREFIX_32B_SZ then
    if ChunkType c =? CHUNK_TYPE_ADD then
      mkTables (tLookup T) ({[key]} ∪ tFullHashes T) (tFullHashRequested T)
    else if ChunkType c =? CHUNK_TYPE_SUB then
      mkTables (tLookup T) (tFullHashes T ∖ {[key]})
               ({[key]} ∪ tFullHashRequested T)
    else T
  else T.

(** ... and per record: every entry that fits, in order. *)
Definition table_chunk (T : Tables) (c : ChunkData) : Tables :=
  foldl (table_entry c (entry_width c)) T (entries (entry_width c) (Hashes c)).

(** The temporary tries of the list sit at three different addresses and
    hold [T]. *)
Record tmp_tables (l1 l2 l3 : positive) (T : Tables) (w : World) : Prop := {
  tt_lookup : tmpLookup (sbl w) = Some l1;
  tt_full : tmpFullHashes (sbl w) = Some l2;
  tt_req : tmpFullHashRequested (sbl w) = Some l3;
  tt_ne12 : l1 <> l2;
  tt_ne13 : l1 <> l3;
  tt_ne23 : l2 <> l3;
  tt_c1 : tries w !! l1 = Some (tLookup T);
  tt_c2 : tries w !! l2 = Some (tFullHashes T);
  tt_c3 : tries w !! l3 = Some (tFullHashRequested T)
}.

(** Nothing but the three temporary tries and the messages logged differs. *)
Record tmp_only (l1 l2 l3 : positive) (w w' : World) : Prop := {
  to_sbl : sbl w' = sbl w;
  to_disk : disk w' = disk w;
  to_tries : forall l, l <> l1 -> l <> l2 -> l <> l3 ->
                       tries w' !! l = tries w !! l
}.

(** What a loop may touch: the temporary tries and the temporary file. *)
Record merge_frame (l1 l2 l3 : positive) (tmp : string) (w w' : World) : Prop := {
  mf_sbl : sbl w' = sbl w;
  mf_tries : forall l, l <> l1 -> l <> l2 -> l <> l3 ->
                       tries w' !! l = tries w !! l;
  mf_disk : forall p, p <> tmp -> disk w' !! p = disk w !! p
}.

(** A retained record: its prefix type is recognised and the fuel is enough
    for its entries. *)
Definition kept_ok (fuel : nat) (c : ChunkData) : Prop :=
  recognised_prefix c /\ (entry_count (entry_width c) (Hashes c) < fuel)%nat.

(** The fields of the list other than the temporary pointers. *)
Record same_live (s s' : SafeBrowsingList) : Prop := {
  sl_Name : Name s' = Name s;
  sl_FileName : FileName s' = FileName s;
  sl_DataRedirects : DataRedirects s' = DataRedirects s;
  sl_DeleteChunks : DeleteChunks s' = DeleteChunks s;
  sl_ChunkRanges : ChunkRanges s' = ChunkRanges s;
  sl_Lookup : Lookup s' = Lookup s;
  sl_FullHashRequested : FullHashRequested s' = FullHashRequested s;
  sl_FullHashes : FullHashes s' = FullHashes s
}.

(** The records of the stream handed to the decoder; no stream, no records. *)
Definition old_chunks (dec : option (list gobItem)) (cs : list ChunkData) : Prop :=
  match dec with
  | None => cs = []
  | Some stream => stream = GobChunk <$> cs
  end.

(** The kept index sets as the summary records them. *)
Definition summary_of (kept : list ChunkData) (ranges : gmap Z string) : Prop :=
  exists A S : gset Z,
    ranges = <[CHUNK_TYPE_SUB := buildChunkRanges S]>
               {[CHUNK_TYPE_ADD := buildChunkRanges A]}
    /\ (forall n, n ∈ A <-> has_number CHUNK_TYPE_ADD kept n)
    /\ (forall n, n ∈ S <-> has_number CHUNK_TYPE_SUB kept n).

(** The live pointers of [w'] lead to the tables built from [kept]. *)
Record rebuilt (w' : World) (kept : list ChunkData) : Prop := {
  rb_lookup : contents w' (Lookup (sbl w'))
              = Some (tLookup (foldl table_chunk no_tables kept));
  rb_full : contents w' (FullHashes (sbl w'))
            = Some (tFullHashes (foldl table_chunk no_tables kept));
  rb_req : contents w' (FullHashRequested (sbl w'))
           = Some (tFullHashRequested (foldl table_chunk no_tables kept))
}.

(** The call gave up before line 281: nothing a reader can see has moved. *)
Record untouched (w w' : World) : Prop := {
  un_live : same_live (sbl w) (sbl w');
  un_tries : forall l, l ∈ dom (tries w) -> tries w' !! l = tries w !! l;
  un_disk : forall p, p <> FileName (sbl w) +:+ ".tmp" ->
                      disk w' !! p = disk w !! p
}.

(** The call reached line 281 with the records [kept] merged. *)
Record swapped (env : Faults) (fuel : nat) (w : World) (err : option error)
    (w' : World) (kept : list ChunkData) : Prop := {
  sw_create : create_error env (FileName (sbl w) +:+ ".tmp") = false;
  sw_fuel : Forall (kept_ok fuel) kept;
  sw_rebuilt : rebuilt w' kept;
  sw_tries : forall l, l ∈ dom (tries w) -> tries w' !! l = tries w !! l;
  sw_FileName : FileName (sbl w') = FileName (sbl w);
  sw_Name : Name (sbl w') = Name (sbl w);
  sw_DataRedirects : DataRedirects (sbl w') = DataRedirects (sbl w);
  sw_outcome :
    match err with
    | None =>
        disk w' !! FileName (sbl w) = Some (GobChunk <$> kept)
        /\ disk w' !! (FileName (sbl w) +:+ ".tmp") = None
        /\ (forall p, p <> FileName (sbl w) ->
                      p <> FileName (sbl w) +:+ ".tmp" ->
                      disk w' !! p = disk w !! p)
        /\ summary_of kept (ChunkRanges (sbl w'))
        /\ DeleteChunks (sbl w') = ∅
        /\ rename_error env (FileName (sbl w) +:+ ".tmp") = false
        /\ (is_Some (fst (os_Open env (FileName (sbl w)) w)) ->
            remove_error env (FileName (sbl w)) = false)
    | Some e =>
        ChunkRanges (sbl w') = ChunkRanges (sbl w)
        /\ DeleteChunks (sbl w') = DeleteChunks (sbl w)
        /\ (e = ErrRemove \/ e = ErrRename)
    end
}.

(* ===================================================================== *)
(** ** [newSafeBrowsingList] *)
(* ===================================================================== *)

(** Source lines 65-81.  The fields of the composite literal are evaluated in
    the order written, so the three tries are made in the order [Lookup],
    [FullHashRequested], [FullHashes]; the temporary pointers and
    [ChunkRanges] keep their zero value.  The world holds the one list under
    study: the new list takes its place.  ([Cache], [Logger] and [fsLock] are
    not among the fields kept here.) *)
Definition newSafeBrowsingList (name filename : string) (w : World) : World :=
  let '(lookup, w) := NewTrie w in
  let '(requested, w) := NewTrie w in
  let '(full, w) := NewTrie w in
  let deleteChunks : gmap Z (gset Z) := ∅ in
  let deleteChunks := <[CHUNK_TYPE_ADD := ∅]> deleteChunks in
  let deleteChunks := <[CHUNK_TYPE_SUB := ∅]> deleteChunks in
  set_sbl (fun _ =>
    mkList name filename [] deleteChunks ∅
      (Some lookup) (Some requested) (Some full) None None None) w.

(* ===================================================================== *)
(** ** Vocabulary of the further properties *)
(* ===================================================================== *)

(** The keys a record contributes: its whole entries, as strings. *)
Definition keys_of (c : ChunkData) : list string :=
  string_of_list_byte <$> entries (entry_width c) (Hashes c).

(** [c] adds, or retracts, the key [h] as a prefix, or as a full hash. *)
Definition adds_prefix (c : ChunkData) (h : string) : Prop :=
  ChunkType c = CHUNK_TYPE_ADD /\ PrefixType c = PREFIX_4B /\ h ∈ keys_of c.
Definition subs_prefix (c : ChunkData) (h : string) : Prop :=
  ChunkType c = CHUNK_TYPE_SUB /\ PrefixType c = PREFIX_4B /\ h ∈ keys_of c.
Definition adds_full (c : ChunkData) (h : string) : Prop :=
  ChunkType c = CHUNK_TYPE_ADD /\ PrefixType c = PREFIX_32B /\ h ∈ keys_of c.
Definition subs_full (c : ChunkData) (h : string) : Prop :=
  ChunkType c = CHUNK_TYPE_SUB /\ PrefixType c = PREFIX_32B /\ h ∈ keys_of c.

(** Some record of [cs] puts [h] in, and no record after it takes [h] out. *)
Definition added_last (adds subs : ChunkData -> string -> Prop)
    (cs : list ChunkData) (h : string) : Prop :=
  exists k1 c k2,
    cs = k1 ++ c :: k2 /\ adds c h /\ forall c', c' ∈ k2 -> ~ subs c' h.

(** A source that cannot be used: the transport fails or the status is not
    200. *)
Definition bad_source (request : string -> Response + error) (url : string)
    : Prop :=
  match request url with
  | inr _ => True
  | inl response => StatusCode response <> 200
  end.

(** The sum of [len(chunk.Hashes) / size] over the records of [cs] in the
    bucket ([ty], [pt]). *)
Definition entries_in (ty pt size : Z) (cs : list ChunkData) : Z :=
  foldr (fun c acc =>
           (if (ChunkType c =? ty) && (PrefixType c =? pt)
            then Z.quot (Z.of_nat (length (Hashes c))) size else 0) + acc)
        0 cs.

(** The last message of a successful [load]. *)
Definition update_message (added deleted addPrefixes subPrefixes addFull subFull : Z)
    : LogEntry :=
  mkLog Info
    ("Update added %d chunks and deleted %d chunks "
     +:+ "(%d ADD prefixes add, %d SUB prefixes, %d ADD full hashes, %d SUB full hashes)")
    [AInt added; AInt deleted; AInt addPrefixes; AInt subPrefixes;
     AInt addFull; AInt subFull].

(** *** Vocabulary of the run of [load] *)

(** The counters the last message of a merge reports. *)
Definition delta_counts (dc : gmap Z (gset Z))
    (newChunks : list (option ChunkData)) (v : Locals) : Prop :=
  let kept := survivors_new dc newChunks in
  deletedChunkCount v = 0
  /\ addedChunkCount v = Z.of_nat (length kept)
  /\ addPrefixCount v = entries_in CHUNK_TYPE_ADD PREFIX_4B PREFIX_4B_SZ kept
  /\ subPrefixCount v = entries_in CHUNK_TYPE_SUB PREFIX_4B PREFIX_4B_SZ kept
  /\ addFullHashCount v = entries_in CHUNK_TYPE_ADD PREFIX_32B PREFIX_32B_SZ kept
  /\ subFullHashCount v = entries_in CHUNK_TYPE_SUB PREFIX_32B PREFIX_32B_SZ kept.

(** The records the decoder hands out before its first error. *)
Fixpoint decoded (stream : list gobItem) : list ChunkData :=
  match stream with
  | GobChunk c :: rest => c :: decoded rest
  | _ => []
  end.

(** A chunk of the delta that the second loop can get past: unless it is
    marked for deletion it is not nil, and if it falls in one of the four
    buckets the fuel is enough for its entries. *)
Definition delta_ok (fuel : nat) (dc : gmap Z (gset Z))
    (chunk : option ChunkData) : Prop :=
  deleted dc chunk = false ->
  exists c, chunk = Some c
    /\ (in_bucket c = true ->
        (entry_count (entry_width c) (Hashes c) < fuel)%nat).

(* ===================================================================== *)
(** ** Sample data *)
(* ===================================================================== *)

Module Sample.
(** A list as [newSafeBrowsingList] makes it, backed by the file ["f"];
    its three tries sit at addresses 1, 2 and 3. *)
Definition list0 : SafeBrowsingList :=
  mkList "goog-malware-shavar" "f" []
    (<[CHUNK_TYPE_SUB := ∅]> {[CHUNK_TYPE_ADD := ∅]}) ∅
    (Some 1%positive) (Some 2%positive) (Some 3%positive) None None None.

Definition world0 : World :=
  mkWorld list0 (<[3%positive := ∅]> (<[2%positive := ∅]> {[1%positive := ∅]})) ∅ [].

(** A world in the middle of an update: temporary tries at 4, 5 and 6. *)
Definition updating : World :=
  mkWorld
    (mkList "goog-malware-shavar" "f" []
       (<[CHUNK_TYPE_SUB := ∅]> {[CHUNK_TYPE_ADD := ∅]}) ∅
       (Some 1%positive) (Some 2%positive) (Some 3%positive)
       (Some 4%positive) (Some 5%positive) (Some 6%positive))
    (<[6%positive := ∅]> (<[5%positive := ∅]> (<[4%positive := ∅]>
       (<[3%positive := ∅]> (<[2%positive := ∅]> {[1%positive := ∅]})))))
    ∅ [].

Definition hash32 : list byte :=
  list_byte_of_string "0123456789abcdef0123456789abcdef".

(** ADD, 4-byte prefixes, two entries. *)
Definition add1 : ChunkData :=
  mkChunk 1 CHUNK_TYPE_ADD PREFIX_4B (list_byte_of_string "abcdefgh").
(** ADD, 4-byte prefixes, two entries and two stray bytes. *)
Definition add_ragged : ChunkData :=
  mkChunk 4 CHUNK_TYPE_ADD PREFIX_4B (list_byte_of_string "abcdefghij").
(** SUB and ADD of the same full hash. *)
Definition sub_full : ChunkData := mkChunk 2 CHUNK_TYPE_SUB PREFIX_32B hash32.
Definition add_full : ChunkData := mkChunk 3 CHUNK_TYPE_ADD PREFIX_32B hash32.
(** A prefix type that is neither [PREFIX_4B] nor [PREFIX_32B]. *)
Definition odd_prefix : ChunkData :=
  mkChunk 7 CHUNK_TYPE_ADD 5 (list_byte_of_string "abcdefgh").
(** A chunk type that is neither ADD nor SUB. *)
Definition odd_type : ChunkData :=
  mkChunk 8 9 PREFIX_4B (list_byte_of_string "abcdefgh").

Definition with_log (log : list gobItem) (w : World) : World :=
  set_disk (<["f"%string := log]> (disk w)) w.

(** [DeleteChunks[CHUNK_TYPE_ADD][n] = true] *)
Definition delete_add (n : Z) (w : World) : World :=
  set_sbl (fun s =>
    mkList (Name s) (FileName s) (DataRedirects s)
      (<[CHUNK_TYPE_ADD := {[n]} ∪ default ∅ (DeleteChunks s !! CHUNK_TYPE_ADD)]>
         (DeleteChunks s))
      (ChunkRanges s) (Lookup s) (FullHashRequested s) (FullHashes s)
      (tmpLookup s) (tmpFullHashes s) (tmpFullHashRequested s)) w.

(** A list whose prefix set holds one prefix, the file ["f"] holding [log]. *)
Definition serving (log : list gobItem) : World :=
  mkWorld list0
    (<[3%positive := ∅]> (<[2%positive := ∅]> {[1%positive := {["zzzz"%string]}]}))
    {["f"%string := log]} [].

Definition open_fails : Faults :=
  mkFaults (fun _ => true) (fun _ => false) (fun _ => false)
           (fun _ => false) (fun _ => false).
Definition create_fails : Faults :=
  mkFaults (fun _ => false) (fun _ => true) (fun _ => false)
           (fun _ => false) (fun _ => false).
Definition remove_fails : Faults :=
  mkFaults (fun _ => false) (fun _ => false) (fun _ => true)
           (fun _ => false) (fun _ => false).
Definition rename_fails : Faults :=
  mkFaults (fun _ => false) (fun _ => false) (fun _ => false)
           (fun _ => true) (fun _ => false).

(** A transport that fails and a decoder that is never reached. *)
Definition no_network (url : string) : Response + error :=
  inr (ErrExternal "unreachable").
Definition no_decoder (data : list byte) (len : Z)
    : (option ChunkData * Z) + error :=
  inr (ErrExternal "not a chunk").

(** A transport that answers 200 with an empty body. *)
Definition empty_reply (url : string) : Response + error :=
  inl (mkResponse 200 []).

(** A decoder that takes one byte per chunk. *)
Definition byte_decoder (data : list byte) (len : Z)
    : (option ChunkData * Z) + error :=
  inl (Some (mkChunk 1 CHUNK_TYPE_ADD PREFIX_4B (take 1 data)), len - 1).

(** A transport that answers 200 with three bytes. *)
Definition three_bytes (url : string) : Response + error :=
  inl (mkResponse 200 (list_byte_of_string "xyz")).

(** [sbl.DataRedirects = urls] *)
Definition with_redirects (urls : list string) (w : World) : World :=
  set_sbl (fun s =>
    mkList (Name s) (FileName s) urls (DeleteChunks s) (ChunkRanges s)
      (Lookup s) (FullHashRequested s) (FullHashes s)
      (tmpLookup s) (tmpFullHashes s) (tmpFullHashRequested s)) w.

(** SUB, 4-byte prefixes, one entry. *)
Definition sub1 : ChunkData :=
  mkChunk 5 CHUNK_TYPE_SUB PREFIX_4B (list_byte_of_string "abcd").

(** The world a call leaves, for a call that returned. *)
Definition after (r : Res (option error * World)) : World :=
  match r with
  | Ret (_, w) => w
  | _ => world0
  end.
(** The world a call of [updateLookupMap] leaves, for a call that returned. *)
Definition updated (r : Res World) : World :=
  match r with
  | Ret w => w
  | _ => world0
  end.
End Sample.

(* ===================================================================== *)
(** ** The entry loop *)
(* ===================================================================== *)

Lemma recognised_width (c : ChunkData) :
  recognised_prefix c -> entry_width c = 4 \/ entry_width c = 32.
Proof.
  unfold recognised_prefix, entry_width, PREFIX_4B, PREFIX_32B,
    PREFIX_4B_SZ, PREFIX_32B_SZ.
  intros [-> | ->]; cbn; auto.
Qed.

Lemma unrecognised_width (c : ChunkData) :
  ~ recognised_prefix c -> entry_width c = 0.
Proof.
  unfold recognised_prefix, entry_width. intros H.
  destruct (Z.eqb_spec (PrefixType c) PREFIX_4B); [tauto |].
  destruct (Z.eqb_spec (PrefixType c) PREFIX_32B); [tauto | reflexivity].
Qed.

Lemma width_recognised (c : ChunkData) :
  entry_width c <> 0 -> recognised_prefix c.
Proof.
  unfold recognised_prefix, entry_width. intros H.
  destruct (Z.eqb_spec (PrefixType c) PREFIX_32B); [tauto |].
  destruct (Z.eqb_spec (PrefixType c) PREFIX_4B); [tauto | contradiction].
Qed.

Lemma trie_update_fuel f p w : trie_update f p w <> OutOfFuel.
Proof.
  unfold trie_update. destruct p as [l |]; [| discriminate].
  destruct (tries w !! l); discriminate.
Qed.

Lemma apply_entry_fuel c hashlen hash w : apply_entry c hashlen hash w <> OutOfFuel.
Proof.
  unfold apply_entry, trie_Set, trie_Delete.
  repeat case_match; try discriminate; try apply trie_update_fuel.
  destruct (trie_update _ (tmpFullHashes (sbl w)) w) eqn:E; cbn;
    try discriminate.
  - apply trie_update_fuel.
  - exfalso. eapply trie_update_fuel, E.
Qed.

Lemma slice_entry (hashes : list byte) (width : Z) (j : nat) :
  0 < width ->
  Z.of_nat j * width + width <= Z.of_nat (length hashes) ->
  slice hashes (Z.of_nat j * width) (Z.of_nat j * width + width)
  = Some (nth_entry width hashes j).
Proof.
  intros Hw Hle. unfold slice, nth_entry.
  assert (0 <= Z.of_nat j * width) by nia.
  replace (0 <=? Z.of_nat j * width) with true by (symmetry; apply Z.leb_le; lia).
  replace (Z.of_nat j * width <=? Z.of_nat j * width + width) with true
    by (symmetry; apply Z.leb_le; lia).
  replace (Z.of_nat j * width + width <=? Z.of_nat (length hashes)) with true
    by (symmetry; apply Z.leb_le; lia).
  cbn [andb]. do 3 f_equal.
  - lia.
  - rewrite Z2Nat.inj_mul, Nat2Z.id by lia. reflexivity.
Qed.

Lemma entry_fits (hashes : list byte) (width : Z) (j : nat) :
  0 < width ->
  (Z.of_nat j * width + width <= Z.of_nat (length hashes)
   <-> (j < entry_count width hashes)%nat).
Proof.
  intros Hw. unfold entry_count.
  set (n := Z.of_nat (length hashes)).
  assert (0 <= n) by (subst n; lia).
  pose proof (Z.div_pos n width ltac:(lia) Hw).
  rewrite Nat2Z.inj_lt, Z2Nat.id by assumption.
  split; intros Hj.
  - enough (Z.of_nat j + 1 <= n / width) by lia.
    apply Z.div_le_lower_bound; [assumption | lia].
  - pose proof (Z.mul_div_le n width Hw). nia.
Qed.

Section EntryLoop.
Variable c : ChunkData.
Variable width : Z.
Hypothesis width_pos : 0 < width.

Let hasheslen := Z.of_nat (length (Hashes c)).
Let count := entry_count width (Hashes c).

(** Whatever the loop produces before the fuel runs out is the sequential
    application of the entries that fit. *)
Lemma entry_loop_spec (fuel : nat) :
  forall (j : nat) (w : World),
    (j <= count)%nat ->
    entry_loop fuel c width hasheslen (Z.of_nat j * width) w <> OutOfFuel ->
    entry_loop fuel c width hasheslen (Z.of_nat j * width) w
    = foldM (apply_entry c width)
            (nth_entry width (Hashes c) <$> seq j (count - j)) w.
Proof.
  induction fuel as [| fuel IH]; intros j w Hj Hfuel; [done |].
  cbn [entry_loop] in *.
  destruct (Z.leb_spec (Z.of_nat j * width + width) hasheslen) as [Hle | Hgt].
  - pose proof (proj1 (entry_fits (Hashes c) width j width_pos) Hle) as Hlt.
    fold count in Hlt.
    rewrite slice_entry in * by assumption.
    replace (count - j)%nat with (S (count - S j)) by lia.
    cbn [seq fmap list_fmap foldM].
    destruct (apply_entry c width (nth_entry width (Hashes c) j) w)
      as [w1 | |] eqn:E; cbn; [| reflexivity | reflexivity].
    cbn in Hfuel.
    replace (Z.of_nat j * width + width) with (Z.of_nat (S j) * width) in * by lia.
    apply IH; [lia | assumption].
  - assert (~ (j < count)%nat) as Hnlt.
    { intros Hlt. apply (entry_fits (Hashes c) width j width_pos) in Hlt.
      subst hasheslen. lia. }
    replace (count - j)%nat with 0%nat by lia. reflexivity.
Qed.

(** One unit of fuel beyond the number of entries is enough. *)
Lemma entry_loop_fuel (fuel : nat) :
  forall (j : nat) (w : World),
    (j <= count)%nat ->
    (count - j < fuel)%nat ->
    entry_loop fuel c width hasheslen (Z.of_nat j * width) w <> OutOfFuel.
Proof.
  induction fuel as [| fuel IH]; intros j w Hj Hfuel; [lia |].
  cbn [entry_loop].
  destruct (Z.leb_spec (Z.of_nat j * width + width) hasheslen) as [Hle | Hgt];
    [| discriminate].
  pose proof (proj1 (entry_fits (Hashes c) width j width_pos) Hle) as Hlt.
  fold count in Hlt.
  rewrite slice_entry by assumption.
  destruct (apply_entry c width (nth_entry width (Hashes c) j) w)
    as [w1 | |] eqn:E; cbn; [| discriminate |].
  - replace (Z.of_nat j * width + width) with (Z.of_nat (S j) * width) by lia.
    apply IH; lia.
  - exfalso. eapply apply_entry_fuel, E.
Qed.

(** Conversely, a run that returned had that much fuel. *)
Lemma entry_loop_ret_fuel (fuel : nat) :
  forall (j : nat) (w w' : World),
    (j <= count)%nat ->
    entry_loop fuel c width hasheslen (Z.of_nat j * width) w = Ret w' ->
    (count - j < fuel)%nat.
Proof.
  induction fuel as [| fuel IH]; intros j w w' Hj Hrun; [done |].
  cbn [entry_loop] in Hrun.
  destruct (Z.leb_spec (Z.of_nat j * width + width) hasheslen) as [Hle | Hgt].
  - pose proof (proj1 (entry_fits (Hashes c) width j width_pos) Hle) as Hlt.
    fold count in Hlt.
    rewrite slice_entry in Hrun by assumption.
    destruct (apply_entry c width (nth_entry width (Hashes c) j) w)
      as [w1 | |] eqn:E; cbn in Hrun; try discriminate.
    replace (Z.of_nat j * width + width) with (Z.of_nat (S j) * width) in Hrun by lia.
    apply IH in Hrun; lia.
  - assert (~ (j < count)%nat) as Hnlt.
    { intros Hlt. apply (entry_fits (Hashes c) width j width_pos) in Hlt.
      subst hasheslen. lia. }
    lia.
Qed.
End EntryLoop.

(** With a zero width the condition [i + 0 <= hasheslen] holds for ever. *)
Lemma entry_loop_zero (c : ChunkData) (fuel : nat) :
  forall w, entry_loop fuel c 0 (Z.of_nat (length (Hashes c))) 0 w = OutOfFuel.
Proof.
  induction fuel as [| fuel IH]; intros w; [reflexivity |].
  cbn [entry_loop]. unfold slice. change (0 + 0) with 0.
  replace (0 <=? Z.of_nat (length (Hashes c))) with true
    by (symmetry; apply Z.leb_le; lia).
  cbn. apply IH.
Qed.

(* ===================================================================== *)
(** ** The tries against the tables *)
(* ===================================================================== *)

Lemma tmp_only_refl l1 l2 l3 w : tmp_only l1 l2 l3 w w.
Proof. by split. Qed.

Lemma tmp_only_trans l1 l2 l3 w1 w2 w3 :
  tmp_only l1 l2 l3 w1 w2 -> tmp_only l1 l2 l3 w2 w3 -> tmp_only l1 l2 l3 w1 w3.
Proof.
  intros [A1 A2 A3] [B1 B2 B3]. split; [congruence | congruence |].
  intros l H1 H2 H3. rewrite B3, A3 by assumption. reflexivity.
Qed.

Lemma trie_update_at f l s w :
  tries w !! l = Some s ->
  trie_update f (Some l) w = Ret (set_tries (<[l := f s]> (tries w)) w).
Proof. intros H. unfold trie_update. by rewrite H. Qed.

Lemma Logger_tmp_tables l1 l2 l3 T lv fmt a w :
  tmp_tables l1 l2 l3 T w -> tmp_tables l1 l2 l3 T (Logger lv fmt a w).
Proof. intros []. by split. Qed.

Lemma Logger_tmp_only l1 l2 l3 lv fmt a w :
  tmp_only l1 l2 l3 w (Logger lv fmt a w).
Proof. by split. Qed.

Lemma apply_entry_sim l1 l2 l3 T c hashlen hash w :
  tmp_tables l1 l2 l3 T w ->
  exists w', apply_entry c hashlen hash w = Ret w'
    /\ tmp_tables l1 l2 l3 (table_entry c hashlen T hash) w'
    /\ tmp_only l1 l2 l3 w w'.
Proof.
  intros HT. pose proof HT as [P1 P2 P3 N12 N13 N23 C1 C2 C3].
  unfold apply_entry, table_entry, trie_Set, trie_Delete.
  destruct (hashlen =? PREFIX_4B_SZ).
  { destruct (ChunkType c =? CHUNK_TYPE_ADD);
      [| destruct (ChunkType c =? CHUNK_TYPE_SUB)].
    3: { eexists; split; [reflexivity |]. split; [assumption | apply tmp_only_refl]. }
    all: rewrite P1; erewrite trie_update_at by eassumption;
      eexists; split; [reflexivity |]; split; split; cbn; try done;
      try (by rewrite lookup_insert_eq);
      try (by rewrite lookup_insert_ne);
      intros l ? ? ?; by rewrite lookup_insert_ne. }
  destruct (hashlen =? PREFIX_32B_SZ).
  2: { eexists; split; [reflexivity |]. split; [assumption | apply tmp_only_refl]. }
  destruct (ChunkType c =? CHUNK_TYPE_ADD);
    [| destruct (ChunkType c =? CHUNK_TYPE_SUB)].
  3: { eexists; split; [reflexivity |]. split; [assumption | apply tmp_only_refl]. }
  - cbn [sbl Logger]. rewrite P2.
    erewrite trie_update_at by (cbn; eassumption).
    eexists; split; [reflexivity |]; split; split; cbn; try done;
      try (by rewrite lookup_insert_eq);
      try (by rewrite lookup_insert_ne);
      intros l ? ? ?; by rewrite lookup_insert_ne.
  - rewrite P2. erewrite trie_update_at by eassumption.
    cbn. rewrite P3.
    erewrite trie_update_at by (cbn; rewrite lookup_insert_ne; eassumption).
    eexists; split; [reflexivity |]; split; split; cbn; try done.
    + rewrite !lookup_insert_ne by done. assumption.
    + rewrite lookup_insert_ne by done. by rewrite lookup_insert_eq.
    + by rewrite lookup_insert_eq.
    + intros l ? ? ?. by rewrite !lookup_insert_ne.
Qed.

Lemma foldM_entries_sim l1 l2 l3 c hashlen (es : list (list byte)) :
  forall T w,
    tmp_tables l1 l2 l3 T w ->
    exists w', foldM (apply_entry c hashlen) es w = Ret w'
      /\ tmp_tables l1 l2 l3 (foldl (table_entry c hashlen) T es) w'
      /\ tmp_only l1 l2 l3 w w'.
Proof.
  induction es as [| e es IH]; intros T w HT.
  - exists w. split; [reflexivity |]. split; [assumption | apply tmp_only_refl].
  - destruct (apply_entry_sim l1 l2 l3 T c hashlen e w HT) as (w1 & E1 & HT1 & F1).
    destruct (IH _ _ HT1) as (w2 & E2 & HT2 & F2).
    exists w2. cbn [foldM foldl]. rewrite E1. cbn.
    split; [assumption |]. split; [assumption |].
    eapply tmp_only_trans; eassumption.
Qed.

(** [updateLookupMap] on allocated temporary tries: it returns exactly when
    the prefix type is recognised and the fuel exceeds the number of entries,
    and then the tries hold [table_chunk]. *)
Lemma updateLookupMap_ret l1 l2 l3 T fuel c w w' :
  tmp_tables l1 l2 l3 T w ->
  updateLookupMap fuel (Some c) w = Ret w' ->
  recognised_prefix c
  /\ (entry_count (entry_width c) (Hashes c) < fuel)%nat
  /\ tmp_tables l1 l2 l3 (table_chunk T c) w'
  /\ tmp_only l1 l2 l3 w w'.
Proof.
  intros HT Hrun. cbn [updateLookupMap] in Hrun.
  destruct (Z.eq_dec (entry_width c) 0) as [E0 | Hne].
  { rewrite E0, entry_loop_zero in Hrun. discriminate. }
  pose proof (width_recognised c Hne) as Hrec.
  assert (0 < entry_width c) as Hpos
    by (destruct (recognised_width c Hrec); lia).
  change 0 with (Z.of_nat 0 * entry_width c) in Hrun at 1.
  pose proof (entry_loop_ret_fuel c _ Hpos fuel 0 w w' ltac:(lia) Hrun) as Hfuel.
  rewrite entry_loop_spec in Hrun by (assumption || lia || congruence).
  rewrite Nat.sub_0_r in Hrun, Hfuel.
  destruct (foldM_entries_sim l1 l2 l3 c (entry_width c)
              (entries (entry_width c) (Hashes c)) T w HT) as (w2 & E2 & HT2 & F2).
  unfold entries in E2. rewrite E2 in Hrun. injection Hrun as <-.
  auto.
Qed.

Lemma updateLookupMap_total l1 l2 l3 T fuel c w :
  tmp_tables l1 l2 l3 T w ->
  recognised_prefix c ->
  (entry_count (entry_width c) (Hashes c) < fuel)%nat ->
  exists w', updateLookupMap fuel (Some c) w = Ret w'.
Proof.
  intros HT Hrec Hfuel. cbn [updateLookupMap].
  assert (0 < entry_width c) as Hpos
    by (destruct (recognised_width c Hrec); lia).
  change 0 with (Z.of_nat 0 * entry_width c) at 1.
  rewrite entry_loop_spec by
    (assumption || lia || (apply entry_loop_fuel; (assumption || lia))).
  rewrite Nat.sub_0_r.
  destruct (foldM_entries_sim l1 l2 l3 c (entry_width c)
              (entries (entry_width c) (Hashes c)) T w HT) as (w2 & E2 & _).
  exists w2. exact E2.
Qed.

(* ===================================================================== *)
(** ** The two loops of [load] *)
(* ===================================================================== *)

Lemma bind_Ret {A B : Type} (a : A) (k : A -> Res B) : (Ret a ≫= k) = k a.
Proof. reflexivity. Qed.

Lemma merge_frame_refl l1 l2 l3 tmp w : merge_frame l1 l2 l3 tmp w w.
Proof. by split. Qed.

Lemma merge_frame_trans l1 l2 l3 tmp w1 w2 w3 :
  merge_frame l1 l2 l3 tmp w1 w2 -> merge_frame l1 l2 l3 tmp w2 w3 ->
  merge_frame l1 l2 l3 tmp w1 w3.
Proof.
  intros [A1 A2 A3] [B1 B2 B3]. split; [congruence | |].
  - intros l H1 H2 H3. rewrite B2, A2 by assumption. reflexivity.
  - intros p Hp. rewrite B3, A3 by assumption. reflexivity.
Qed.

Lemma tmp_only_frame l1 l2 l3 tmp w w' :
  tmp_only l1 l2 l3 w w' -> merge_frame l1 l2 l3 tmp w w'.
Proof. intros [A1 A2 A3]. split; [assumption | assumption |]. intros. by rewrite A2. Qed.

Lemma tally_spec (c : ChunkData) (v : Locals) :
  exists r, tally (Some c) v = Ret r /\
    match r with
    | Some v' =>
        in_bucket c = true
        /\ (forall n, n ∈ addChunkIndexes v' <->
              (ChunkType c = CHUNK_TYPE_ADD /\ cast_ChunkNum (ChunkNumber c) = n)
              \/ n ∈ addChunkIndexes v)
        /\ (forall n, n ∈ subChunkIndexes v' <->
              (ChunkType c = CHUNK_TYPE_SUB /\ cast_ChunkNum (ChunkNumber c) = n)
              \/ n ∈ subChunkIndexes v)
    | None => in_bucket c = false /\ True
    end.
Proof.
  unfold tally, in_bucket, GetChunkType, GetPrefixType, GetChunkNumber, len_Hashes.
  unfold CHUNK_TYPE_ADD, CHUNK_TYPE_SUB, PREFIX_4B, PREFIX_32B.
  destruct (Z.eqb_spec (ChunkType c) 0) as [Ea | Na];
    destruct (Z.eqb_spec (ChunkType c) 1) as [Es | Ns];
    destruct (Z.eqb_spec (PrefixType c) 0) as [E4 | N4];
    destruct (Z.eqb_spec (PrefixType c) 1) as [E32 | N32];
    try lia; cbn;
    eexists; (split; [reflexivity |]); cbn; (split; [reflexivity |]);
    try exact I; split; intros n;
    rewrite ?elem_of_union, ?elem_of_singleton; unfold cast_ChunkNum;
    intuition (try lia; try congruence).
Qed.

Lemma gob_Encode_ok env tmp c out w w1 :
  disk w !! tmp = Some out ->
  gob_Encode env tmp (Some c) w = (None, w1) ->
  w1 = set_disk (<[tmp := out ++ [GobChunk c]]> (disk w)) w.
Proof.
  intros Hd. unfold gob_Encode. rewrite Hd. cbn.
  destruct (encode_error env (length out)); congruence.
Qed.

Lemma gob_Encode_fail env tmp chunk w e w1 :
  gob_Encode env tmp chunk w = (Some e, w1) -> w1 = w.
Proof.
  unfold gob_Encode. destruct chunk; [| congruence].
  destruct (encode_error env _); congruence.
Qed.

(** One record that is kept: encoded, then applied. *)
Lemma keep_step env fuel tmp l1 l2 l3 T out c w w1 w2 :
  tmp_tables l1 l2 l3 T w ->
  disk w !! tmp = Some out ->
  gob_Encode env tmp (Some c) w = (None, w1) ->
  updateLookupMap fuel (Some c) w1 = Ret w2 ->
  recognised_prefix c
  /\ (entry_count (entry_width c) (Hashes c) < fuel)%nat
  /\ tmp_tables l1 l2 l3 (table_chunk T c) w2
  /\ merge_frame l1 l2 l3 tmp w w2
  /\ disk w2 !! tmp = Some (out ++ [GobChunk c]).
Proof.
  intros HT Hd Henc Hup.
  apply (gob_Encode_ok _ _ _ _ _ _ Hd) in Henc. subst w1.
  assert (tmp_tables l1 l2 l3 T
            (set_disk (<[tmp:=out ++ [GobChunk c]]> (disk w)) w)) as HT1
    by (destruct HT; by split).
  destruct (updateLookupMap_ret _ _ _ _ _ _ _ _ HT1 Hup) as (Hrec & Hfuel & HT2 & F).
  split; [assumption |]. split; [assumption |]. split; [assumption |].
  destruct F as [F1 F2 F3]. split.
  - split; [exact F1 | exact F3 |].
    intros p Hp. rewrite F2. cbn. by rewrite lookup_insert_ne.
  - rewrite F2. cbn. by rewrite lookup_insert_eq.
Qed.

Section Loops.
Variable env : Faults.
Variable fuel : nat.
Variable tmp : string.
Variables l1 l2 l3 : positive.
Variable dc : gmap Z (gset Z).

Lemma load_existing_spec (stream : list gobItem) :
  forall v w T out ex v' w',
    DeleteChunks (sbl w) = dc ->
    tmp_tables l1 l2 l3 T w ->
    disk w !! tmp = Some out ->
    load_existing env fuel tmp stream v w = Ret (ex, v', w') ->
    merge_frame l1 l2 l3 tmp w w'
    /\ (ex = Broke EOF ->
        exists cs, stream = GobChunk <$> cs
          /\ Forall (kept_ok fuel) (survivors_existing dc cs)
          /\ disk w' !! tmp = Some (out ++ (GobChunk <$> survivors_existing dc cs))
          /\ tmp_tables l1 l2 l3 (foldl table_chunk T (survivors_existing dc cs)) w'
          /\ (forall n, n ∈ addChunkIndexes v' <->
                n ∈ addChunkIndexes v
                \/ has_number CHUNK_TYPE_ADD (survivors_existing dc cs) n)
          /\ (forall n, n ∈ subChunkIndexes v' <->
                n ∈ subChunkIndexes v
                \/ has_number CHUNK_TYPE_SUB (survivors_existing dc cs) n)).
Proof.
  induction stream as [| item rest IH]; intros v w T out ex v' w' Hdc HT Hd Hrun.
  - injection Hrun as <- <- <-. split; [apply merge_frame_refl |]. intros _.
    exists []. cbn. rewrite app_nil_r.
    assert (forall ty n, ~ has_number ty [] n) as Hnone.
    { intros ty n (c & Hc & _). by apply elem_of_nil in Hc. }
    split; [reflexivity |]. split; [constructor |].
    split; [exact Hd |]. split; [exact HT |].
    split; intros n; (split; [tauto |]);
      (intros [H | H]; [assumption | by apply Hnone in H]).
  - destruct item as [c |].
    2: { injection Hrun as <- <- <-. split; [apply merge_frame_refl | done]. }
    cbn [load_existing] in Hrun. unfold marked_deleted in Hrun.
    rewrite Hdc in Hrun.
    destruct (deleted dc (Some c)) eqn:Hdel.
    + (* marked for deletion: skipped *)
      destruct (IH _ _ _ _ _ _ _ Hdc HT Hd Hrun) as (F & Hok).
      split; [assumption |]. intros ->.
      destruct (Hok eq_refl) as (cs & -> & Hall & Hdisk & HT' & Ha & Hs).
      exists (c :: cs).
      assert (survivors_existing dc (c :: cs) = survivors_existing dc cs) as ->.
      { unfold survivors_existing. rewrite filter_cons_False; [done |].
        rewrite Hdel. done. }
      split; [reflexivity |]. split; [assumption |].
      split; [assumption |]. split; [assumption |]. split; assumption.
    + (* kept *)
      destruct (tally_spec c v) as (r & Er & Hr).
      rewrite Er, bind_Ret in Hrun.
      assert (exists v1 w1,
                match r with
                | Some v'0 => (v'0, w)
                | None => (v, Logger Warn "Chunk not decoded properly" [] w)
                end = (v1, w1)
                /\ tmp_tables l1 l2 l3 T w1 /\ merge_frame l1 l2 l3 tmp w w1
                /\ disk w1 !! tmp = Some out
                /\ (forall n, n ∈ addChunkIndexes v1 <->
                      (in_bucket c = true /\ ChunkType c = CHUNK_TYPE_ADD
                       /\ cast_ChunkNum (ChunkNumber c) = n)
                      \/ n ∈ addChunkIndexes v)
                /\ (forall n, n ∈ subChunkIndexes v1 <->
                      (in_bucket c = true /\ ChunkType c = CHUNK_TYPE_SUB
                       /\ cast_ChunkNum (ChunkNumber c) = n)
                      \/ n ∈ subChunkIndexes v))
        as (v1 & w1 & Evw & HT1 & F1 & Hd1 & Ha1 & Hs1).
      { destruct r as [v1 |].
        - exists v1, w. destruct Hr as (Hb & Ha & Hs).
          split; [reflexivity |]. split; [exact HT |].
          split; [apply merge_frame_refl |]. split; [exact Hd |].
          split; intros n; [rewrite Ha | rewrite Hs]; tauto.
        - exists v, (Logger Warn "Chunk not decoded properly" [] w).
          destruct Hr as (Hb & _).
          split; [reflexivity |].
          split; [by apply Logger_tmp_tables |].
          split; [by split |]. split; [exact Hd |].
          split; intros n; rewrite Hb;
            (split; [intros H; right; exact H
                    | intros [(? & _) | H]; [discriminate | exact H]]). }
      rewrite Evw in Hrun. clear Evw.
      destruct (gob_Encode env tmp (Some c) w1) as [[e |] w2] eqn:Eenc.
      { injection Hrun as <- <- <-.
        apply gob_Encode_fail in Eenc. subst w2. split; [assumption | done]. }
      destruct (updateLookupMap fuel (Some c) w2) as [w3 | |] eqn:Eup;
        cbn in Hrun; try discriminate.
      destruct (keep_step _ _ _ _ _ _ _ _ _ _ _ _ HT1 Hd1 Eenc Eup)
        as (Hrec & Hfuel & HT3 & F3 & Hd3).
      assert (DeleteChunks (sbl w3) = dc) as Hdc3.
      { rewrite (mf_sbl _ _ _ _ _ _ F3), (mf_sbl _ _ _ _ _ _ F1). exact Hdc. }
      destruct (IH _ _ _ _ _ _ _ Hdc3 HT3 Hd3 Hrun) as (F & Hok).
      split.
      { eapply merge_frame_trans; [exact F1 |].
        eapply merge_frame_trans; [exact F3 | exact F]. }
      intros ->.
      destruct (Hok eq_refl) as (cs & -> & Hall & Hdisk & HT' & Ha & Hs).
      exists (c :: cs).
      assert (survivors_existing dc (c :: cs) = c :: survivors_existing dc cs) as ->.
      { unfold survivors_existing. rewrite filter_cons_True; done. }
      split; [reflexivity |].
      split; [constructor; [split; assumption | assumption] |].
      split; [rewrite Hdisk, <- app_assoc; reflexivity |].
      split; [exact HT' |].
      assert (forall ty, (ty = CHUNK_TYPE_ADD \/ ty = CHUNK_TYPE_SUB) ->
                ChunkType c = ty -> in_bucket c = true) as Hbucket.
      { intros ty Hty Ec. unfold in_bucket.
        destruct Hrec as [-> | ->]; destruct Hty as [-> | ->]; rewrite Ec;
          reflexivity. }
      unfold has_number in *.
      split; intros n; [rewrite Ha | rewrite Hs]; cbn [addChunkIndexes
        subChunkIndexes set_addedChunkCount]; [rewrite Ha1 | rewrite Hs1];
        split.
      all: try (intros [[(Hb & Et & En) | Hin] | (c' & Hc' & Et & En)];
                [right; exists c; split; [left | done]
                | left; assumption
                | right; exists c'; split; [right; assumption | done]]).
      all: intros [Hin | (c' & Hc' & Et & En)]; [left; right; assumption |].
      all: apply elem_of_cons in Hc' as [-> | Hc'];
        [left; left; split;
           [first [exact (Hbucket _ (or_introl eq_refl) Et)
                  | exact (Hbucket _ (or_intror eq_refl) Et)] | done]
        | right; exists c'; done].
Qed.

Lemma load_new_spec (newChunks : list (option ChunkData)) :
  forall v w T out err v' w',
    DeleteChunks (sbl w) = dc ->
    tmp_tables l1 l2 l3 T w ->
    disk w !! tmp = Some out ->
    load_new env fuel tmp newChunks v w = Ret (err, v', w') ->
    merge_frame l1 l2 l3 tmp w w'
    /\ (err = None ->
        Forall (kept_ok fuel) (survivors_new dc newChunks)
        /\ disk w' !! tmp = Some (out ++ (GobChunk <$> survivors_new dc newChunks))
        /\ tmp_tables l1 l2 l3 (foldl table_chunk T (survivors_new dc newChunks)) w'
        /\ (forall n, n ∈ addChunkIndexes v' <->
              n ∈ addChunkIndexes v
              \/ has_number CHUNK_TYPE_ADD (survivors_new dc newChunks) n)
        /\ (forall n, n ∈ subChunkIndexes v' <->
              n ∈ subChunkIndexes v
              \/ has_number CHUNK_TYPE_SUB (survivors_new dc newChunks) n)).
Proof.
  induction newChunks as [| chunk rest IH];
    intros v w T out err v' w' Hdc HT Hd Hrun.
  - injection Hrun as <- <- <-. split; [apply merge_frame_refl |]. intros _.
    cbn. rewrite app_nil_r.
    assert (forall ty n, ~ has_number ty [] n) as Hnone.
    { intros ty n (c & Hc & _). by apply elem_of_nil in Hc. }
    split; [constructor |]. split; [exact Hd |]. split; [exact HT |].
    split; intros n; (split; [tauto |]);
      (intros [H | H]; [assumption | by apply Hnone in H]).
  - cbn [load_new] in Hrun. unfold marked_deleted in Hrun. rewrite Hdc in Hrun.
    destruct (deleted dc chunk) eqn:Hdel.
    + (* marked for deletion: skipped *)
      assert (survivors_new dc (chunk :: rest) = survivors_new dc rest) as ->.
      { unfold survivors_new. cbn [omap list_omap]. destruct chunk; [| done].
        by rewrite Hdel. }
      exact (IH _ _ _ _ _ _ _ Hdc HT Hd Hrun).
    + destruct chunk as [c |]; [| discriminate].
      destruct (tally_spec c v) as (r & Er & Hr).
      rewrite Er, bind_Ret in Hrun.
      destruct r as [v1 |].
      * (* in a bucket: kept *)
        destruct Hr as (Hb & Ha1 & Hs1).
        assert (survivors_new dc (Some c :: rest) = c :: survivors_new dc rest) as ->.
        { unfold survivors_new. cbn [omap list_omap]. by rewrite Hdel, Hb. }
        destruct (gob_Encode env tmp (Some c) w) as [[e |] w2] eqn:Eenc.
        { injection Hrun as <- <- <-.
          apply gob_Encode_fail in Eenc. subst w2.
          split; [apply merge_frame_refl | done]. }
        destruct (updateLookupMap fuel (Some c) w2) as [w3 | |] eqn:Eup;
          cbn in Hrun; try discriminate.
        destruct (keep_step _ _ _ _ _ _ _ _ _ _ _ _ HT Hd Eenc Eup)
          as (Hrec & Hfuel & HT3 & F3 & Hd3).
        assert (DeleteChunks (sbl w3) = dc) as Hdc3.
        { rewrite (mf_sbl _ _ _ _ _ _ F3). exact Hdc. }
        destruct (IH _ _ _ _ _ _ _ Hdc3 HT3 Hd3 Hrun) as (F & Hok).
        split; [eapply merge_frame_trans; [exact F3 | exact F] |].
        intros ->.
        destruct (Hok eq_refl) as (Hall & Hdisk & HT' & Ha & Hs).
        split; [constructor; [split; assumption | assumption] |].
        split; [rewrite Hdisk, <- app_assoc; reflexivity |].
        split; [exact HT' |].
        unfold has_number in *.
        split; intros n; [rewrite Ha, Ha1 | rewrite Hs, Hs1]; split.
        all: try (intros [[(Et & En) | Hin] | (c' & Hc' & Et & En)];
                  [right; exists c; split; [left | done]
                  | left; assumption
                  | right; exists c'; split; [right; assumption | done]]).
        all: intros [Hin | (c' & Hc' & Et & En)]; [left; right; assumption |].
        all: apply elem_of_cons in Hc' as [-> | Hc'];
          [left; left; done | right; exists c'; done].
      * (* outside the buckets: warned about and skipped *)
        destruct Hr as (Hb & _).
        assert (survivors_new dc (Some c :: rest) = survivors_new dc rest) as ->.
        { unfold survivors_new. cbn [omap list_omap].
          by rewrite Hb, andb_false_r. }
        assert (tmp_tables l1 l2 l3 T (Logger Warn "Unknow chunk type" [] w)) as HT1
          by (by apply Logger_tmp_tables).
        destruct (IH _ (Logger Warn "Unknow chunk type" [] w) _ _ _ _ _
                    Hdc HT1 Hd Hrun) as (F & Hok).
        split; [| exact Hok].
        destruct F as [F1 F2 F3]. by split.
Qed.
End Loops.

(* ===================================================================== *)
(** ** The merge as a whole *)
(* ===================================================================== *)

Lemma reset_tmp_spec (w : World) :
  exists l1 l2 l3,
    (l1 ∉ dom (tries w)) /\ (l2 ∉ dom (tries w)) /\ (l3 ∉ dom (tries w))
    /\ tmp_tables l1 l2 l3 no_tables (reset_tmp w)
    /\ same_live (sbl w) (sbl (reset_tmp w))
    /\ (forall l, l ∈ dom (tries w) -> tries (reset_tmp w) !! l = tries w !! l)
    /\ disk (reset_tmp w) = disk w.
Proof.
  unfold reset_tmp, NewTrie. cbn [sbl tries set_sbl set_tries].
  set (l1 := fresh (dom (tries w))) in *.
  set (l2 := fresh (dom (<[l1:=∅]> (tries w)))) in *.
  set (l3 := fresh (dom (<[l2:=∅]> (<[l1:=∅]> (tries w))))) in *.
  pose proof (is_fresh (dom (tries w))) as Hf1. fold l1 in Hf1.
  pose proof (is_fresh (dom (<[l1:=∅]> (tries w)))) as Hf2. fold l2 in Hf2.
  pose proof (is_fresh (dom (<[l2:=∅]> (<[l1:=∅]> (tries w))))) as Hf3.
  fold l3 in Hf3.
  rewrite !dom_insert_L in Hf3. rewrite dom_insert_L in Hf2.
  assert (l1 <> l2) as N12 by set_solver.
  assert (l1 <> l3) as N13 by set_solver.
  assert (l2 <> l3) as N23 by set_solver.
  assert (l2 ∉ dom (tries w)) as Hf2' by set_solver.
  assert (l3 ∉ dom (tries w)) as Hf3' by set_solver.
  exists l1, l2, l3. do 3 (split; [assumption |]).
  split; [| split; [by split | split; [| reflexivity]]].
  - split; cbn; try done.
    + rewrite !lookup_insert_ne by done. by rewrite lookup_insert_eq.
    + rewrite lookup_insert_ne by done. by rewrite lookup_insert_eq.
    + by rewrite lookup_insert_eq.
  - intros l Hl. cbn.
    rewrite !lookup_insert_ne; [done | | |]; intros ->; contradiction.
Qed.

Section Merge.
Variable env : Faults.
Variable fuel : nat.

Lemma load_old_spec tmp l1 l2 l3 dec v w T out r :
  tmp_tables l1 l2 l3 T w ->
  disk w !! tmp = Some out ->
  load_old env fuel tmp dec v w = Ret r ->
  let dc := DeleteChunks (sbl w) in
  match r with
  | inl (err, w') => is_Some err /\ merge_frame l1 l2 l3 tmp w w'
  | inr (v', w') =>
      merge_frame l1 l2 l3 tmp w w'
      /\ exists cs, old_chunks dec cs
        /\ Forall (kept_ok fuel) (survivors_existing dc cs)
        /\ disk w' !! tmp = Some (out ++ (GobChunk <$> survivors_existing dc cs))
        /\ tmp_tables l1 l2 l3 (foldl table_chunk T (survivors_existing dc cs)) w'
        /\ (forall n, n ∈ addChunkIndexes v' <->
              n ∈ addChunkIndexes v
              \/ has_number CHUNK_TYPE_ADD (survivors_existing dc cs) n)
        /\ (forall n, n ∈ subChunkIndexes v' <->
              n ∈ subChunkIndexes v
              \/ has_number CHUNK_TYPE_SUB (survivors_existing dc cs) n)
  end.
Proof.
  intros HT Hd Hrun dc. unfold load_old in Hrun.
  destruct dec as [stream |].
  - destruct (load_existing env fuel tmp stream v w) as [[[ex v1] w1] | |] eqn:E;
      cbn in Hrun; try discriminate.
    destruct (load_existing_spec env fuel tmp l1 l2 l3 dc stream
                _ _ _ _ _ _ _ eq_refl HT Hd E) as (F & Hok).
    destruct ex as [err | err].
    + destruct err; cbn in Hrun; injection Hrun as <-; try (split; [eauto | exact F]).
      split; [exact F |]. exact (Hok eq_refl).
    + injection Hrun as <-. split; [eauto | exact F].
  - injection Hrun as <-. split; [apply merge_frame_refl |].
    exists []. cbn. rewrite app_nil_r.
    assert (forall ty n, ~ has_number ty [] n) as Hnone.
    { intros ty n (c & Hc & _). by apply elem_of_nil in Hc. }
    split; [reflexivity |]. split; [constructor |].
    split; [exact Hd |]. split; [exact HT |].
    split; intros n; (split; [tauto |]);
      (intros [H | H]; [assumption | by apply Hnone in H]).
Qed.

Lemma has_number_app ty cs1 cs2 n :
  has_number ty (cs1 ++ cs2) n <-> has_number ty cs1 n \/ has_number ty cs2 n.
Proof.
  unfold has_number. split.
  - intros (c & Hc & H). apply elem_of_app in Hc as [Hc | Hc]; eauto.
  - intros [(c & Hc & H) | (c & Hc & H)]; exists c;
      (split; [apply elem_of_app; auto | exact H]).
Qed.

Lemma has_number_nil ty n : ~ has_number ty [] n.
Proof. intros (c & Hc & _). by apply elem_of_nil in Hc. Qed.

Lemma load_merge_spec dec newChunks w r :
  disk w !! (FileName (sbl w) +:+ ".tmp") = Some [] ->
  load_merge env fuel dec newChunks w = Ret r ->
  let tmp := FileName (sbl w) +:+ ".tmp" in
  let dc := DeleteChunks (sbl w) in
  exists l1 l2 l3 w',
    (l1 ∉ dom (tries w)) /\ (l2 ∉ dom (tries w)) /\ (l3 ∉ dom (tries w))
    /\ same_live (sbl w) (sbl w')
    /\ (forall l, l ∈ dom (tries w) -> tries w' !! l = tries w !! l)
    /\ (forall p, p <> tmp -> disk w' !! p = disk w !! p)
    /\ match r with
       | inl (err, w'') => w'' = w' /\ is_Some err
       | inr (v, w'') =>
           w'' = w'
           /\ exists cs, old_chunks dec cs
             /\ let kept := survivors_existing dc cs ++ survivors_new dc newChunks in
                Forall (kept_ok fuel) kept
                /\ disk w' !! tmp = Some (GobChunk <$> kept)
                /\ tmp_tables l1 l2 l3 (foldl table_chunk no_tables kept) w'
                /\ (forall n, n ∈ addChunkIndexes v <->
                      has_number CHUNK_TYPE_ADD kept n)
                /\ (forall n, n ∈ subChunkIndexes v <->
                      has_number CHUNK_TYPE_SUB kept n)
       end.
Proof.
  intros Hd Hrun tmp dc. unfold load_merge in Hrun. fold tmp in Hrun.
  destruct (reset_tmp_spec w)
    as (l1 & l2 & l3 & Hf1 & Hf2' & Hf3' & HT0 & HL0 & Htr0 & Hd0).
  match type of Hrun with
  | context [load_old _ _ _ _ _ ?x] => set (w0 := x) in *
  end.
  apply (Logger_tmp_tables _ _ _ _ Info "Load existing data from files" [])
    in HT0. fold w0 in HT0.
  change (sbl (reset_tmp w)) with (sbl w0) in HL0.
  change (tries (reset_tmp w)) with (tries w0) in Htr0.
  change (disk (reset_tmp w)) with (disk w0) in Hd0.
  assert (DeleteChunks (sbl w0) = dc) as Hdc0 by (by rewrite (sl_DeleteChunks _ _ HL0)).
  assert (forall w', merge_frame l1 l2 l3 tmp w0 w' ->
            same_live (sbl w) (sbl w')
            /\ (forall l, l ∈ dom (tries w) -> tries w' !! l = tries w !! l)
            /\ (forall p, p <> tmp -> disk w' !! p = disk w !! p)) as Hframe.
  { intros w' [F1 F2 F3]. split; [by rewrite F1 |]. split.
    - intros l Hl. rewrite F2; [by apply Htr0 | | |]; intros ->; contradiction.
    - intros p Hp. rewrite F3 by exact Hp. by rewrite Hd0. }
  clearbody w0.
  destruct (load_old env fuel tmp dec _ w0) as [r1 | |] eqn:Eold;
    cbn in Hrun; try discriminate.
  pose proof (load_old_spec tmp l1 l2 l3 dec _ w0 no_tables [] r1 HT0
                ltac:(by rewrite Hd0) Eold) as Hold.
  cbn zeta in Hold. rewrite Hdc0 in Hold.
  exists l1, l2, l3.
  destruct r1 as [[err w1] | [v1 w1]].
  { injection Hrun as <-. destruct Hold as (He & F). exists w1.
    destruct (Hframe _ F) as (A & B & C). auto 10. }
  destruct Hold as (F1 & cs & Hcs & Hall1 & Hdisk1 & HT1 & Ha1 & Hs1).
  match type of Hrun with
  | context [load_new _ _ _ _ ?v ?x] => set (w2 := x) in *; set (v2 := v) in *
  end.
  assert (tmp_tables l1 l2 l3
            (foldl table_chunk no_tables (survivors_existing dc cs)) w2) as HT2.
  { subst w2. by do 2 apply Logger_tmp_tables. }
  assert (merge_frame l1 l2 l3 tmp w0 w2) as F2.
  { subst w2. destruct F1 as [A B C]. by split. }
  assert (disk w2 !! tmp = Some (GobChunk <$> survivors_existing dc cs)) as Hd2
    by (subst w2; exact Hdisk1).
  assert (DeleteChunks (sbl w2) = dc) as Hdc2.
  { rewrite (mf_sbl _ _ _ _ _ _ F2). exact Hdc0. }
  clearbody w2.
  destruct (load_new env fuel tmp newChunks v2 w2) as [[[err v3] w3] | |] eqn:Enew;
    cbn in Hrun; try discriminate.
  destruct (load_new_spec env fuel tmp l1 l2 l3 dc newChunks
              _ _ _ _ _ _ _ Hdc2 HT2 Hd2 Enew) as (F3 & Hok).
  pose proof (merge_frame_trans _ _ _ _ _ _ _ F2 F3) as F.
  destruct (Hframe _ F) as (A & B & C).
  exists w3. destruct err as [e |]; injection Hrun as <-; [auto 10 |].
  destruct (Hok eq_refl) as (Hall3 & Hdisk3 & HT3 & Ha3 & Hs3).
  do 6 (split; [assumption |]). split; [reflexivity |].
  exists cs. split; [exact Hcs |]. cbn zeta.
  split; [apply Forall_app; auto |].
  split; [rewrite Hdisk3, fmap_app; reflexivity |].
  split; [rewrite foldl_app; exact HT3 |].
  split; intros n; rewrite has_number_app; [rewrite Ha3 | rewrite Hs3];
    subst v2; cbn [addChunkIndexes subChunkIndexes];
    [rewrite Ha1 | rewrite Hs1];
    (split; [intros [[H | H] | H]; auto; set_solver | tauto]).
Qed.
End Merge.

(* ===================================================================== *)
(** ** [load], case by case *)
(* ===================================================================== *)

Lemma append_length (s t : string) :
  String.length (s +:+ t) = (String.length s + String.length t)%nat.
Proof.
  induction s as [| a s IH]; [reflexivity |].
  change (S (String.length (s +:+ t)) = S (String.length s + String.length t)).
  f_equal. exact IH.
Qed.

Lemma tmp_name_ne (name : string) : name +:+ ".tmp" <> name.
Proof.
  intros H. apply (f_equal String.length) in H.
  rewrite append_length in H. cbn in H. lia.
Qed.

Lemma close_tmp_file_spec env name w :
  let w' := close_tmp_file env name w in
  sbl w' = sbl w /\ tries w' = tries w
  /\ (forall p, p <> name +:+ ".tmp" -> disk w' !! p = disk w !! p)
  /\ (disk w !! (name +:+ ".tmp") = None -> disk w' = disk w).
Proof.
  unfold close_tmp_file, os_Remove.
  destruct (disk w !! (name +:+ ".tmp")) eqn:E; [| done].
  destruct (remove_error env _); cbn; [done |].
  repeat split; [| done]. intros p Hp. by rewrite lookup_delete_ne.
Qed.

Lemma load_commit_spec env f v w err w' l1 l2 l3 T content :
  let name := FileName (sbl w) in
  let tmp := name +:+ ".tmp" in
  tmp_tables l1 l2 l3 T w ->
  disk w !! tmp = Some content ->
  (forall stream, f = Some stream -> is_Some (disk w !! name)) ->
  load_commit env f v w = (err, w') ->
  Lookup (sbl w') = Some l1 /\ FullHashes (sbl w') = Some l2
  /\ FullHashRequested (sbl w') = Some l3
  /\ tries w' = tries w
  /\ FileName (sbl w') = name /\ Name (sbl w') = Name (sbl w)
  /\ DataRedirects (sbl w') = DataRedirects (sbl w)
  /\ match err with
     | None =>
         disk w' !! name = Some content
         /\ disk w' !! tmp = None
         /\ (forall p, p <> name -> p <> tmp -> disk w' !! p = disk w !! p)
         /\ ChunkRanges (sbl w')
            = <[CHUNK_TYPE_SUB := buildChunkRanges (subChunkIndexes v)]>
                {[CHUNK_TYPE_ADD := buildChunkRanges (addChunkIndexes v)]}
         /\ DeleteChunks (sbl w') = ∅
         /\ rename_error env tmp = false
         /\ (is_Some f -> remove_error env name = false)
     | Some e =>
         ChunkRanges (sbl w') = ChunkRanges (sbl w)
         /\ DeleteChunks (sbl w') = DeleteChunks (sbl w)
         /\ (e = ErrRemove \/ e = ErrRename)
     end.
Proof.
  intros name tmp [P1 P2 P3 _ _ _ _ _ _] Htmp Hf Hrun.
  pose proof (tmp_name_ne name) as Hne. fold tmp in Hne.
  unfold load_commit, os_Remove, os_Rename in Hrun.
  destruct f as [stream |]; cbn in Hrun; fold name in Hrun; fold tmp in Hrun.
  - destruct (Hf stream eq_refl) as (old & Hold). rewrite Hold in Hrun.
    destruct (remove_error env name) eqn:Erem.
    { injection Hrun as <- <-. cbn. rewrite P1, P2, P3. auto 12. }
    cbn [disk set_disk] in Hrun.
    rewrite lookup_delete_ne, Htmp in Hrun by (by apply not_eq_sym).
    destruct (rename_error env tmp) eqn:Eren.
    { injection Hrun as <- <-. cbn. rewrite P1, P2, P3. auto 12. }
    injection Hrun as <- <-. cbn. rewrite P1, P2, P3.
    do 7 (split; [reflexivity |]).
    split; [by rewrite lookup_insert_eq |].
    split; [rewrite lookup_insert_ne by (by apply not_eq_sym);
            by rewrite lookup_delete_eq |].
    split; [| done].
    intros p Hp1 Hp2. rewrite lookup_insert_ne by (by apply not_eq_sym).
    rewrite lookup_delete_ne by (by apply not_eq_sym).
    by rewrite lookup_delete_ne by (by apply not_eq_sym).
  - rewrite Htmp in Hrun.
    destruct (rename_error env tmp) eqn:Eren.
    { injection Hrun as <- <-. cbn. rewrite P1, P2, P3. auto 12. }
    injection Hrun as <- <-. cbn. rewrite P1, P2, P3.
    do 7 (split; [reflexivity |]).
    split; [by rewrite lookup_insert_eq |].
    split; [rewrite lookup_insert_ne by (by apply not_eq_sym);
            by rewrite lookup_delete_eq |].
    split; [| repeat split; try done; by intros [? ?]].
    intros p Hp1 Hp2. rewrite lookup_insert_ne by (by apply not_eq_sym).
    by rewrite lookup_delete_ne by (by apply not_eq_sym).
Qed.

Lemma os_Open_exists env name w stream :
  fst (os_Open env name w) = Some stream -> is_Some (disk w !! name).
Proof.
  unfold os_Open. destruct (open_error env name); [discriminate |].
  destruct (disk w !! name); [eauto | discriminate].
Qed.

Lemma load_cases env fuel newChunks w err w' :
  load env fuel newChunks w = Ret (err, w') ->
  (is_Some err /\ untouched w w')
  \/ (exists cs,
        old_chunks (fst (os_Open env (FileName (sbl w)) w)) cs
        /\ swapped env fuel w err w'
             (survivors_existing (DeleteChunks (sbl w)) cs
              ++ survivors_new (DeleteChunks (sbl w)) newChunks)).
Proof.
  intros Hrun. unfold load in Hrun.
  set (name := FileName (sbl w)) in *.
  set (tmp := name +:+ ".tmp") in *.
  pose proof (tmp_name_ne name) as Hne. fold tmp in Hne.
  cbn [sbl Logger FileName] in Hrun. fold name in Hrun. fold tmp in Hrun.
  change (os_Open env name (Logger Info "Reloading %s" [AStr (Name (sbl w))] w))
    with (os_Open env name w) in Hrun.
  destruct (os_Open env name w) as [f oerr] eqn:Eopen.
  match type of Hrun with
  | context [os_Create _ _ ?x] => set (w1 := x) in *
  end.
  assert (sbl w1 = sbl w /\ tries w1 = tries w /\ disk w1 = disk w)
    as (Hs1 & Ht1 & Hd1).
  { subst w1. destruct oerr as [e |]; [destruct (negb (IsNotExist e)) |]; done. }
  clearbody w1. unfold os_Create in Hrun.
  destruct (create_error env tmp) eqn:Ecreate.
  { (* the temporary file cannot be created *)
    injection Hrun as <- <-. left. split; [eauto |].
    split; [rewrite Hs1; by split | by rewrite Ht1 | intros; by rewrite Hd1]. }
  set (w2 := set_disk (<[tmp:=[]]> (disk w1)) w1) in *.
  assert (disk w2 !! (FileName (sbl w2) +:+ ".tmp") = Some []) as Hd2.
  { subst w2. cbn. rewrite Hs1. fold name. fold tmp. by rewrite lookup_insert_eq. }
  destruct (load_merge env fuel f newChunks w2) as [r | |] eqn:Emerge;
    cbn in Hrun; try discriminate.
  destruct (load_merge_spec env fuel f newChunks w2 r Hd2 Emerge)
    as (l1 & l2 & l3 & w3 & Hf1 & Hf2 & Hf3 & HL & Htr & Hdk & Hr).
  assert (FileName (sbl w2) = name) as Hn2 by (subst w2; cbn; by rewrite Hs1).
  assert (DeleteChunks (sbl w2) = DeleteChunks (sbl w)) as Hdc2
    by (subst w2; cbn; by rewrite Hs1).
  assert (tries w2 = tries w) as Ht2 by (subst w2; cbn; by rewrite Ht1).
  assert (forall p, p <> tmp -> disk w2 !! p = disk w !! p) as Hdisk2.
  { intros p Hp. subst w2. cbn. rewrite lookup_insert_ne by (by apply not_eq_sym).
    by rewrite Hd1. }
  assert (sbl w2 = sbl w) as Hs2 by (subst w2; cbn; exact Hs1).
  rewrite Hn2 in Hdk, Hr. fold tmp in Hdk, Hr. rewrite Hdc2 in Hr.
  rewrite Ht2 in Hf1, Hf2, Hf3, Htr. rewrite Hs2 in HL.
  clearbody w2.
  destruct r as [[e w3'] | [v w3']].
  - (* an early return from one of the loops *)
    destruct Hr as (-> & He). injection Hrun as <- <-. left.
    split; [exact He |].
    destruct (close_tmp_file_spec env name w3) as (A & B & C & _). fold tmp in C.
    split.
    + rewrite A. exact HL.
    + intros l Hl. rewrite B. by apply Htr.
    + fold name. fold tmp. intros p Hp. rewrite C by exact Hp.
      rewrite Hdk by exact Hp. by apply Hdisk2.
  - (* both loops ran to their end *)
    destruct Hr as (-> & cs & Hcs & Hall & Hdisk & HT & Ha & Hs).
    destruct (load_commit env f v w3) as [err4 w4] eqn:Ecommit.
    injection Hrun as <- <-. right. exists cs. split; [exact Hcs |].
    set (kept := survivors_existing (DeleteChunks (sbl w)) cs
                 ++ survivors_new (DeleteChunks (sbl w)) newChunks) in *.
    assert (FileName (sbl w3) = name) as Hn3 by (by rewrite (sl_FileName _ _ HL)).
    assert (forall stream, f = Some stream -> is_Some (disk w3 !! FileName (sbl w3)))
      as Hlog.
    { intros stream ->. rewrite Hn3, Hdk, Hdisk2 by (by apply not_eq_sym).
      eapply os_Open_exists. rewrite Eopen. reflexivity. }
    pose proof (load_commit_spec env f v w3 err4 w4 l1 l2 l3 _ (GobChunk <$> kept)
                  HT ltac:(by rewrite Hn3) Hlog Ecommit)
      as (Q1 & Q2 & Q3 & Q4 & Q5 & Q6 & Q7 & Qo).
    rewrite Hn3 in Q5, Qo. fold tmp in Qo.
    destruct (close_tmp_file_spec env name w4) as (A & B & C & D). fold tmp in C, D.
    destruct HT as [_ _ _ _ _ _ C1 C2 C3].
    split.
    + exact Ecreate.
    + exact Hall.
    + split; unfold contents; rewrite A, B, Q4; [rewrite Q1 | rewrite Q2 | rewrite Q3];
        cbn; assumption.
    + intros l Hl. rewrite B, Q4. by apply Htr.
    + by rewrite A, Q5.
    + by rewrite A, Q6, (sl_Name _ _ HL).
    + by rewrite A, Q7, (sl_DataRedirects _ _ HL).
    + fold name. fold tmp. destruct err4 as [e |].
      * destruct Qo as (R1 & R2 & R3). rewrite A.
        split; [by rewrite R1, (sl_ChunkRanges _ _ HL) |].
        split; [by rewrite R2, (sl_DeleteChunks _ _ HL) | exact R3].
      * destruct Qo as (R1 & R2 & R3 & R4 & R5 & R6 & R7).
        rewrite (D R2), A.
        split; [exact R1 |]. split; [exact R2 |].
        split; [intros p Hp1 Hp2; rewrite R3 by assumption;
                rewrite Hdk by assumption; by apply Hdisk2 |].
        split; [| split; [assumption | split; [assumption |]]].
        -- exists (addChunkIndexes v), (subChunkIndexes v). auto.
        -- rewrite Eopen. exact R7.
Qed.

(* ===================================================================== *)
(** ** When [load] returns *)
(* ===================================================================== *)

Section Totality.
Variable env : Faults.
Variable fuel : nat.

Lemma load_existing_total tmp l1 l2 l3 dc (cs : list ChunkData) :
  forall v w T out,
    DeleteChunks (sbl w) = dc ->
    tmp_tables l1 l2 l3 T w ->
    disk w !! tmp = Some out ->
    Forall (kept_ok fuel) (survivors_existing dc cs) ->
    exists r, load_existing env fuel tmp (GobChunk <$> cs) v w = Ret r.
Proof.
  induction cs as [| c cs IH]; intros v w T out Hdc HT Hd Hall.
  - eexists. reflexivity.
  - cbn [fmap list_fmap load_existing]. unfold marked_deleted. rewrite Hdc.
    unfold survivors_existing in Hall.
    destruct (deleted dc (Some c)) eqn:Hdel.
    + rewrite filter_cons_False in Hall by (by rewrite Hdel).
      eapply IH; eassumption.
    + rewrite filter_cons_True in Hall by done.
      apply Forall_cons in Hall as ((Hrec & Hfuel) & Hall).
      destruct (tally_spec c v) as (r & Er & _). rewrite Er, bind_Ret.
      assert (exists v1 w1,
                match r with
                | Some v'0 => (v'0, w)
                | None => (v, Logger Warn "Chunk not decoded properly" [] w)
                end = (v1, w1)
                /\ tmp_tables l1 l2 l3 T w1 /\ disk w1 !! tmp = Some out
                /\ DeleteChunks (sbl w1) = dc)
        as (v1 & w1 & -> & HT1 & Hd1 & Hdc1).
      { destruct r as [v1 |]; [exists v1, w | eexists v, _];
          (split; [reflexivity |]); auto using Logger_tmp_tables. }
      destruct (gob_Encode env tmp (Some c) w1) as [[e |] w2] eqn:Eenc;
        [eexists; reflexivity |].
      pose proof (gob_Encode_ok _ _ _ _ _ _ Hd1 Eenc) as Ew2.
      assert (tmp_tables l1 l2 l3 T w2) as HT2
        by (subst w2; destruct HT1; by split).
      destruct (updateLookupMap_total l1 l2 l3 T fuel c w2 HT2 Hrec Hfuel)
        as (w3 & Eup).
      rewrite Eup, bind_Ret.
      destruct (keep_step _ _ _ _ _ _ _ _ _ _ _ _ HT1 Hd1 Eenc Eup)
        as (_ & _ & HT3 & F3 & Hd3).
      eapply IH; [| exact HT3 | exact Hd3 | exact Hall].
      by rewrite (mf_sbl _ _ _ _ _ _ F3).
Qed.

(** With nothing new to add, [load] returns as soon as every surviving
    record of the old log has a recognised prefix type and the fuel
    suffices for its entries. *)
Lemma load_returns_no_delta (w : World) (cs : list ChunkData) :
  old_chunks (fst (os_Open env (FileName (sbl w)) w)) cs ->
  Forall (kept_ok fuel) (survivors_existing (DeleteChunks (sbl w)) cs) ->
  exists err w', load env fuel [] w = Ret (err, w').
Proof.
  intros Hcs Hall. unfold load.
  set (name := FileName (sbl w)) in *.
  set (tmp := name +:+ ".tmp") in *.
  cbn [sbl Logger FileName]. fold name. fold tmp.
  change (os_Open env name (Logger Info "Reloading %s" [AStr (Name (sbl w))] w))
    with (os_Open env name w).
  destruct (os_Open env name w) as [f oerr] eqn:Eopen. cbn [fst] in Hcs.
  match goal with
  | |- context [os_Create _ _ ?x] => set (w1 := x) in *
  end.
  assert (sbl w1 = sbl w /\ tries w1 = tries w /\ disk w1 = disk w)
    as (Hs1 & Ht1 & Hd1).
  { subst w1. destruct oerr as [e |]; [destruct (negb (IsNotExist e)) |]; done. }
  clearbody w1. unfold os_Create.
  destruct (create_error env tmp); [eexists _, _; reflexivity |].
  set (w2 := set_disk (<[tmp:=[]]> (disk w1)) w1) in *.
  assert (exists r, load_merge env fuel f [] w2 = Ret r) as (r & ->).
  { unfold load_merge.
    destruct (reset_tmp_spec w2)
      as (l1 & l2 & l3 & _ & _ & _ & HT0 & HL0 & _ & Hd0).
    assert (FileName (sbl w2) = name) as -> by (subst w2; cbn; by rewrite Hs1).
    fold tmp.
    match goal with
    | |- context [load_old _ _ _ _ _ ?x] => set (w0 := x) in *
    end.
    apply (Logger_tmp_tables _ _ _ _ Info "Load existing data from files" [])
      in HT0. fold w0 in HT0.
    assert (disk w0 !! tmp = Some []) as Hdt.
    { assert (disk w0 = disk w2) as -> by (subst w0; exact Hd0).
      subst w2. cbn. by rewrite lookup_insert_eq. }
    assert (DeleteChunks (sbl w0) = DeleteChunks (sbl w)) as Hdc0.
    { assert (DeleteChunks (sbl w0) = DeleteChunks (sbl w2)) as ->
        by (subst w0; exact (sl_DeleteChunks _ _ HL0)).
      subst w2. cbn. by rewrite Hs1. }
    clearbody w0. unfold load_old. destruct f as [stream |].
    - cbn in Hcs. subst stream.
      destruct (load_existing_total tmp l1 l2 l3 _ cs
                  (mkLocals ∅ ∅ 0 0 0 0 0 0) w0 _ _ Hdc0 HT0 Hdt Hall)
        as ([[ex v1] w3] & ->).
      rewrite bind_Ret.
      destruct ex as [e | e]; [destruct (is_EOF e) |]; rewrite bind_Ret;
        eexists; reflexivity.
    - rewrite bind_Ret. eexists. reflexivity. }
  rewrite bind_Ret.
  destruct r as [[e w3] | [v w3]]; [eexists _, _; reflexivity |].
  destruct (load_commit env f v w3) as [e w4]. eexists _, _. reflexivity.
Qed.
End Totality.

(* ===================================================================== *)
(** ** The entry loop of [updateLookupMap]: termination and extent *)
(* ===================================================================== *)

Lemma load_existing_diverges env fuel tmp c rest v w out :
  ~ recognised_prefix c ->
  marked_deleted w (Some c) = false ->
  disk w !! tmp = Some out ->
  encode_error env (length out) = false ->
  load_existing env fuel tmp (GobChunk c :: rest) v w = OutOfFuel.
Proof.
  intros Hrec Hdel Hd Henc. cbn [load_existing]. rewrite Hdel.
  destruct (tally_spec c v) as (r & -> & _). rewrite bind_Ret.
  assert (forall v1 w1, disk w1 !! tmp = Some out ->
            match gob_Encode env tmp (Some c) w1 with
            | (Some err, w2) => Ret (Returned err, v1, w2)
            | (None, w2) =>
                updateLookupMap fuel (Some c) w2
                ≫= (fun w3 => load_existing env fuel tmp rest
                       (set_addedChunkCount (addedChunkCount v1 + 1) v1) w3)
            end = OutOfFuel) as Hstep.
  { intros v1 w1 Hd1. unfold gob_Encode. rewrite Hd1.
    change (default [] (Some out)) with out.
    rewrite Henc. cbn [updateLookupMap].
    rewrite (unrecognised_width c Hrec), entry_loop_zero. reflexivity. }
  destruct r as [v1 |]; apply Hstep; assumption.
Qed.

Lemma load_unrecognised_diverges env fuel newChunks c rest w :
  ~ recognised_prefix c ->
  open_error env (FileName (sbl w)) = false ->
  create_error env (FileName (sbl w) +:+ ".tmp") = false ->
  encode_error env 0 = false ->
  disk w !! FileName (sbl w) = Some (GobChunk c :: rest) ->
  marked_deleted w (Some c) = false ->
  load env fuel newChunks w = OutOfFuel.
Proof.
  intros Hrec Hopen Hcreate Henc Hlog Hdel.
  unfold load, os_Open, os_Create. cbn [sbl disk Logger FileName].
  rewrite Hopen, Hlog, Hcreate.
  unfold load_merge. cbn [sbl set_disk FileName].
  match goal with
  | |- context [load_old _ _ _ _ _ ?x] => set (w0 := x)
  end.
  destruct (reset_tmp_spec
              (set_disk (<[FileName (sbl w) +:+ ".tmp":=[]]> (disk w)) w))
    as (l1 & l2 & l3 & _ & _ & _ & _ & HL0 & _ & Hd0).
  assert (marked_deleted w0 (Some c) = false) as Hdel0.
  { unfold marked_deleted.
    assert (DeleteChunks (sbl w0) = DeleteChunks (sbl w)) as ->
      by (subst w0; exact (sl_DeleteChunks _ _ HL0)).
    exact Hdel. }
  assert (disk w0 !! (FileName (sbl w) +:+ ".tmp") = Some []) as Hdt.
  { assert (disk w0 = <[FileName (sbl w) +:+ ".tmp":=[]]> (disk w)) as ->
      by (subst w0; exact Hd0).
    by rewrite lookup_insert_eq. }
  clearbody w0. unfold load_old.
  rewrite (load_existing_diverges env fuel _ c rest _ w0 [] Hrec Hdel0 Hdt Henc).
  reflexivity.
Qed.

(** C9. [updateLookupMap] terminates on every chunk whose prefix type is
    [PREFIX_4B] or [PREFIX_32B] (one unit of fuel more than the number of
    entries is enough).  On a chunk with any other prefix type the entry width
    stays 0 and the call never returns, whatever the fuel; and the loop of
    [load] over the existing log does hand such a chunk to [updateLookupMap],
    so that [load] itself does not return. *)
Theorem updateLookupMap_termination (c : ChunkData) (w : World) :
  (recognised_prefix c ->
   forall fuel, (entry_count (entry_width c) (Hashes c) < fuel)%nat ->
                updateLookupMap fuel (Some c) w <> OutOfFuel)
  /\ (~ recognised_prefix c ->
      entry_width c = 0
      /\ (forall fuel, updateLookupMap fuel (Some c) w = OutOfFuel)
      /\ (forall env fuel newChunks rest,
            open_error env (FileName (sbl w)) = false ->
            create_error env (FileName (sbl w) +:+ ".tmp") = false ->
            encode_error env 0 = false ->
            disk w !! FileName (sbl w) = Some (GobChunk c :: rest) ->
            marked_deleted w (Some c) = false ->
            load env fuel newChunks w = OutOfFuel)).
Proof.
  split.
  - intros Hrec fuel Hfuel. cbn [updateLookupMap].
    assert (0 < entry_width c) as Hpos
      by (destruct (recognised_width c Hrec); lia).
    change 0 with (Z.of_nat 0 * entry_width c) at 1.
    apply entry_loop_fuel; [assumption | lia | lia].
  - intros Hrec. split; [by apply unrecognised_width |]. split.
    + intros fuel. cbn [updateLookupMap].
      rewrite (unrecognised_width c Hrec). apply entry_loop_zero.
    + intros env fuel newChunks rest. by apply load_unrecognised_diverges.
Qed.

Lemma updateLookupMap_termination_witness :
  updateLookupMap 3 (Some Sample.add1) Sample.updating <> OutOfFuel
  /\ updateLookupMap 1000 (Some Sample.odd_prefix) Sample.updating = OutOfFuel
  /\ load no_faults 1000 []
       (Sample.with_log [GobChunk Sample.odd_prefix] Sample.world0) = OutOfFuel.
Proof.
  pose proof (updateLookupMap_termination Sample.add1 Sample.updating) as [H1 _].
  pose proof (updateLookupMap_termination Sample.odd_prefix Sample.updating)
    as [_ H2].
  pose proof (updateLookupMap_termination Sample.odd_prefix
                (Sample.with_log [GobChunk Sample.odd_prefix] Sample.world0))
    as [_ H3].
  assert (~ recognised_prefix Sample.odd_prefix) as Hodd
    by (intros [H | H]; vm_compute in H; discriminate).
  destruct (H2 Hodd) as (_ & H2' & _). destruct (H3 Hodd) as (_ & _ & H3').
  split; [| split].
  - apply H1; [left; reflexivity | vm_compute; lia].
  - apply H2'.
  - apply (H3' no_faults 1000%nat [] []); vm_compute; reflexivity.
Defined.

Lemma entries_lookup (width : Z) (hashes : list byte) (k : nat) (e : list byte) :
  0 < width ->
  entries width hashes !! k = Some e ->
  (k < entry_count width hashes)%nat /\ e = nth_entry width hashes k.
Proof.
  intros Hw H. unfold entries in H.
  apply list_lookup_fmap_Some in H as (j & -> & Hj).
  apply lookup_seq in Hj as [-> Hlt]. split; [exact Hlt | reflexivity].
Qed.

Lemma nth_entry_length (width : Z) (hashes : list byte) (k : nat) :
  0 < width ->
  (k < entry_count width hashes)%nat ->
  Z.of_nat (length (nth_entry width hashes k)) = width.
Proof.
  intros Hw Hk. apply (entry_fits hashes width k Hw) in Hk.
  unfold nth_entry. rewrite length_take, length_drop. nia.
Qed.




(* ===================================================================== *)
(** ** What a merge keeps *)
(* ===================================================================== *)

Lemma deleted_same_key dc (c c' : ChunkData) :
  ChunkType c' = ChunkType c ->
  cast_ChunkNum (ChunkNumber c') = cast_ChunkNum (ChunkNumber c) ->
  deleted dc (Some c') = deleted dc (Some c).
Proof.
  unfold deleted, GetChunkType, GetChunkNumber. intros -> ->. reflexivity.
Qed.

Lemma survivors_not_deleted dc cs newChunks (c : ChunkData) :
  c ∈ survivors_existing dc cs ++ survivors_new dc newChunks ->
  deleted dc (Some c) = false.
Proof.
  intros H. apply elem_of_app in H as [H | H].
  - unfold survivors_existing in H. by apply list_elem_of_filter in H as [H _].
  - unfold survivors_new in H. apply list_elem_of_omap in H as (chunk & _ & H).
    destruct chunk as [c0 |]; [| discriminate].
    destruct (deleted dc (Some c0)) eqn:E; cbn in H; [discriminate |].
    destruct (in_bucket c0); [| discriminate]. by injection H as <-.
Qed.

Lemma GobChunk_fmap_inj (cs cs' : list ChunkData) :
  GobChunk <$> cs = GobChunk <$> cs' -> cs = cs'.
Proof.
  revert cs'. induction cs as [| c cs IH]; intros [| c' cs'] H;
    try discriminate; [reflexivity |].
  injection H as -> H. f_equal. by apply IH.
Qed.

(** C3. Let [c] be a record whose (type, number) is in [DeleteChunks] when
    [load] is called.  Whatever [load] returns, there is a list [kept] of the
    records the merge retained such that [c] is not among them and no retained
    record of [c]'s type carries [c]'s number.  After a successful merge
    [kept] is exactly the new persisted log, the kept index sets summarised in
    [ChunkRanges] are those of [kept], and the three containers hold what the
    entries of [kept], and of no other record, produce.  After a failed call
    the live containers are either untouched or, again, built from [kept]
    alone. *)
Theorem deletion_exclusivity env fuel newChunks w err w' (c : ChunkData) :
  load env fuel newChunks w = Ret (err, w') ->
  marked_deleted w (Some c) = true ->
  exists kept,
    (c ∉ kept)
    /\ ~ has_number (ChunkType c) kept (cast_ChunkNum (ChunkNumber c))
    /\ (err = None ->
        disk w' !! FileName (sbl w) = Some (GobChunk <$> kept)
        /\ summary_of kept (ChunkRanges (sbl w'))
        /\ rebuilt w' kept)
    /\ (is_Some err -> untouched w w' \/ rebuilt w' kept).
Proof.
  intros Hrun Hdel. unfold marked_deleted in Hdel.
  assert (forall cs, let kept := survivors_existing (DeleteChunks (sbl w)) cs
                                 ++ survivors_new (DeleteChunks (sbl w)) newChunks in
            (c ∉ kept)
            /\ ~ has_number (ChunkType c) kept (cast_ChunkNum (ChunkNumber c)))
    as Hout.
  { intros cs kept. split.
    - intros Hin. apply survivors_not_deleted in Hin. congruence.
    - intros (c' & Hin & Ety & Enum). apply survivors_not_deleted in Hin.
      rewrite (deleted_same_key _ c c' Ety Enum) in Hin. congruence. }
  destruct (load_cases env fuel newChunks w err w' Hrun)
    as [(He & Hun) | (cs & _ & Hsw)].
  - exists (survivors_existing (DeleteChunks (sbl w)) []
            ++ survivors_new (DeleteChunks (sbl w)) newChunks).
    destruct (Hout []) as (A & B).
    split; [exact A |]. split; [exact B |].
    split; [| by left]. intros ->. by destruct He.
  - eexists. destruct (Hout cs) as (A & B).
    split; [exact A |]. split; [exact B |].
    pose proof (sw_outcome _ _ _ _ _ _ Hsw) as Ho.
    split.
    + intros ->. destruct Ho as (D1 & _ & _ & D4 & _).
      split; [exact D1 |]. split; [exact D4 | exact (sw_rebuilt _ _ _ _ _ _ Hsw)].
    + intros _. right. exact (sw_rebuilt _ _ _ _ _ _ Hsw).
Qed.

Lemma deletion_exclusivity_witness :
  let w := Sample.with_log [GobChunk Sample.add1; GobChunk Sample.sub_full]
             (Sample.delete_add 1 Sample.world0) in
  let w' := Sample.after (load no_faults 2 [] w) in
  exists kept,
    (Sample.add1 ∉ kept)
    /\ ~ has_number CHUNK_TYPE_ADD kept 1
    /\ (@None error = None ->
        disk w' !! FileName (sbl w) = Some (GobChunk <$> kept)
        /\ summary_of kept (ChunkRanges (sbl w'))
        /\ rebuilt w' kept)
    /\ (is_Some (@None error) -> untouched w w' \/ rebuilt w' kept).
Proof.
  intros w w'.
  apply (deletion_exclusivity no_faults 2 [] w None w' Sample.add1);
    vm_compute; reflexivity.
Defined.

(** X22 ([load], lines 195-206, 251-262 and 299-302).  For the two chunk
    types the summary is exact: after a successful merge
    the new persisted log is some list [kept] of records, and for [T] either
    ADD or SUB, [ChunkRanges[T]] is the range encoding of a set that holds the
    number of every record of type [T] in the log and no other number.  (A
    retained ADD or SUB record always has a recognised prefix type, since
    [load] does not return otherwise.) *)
Theorem chunk_ranges_exact env fuel newChunks w w' :
  load env fuel newChunks w = Ret (None, w') ->
  exists kept,
    disk w' !! FileName (sbl w') = Some (GobChunk <$> kept)
    /\ forall T, T = CHUNK_TYPE_ADD \/ T = CHUNK_TYPE_SUB ->
         exists S : gset Z,
           ChunkRanges (sbl w') !! T = Some (buildChunkRanges S)
           /\ (forall c, c ∈ kept -> ChunkType c = T ->
                         cast_ChunkNum (ChunkNumber c) ∈ S)
           /\ (forall n, n ∈ S ->
                 exists c, c ∈ kept /\ ChunkType c = T
                           /\ cast_ChunkNum (ChunkNumber c) = n).
Proof.
  intros Hrun.
  destruct (load_cases env fuel newChunks w None w' Hrun)
    as [(He & _) | (cs & _ & Hsw)]; [by destruct He |].
  eexists. pose proof (sw_outcome _ _ _ _ _ _ Hsw) as (D1 & _ & _ & D4 & _).
  rewrite (sw_FileName _ _ _ _ _ _ Hsw). split; [exact D1 |].
  destruct D4 as (A & S & -> & HA & HS).
  intros T [-> | ->].
  - exists A. split; [by rewrite lookup_insert_ne, lookup_singleton_eq |].
    split.
    + intros c Hc Ety. apply HA. by exists c.
    + intros n Hn. by apply HA.
  - exists S. split; [by rewrite lookup_insert_eq |].
    split.
    + intros c Hc Ety. apply HS. by exists c.
    + intros n Hn. by apply HS.
Qed.

Lemma chunk_ranges_exact_example :
  let w := Sample.with_log [GobChunk Sample.add1] Sample.world0 in
  let w' := Sample.after (load no_faults 3 [Some Sample.sub_full] w) in
  disk w' !! "f"%string = Some [GobChunk Sample.add1; GobChunk Sample.sub_full]
  /\ ChunkRanges (sbl w') !! CHUNK_TYPE_ADD = Some "1"%string
  /\ ChunkRanges (sbl w') !! CHUNK_TYPE_SUB = Some "2"%string
  /\ exists kept,
       disk w' !! FileName (sbl w') = Some (GobChunk <$> kept)
       /\ forall T, T = CHUNK_TYPE_ADD \/ T = CHUNK_TYPE_SUB ->
            exists S : gset Z,
              ChunkRanges (sbl w') !! T = Some (buildChunkRanges S)
              /\ (forall c, c ∈ kept -> ChunkType c = T ->
                            cast_ChunkNum (ChunkNumber c) ∈ S)
              /\ (forall n, n ∈ S ->
                    exists c, c ∈ kept /\ ChunkType c = T
                              /\ cast_ChunkNum (ChunkNumber c) = n).
Proof.
  intros w w'.
  split; [vm_compute; reflexivity |].
  split; [vm_compute; reflexivity |].
  split; [vm_compute; reflexivity |].
  apply (chunk_ranges_exact no_faults 3 [Some Sample.sub_full] w w').
  vm_compute. reflexivity.
Defined.

(* ===================================================================== *)
(** ** Full hashes: retraction and later re-addition *)
(* ===================================================================== *)

Lemma entry_width_32 (c : ChunkData) :
  PrefixType c = PREFIX_32B -> entry_width c = PREFIX_32B_SZ.
Proof. unfold entry_width. intros ->. reflexivity. Qed.

Lemma entry_width_32_inv (c : ChunkData) :
  entry_width c = PREFIX_32B_SZ -> PrefixType c = PREFIX_32B.
Proof.
  unfold entry_width.
  destruct (Z.eqb_spec (PrefixType c) PREFIX_32B); [done |].
  destruct (Z.eqb_spec (PrefixType c) PREFIX_4B); discriminate.
Qed.

(** The resolved set only grows. *)
Lemma table_entry_requested_mono c hashlen T e (h : string) :
  h ∈ tFullHashRequested T -> h ∈ tFullHashRequested (table_entry c hashlen T e).
Proof.
  unfold table_entry. repeat case_match; cbn; set_solver.
Qed.

Lemma table_chunk_requested_mono T c (h : string) :
  h ∈ tFullHashRequested T -> h ∈ tFullHashRequested (table_chunk T c).
Proof.
  unfold table_chunk. generalize (entries (entry_width c) (Hashes c)).
  intros es. revert T. induction es as [| e es IH]; intros T H; [exact H |].
  cbn [foldl]. apply IH. by apply table_entry_requested_mono.
Qed.

Lemma tables_requested_mono (cs : list ChunkData) T (h : string) :
  h ∈ tFullHashRequested T -> h ∈ tFullHashRequested (foldl table_chunk T cs).
Proof.
  revert T. induction cs as [| c cs IH]; intros T H; [exact H |].
  cbn [foldl]. apply IH. by apply table_chunk_requested_mono.
Qed.

(** The entries of a SUB full-hash record are resolved and are not full
    hashes once the record has been applied. *)
Lemma sub_full_entries c (es : list (list byte)) :
  ChunkType c = CHUNK_TYPE_SUB ->
  forall T (h : string),
    (h ∈ (string_of_list_byte <$> es) \/ h ∈ tFullHashRequested T ->
     h ∈ tFullHashRequested (foldl (table_entry c PREFIX_32B_SZ) T es))
    /\ (h ∈ (string_of_list_byte <$> es) \/ h ∉ tFullHashes T ->
        h ∉ tFullHashes (foldl (table_entry c PREFIX_32B_SZ) T es)).
Proof.
  intros Hsub. induction es as [| e es IH]; intros T h.
  - cbn. split; (intros [H | H]; [by apply elem_of_nil in H | exact H]).
  - cbn [foldl fmap list_fmap].
    set (T1 := table_entry c PREFIX_32B_SZ T e).
    assert (tFullHashRequested T1
            = {[string_of_list_byte e]} ∪ tFullHashRequested T
            /\ tFullHashes T1 = tFullHashes T ∖ {[string_of_list_byte e]})
      as (Hreq & Hfull).
    { subst T1. unfold table_entry. rewrite Hsub. done. }
    destruct (IH T1 h) as (IH1 & IH2). split.
    + intros [H | H]; apply IH1.
      * apply elem_of_cons in H as [-> | H]; [right | by left].
        rewrite Hreq. set_solver.
      * right. rewrite Hreq. set_solver.
    + intros [H | H]; apply IH2.
      * apply elem_of_cons in H as [-> | H]; [right | by left].
        rewrite Hfull. set_solver.
      * right. rewrite Hfull. set_solver.
Qed.

(** Only an ADD full-hash record that lists [h] can make [h] a full hash. *)
Lemma full_hash_stays_out c hashlen (es : list (list byte)) (h : string) :
  (ChunkType c = CHUNK_TYPE_ADD -> hashlen = PREFIX_32B_SZ ->
   h ∉ (string_of_list_byte <$> es)) ->
  forall T, h ∉ tFullHashes T ->
            h ∉ tFullHashes (foldl (table_entry c hashlen) T es).
Proof.
  induction es as [| e es IH]; intros Hnot T H; [exact H |].
  cbn [foldl]. apply IH.
  - intros Ha Hl Hin. apply (Hnot Ha Hl). cbn. by right.
  - unfold table_entry.
    destruct (hashlen =? PREFIX_4B_SZ);
      [repeat case_match; exact H |].
    destruct (Z.eqb_spec hashlen PREFIX_32B_SZ) as [Hl |]; [| exact H].
    destruct (Z.eqb_spec (ChunkType c) CHUNK_TYPE_ADD) as [Ha |].
    + cbn. specialize (Hnot Ha Hl). cbn in Hnot. set_solver.
    + destruct (ChunkType c =? CHUNK_TYPE_SUB); cbn; [set_solver | exact H].
Qed.

(** C4 (as the code has it). Let [c] be a SUB full-hash record that a
    successful merge retained, and [h] one of its 32-byte entries.  After the
    merge [h] is in [FullHashRequested], whether or not it ever was a full
    hash; and [h] is not in [FullHashes] provided no ADD full-hash record that
    comes after [c] in the new log (that is, was processed later) lists
    [h]. *)
Theorem sub_full_effect env fuel newChunks w w'
    (k1 k2 : list ChunkData) (c : ChunkData) (e : list byte) :
  load env fuel newChunks w = Ret (None, w') ->
  disk w' !! FileName (sbl w') = Some (GobChunk <$> (k1 ++ c :: k2)) ->
  ChunkType c = CHUNK_TYPE_SUB ->
  PrefixType c = PREFIX_32B ->
  e ∈ entries PREFIX_32B_SZ (Hashes c) ->
  let h := string_of_list_byte e in
  (exists R, contents w' (FullHashRequested (sbl w')) = Some R /\ h ∈ R)
  /\ ((forall c' e', c' ∈ k2 ->
         ChunkType c' = CHUNK_TYPE_ADD -> PrefixType c' = PREFIX_32B ->
         e' ∈ entries PREFIX_32B_SZ (Hashes c') ->
         string_of_list_byte e' <> h) ->
      exists F, contents w' (FullHashes (sbl w')) = Some F /\ h ∉ F).
Proof.
  intros Hrun Hlog Hsub H32 He h.
  destruct (load_cases env fuel newChunks w None w' Hrun)
    as [(Hn & _) | (cs & _ & Hsw)]; [by destruct Hn |].
  pose proof (sw_outcome _ _ _ _ _ _ Hsw) as (D1 & _).
  rewrite (sw_FileName _ _ _ _ _ _ Hsw), D1 in Hlog.
  injection Hlog as Hkept. apply GobChunk_fmap_inj in Hkept.
  destruct (sw_rebuilt _ _ _ _ _ _ Hsw) as [_ Hfull Hreq].
  rewrite Hkept in Hfull, Hreq. rewrite foldl_app in Hfull, Hreq.
  cbn [foldl] in Hfull, Hreq.
  set (T0 := foldl table_chunk no_tables k1) in *.
  assert (h ∈ (string_of_list_byte <$> entries PREFIX_32B_SZ (Hashes c))) as Hin
    by (apply list_elem_of_fmap; by exists e).
  pose proof (sub_full_entries c (entries PREFIX_32B_SZ (Hashes c)) Hsub T0 h)
    as (Sreq & Sfull).
  assert (table_chunk T0 c
          = foldl (table_entry c PREFIX_32B_SZ) T0
              (entries PREFIX_32B_SZ (Hashes c))) as Echunk
    by (unfold table_chunk; by rewrite (entry_width_32 c H32)).
  split.
  - eexists. split; [exact Hreq |].
    apply tables_requested_mono. rewrite Echunk. apply Sreq. by left.
  - intros Hlater. eexists. split; [exact Hfull |].
    assert (h ∉ tFullHashes (table_chunk T0 c)) as Hout
      by (rewrite Echunk; apply Sfull; by left).
    revert Hlater Hout. generalize (table_chunk T0 c). clear.
    induction k2 as [| c' k2 IH]; intros T Hlater Hout; [exact Hout |].
    cbn [foldl]. apply IH.
    + intros c2 e2 Hc2. apply Hlater. by right.
    + unfold table_chunk. apply full_hash_stays_out; [| exact Hout].
      intros Ha Hl Hin. apply list_elem_of_fmap in Hin as (e' & Eh & He').
      apply (Hlater c' e'); [by left | exact Ha | by apply entry_width_32_inv | | done].
      by rewrite <- Hl.
Qed.

Lemma sub_full_effect_witness :
  let w := Sample.with_log [GobChunk Sample.add_full; GobChunk Sample.sub_full]
             Sample.world0 in
  let w' := Sample.after (load no_faults 2 [] w) in
  let h := string_of_list_byte Sample.hash32 in
  (exists R, contents w' (FullHashRequested (sbl w')) = Some R /\ h ∈ R)
  /\ exists F, contents w' (FullHashes (sbl w')) = Some F /\ h ∉ F.
Proof.
  intros w w' h.
  destruct (sub_full_effect no_faults 2 [] w w' [Sample.add_full] []
              Sample.sub_full Sample.hash32) as (H1 & H2).
  - vm_compute. reflexivity.
  - vm_compute. reflexivity.
  - reflexivity.
  - reflexivity.
  - vm_compute. left.
  - split; [exact H1 |]. apply H2.
    intros c' e' Hc'. by apply elem_of_nil in Hc'.
Defined.

(** C4 as the specification states it fails: a SUB full-hash record in the
    existing log followed by an ADD record for the same hash in the delta
    leaves the hash in [FullHashes] after a successful merge. *)
Lemma sub_full_then_add_counterexample :
  let w := Sample.with_log [GobChunk Sample.sub_full] Sample.world0 in
  let h := string_of_list_byte Sample.hash32 in
  exists w' F,
    load no_faults 2 [Some Sample.add_full] w = Ret (None, w')
    /\ disk w' !! "f"%string
       = Some [GobChunk Sample.sub_full; GobChunk Sample.add_full]
    /\ ChunkType Sample.sub_full = CHUNK_TYPE_SUB
    /\ PrefixType Sample.sub_full = PREFIX_32B
    /\ Sample.hash32 ∈ entries PREFIX_32B_SZ (Hashes Sample.sub_full)
    /\ contents w' (FullHashes (sbl w')) = Some F
    /\ h ∈ F.
Proof.
  intros w h.
  exists (Sample.after (load no_faults 2 [Some Sample.add_full] w)), {[h]}.
  split; [vm_compute; reflexivity |].
  split; [vm_compute; reflexivity |].
  split; [reflexivity |]. split; [reflexivity |].
  split; [vm_compute; left |].
  split; [| by apply elem_of_singleton].
  vm_compute. reflexivity.
Qed.

(* ===================================================================== *)
(** ** Merging nothing into a merged list *)
(* ===================================================================== *)

Lemma deleted_empty dc chunk :
  (forall T nums, dc !! T = Some nums -> nums = ∅) -> deleted dc chunk = false.
Proof.
  intros Hdc. unfold deleted. destruct (dc !! GetChunkType chunk) eqn:E; [| done].
  rewrite (Hdc _ _ E). apply bool_decide_eq_false. set_solver.
Qed.

Lemma survivors_existing_all dc (cs : list ChunkData) :
  (forall T nums, dc !! T = Some nums -> nums = ∅) ->
  survivors_existing dc cs = cs.
Proof.
  intros Hdc. unfold survivors_existing.
  induction cs as [| c cs IH]; [reflexivity |].
  rewrite filter_cons_True by (by apply deleted_empty). by rewrite IH.
Qed.

Lemma summary_of_unique kept r1 r2 :
  summary_of kept r1 -> summary_of kept r2 -> r1 = r2.
Proof.
  intros (A1 & S1 & -> & HA1 & HS1) (A2 & S2 & -> & HA2 & HS2).
  assert (A1 = A2) as ->.
  { apply leibniz_equiv, set_equiv. intros n. by rewrite HA1, HA2. }
  assert (S1 = S2) as ->.
  { apply leibniz_equiv, set_equiv. intros n. by rewrite HS1, HS2. }
  reflexivity.
Qed.

Lemma kept_ok_mono fuel fuel' c :
  (fuel <= fuel')%nat -> kept_ok fuel c -> kept_ok fuel' c.
Proof. intros Hle [H1 H2]. split; [exact H1 | lia]. Qed.

Lemma contents_allocated w p s :
  contents w p = Some s -> exists l, p = Some l /\ l ∈ dom (tries w).
Proof.
  unfold contents. destruct p as [l |]; [| discriminate]. cbn. intros H.
  exists l. split; [reflexivity |]. apply elem_of_dom. eauto.
Qed.

(** C6 (as the code has it).  Take a list as a successful merge left it, with
    a [DeleteChunks] map that marks nothing, and call [load] again with an
    empty delta.  Provided the persisted log can be opened, the second call
    returns (the fuel that served the first merge is enough), and whatever it
    returns, the three containers have the members they had and
    [ChunkRanges] is what it was.  The proviso is needed: a log that cannot
    be opened is taken to be empty. *)
Theorem empty_delta_idempotent env1 env2 fuel fuel2 delta dc w0 w1 :
  load env1 fuel delta w0 = Ret (None, w1) ->
  (forall T nums, dc !! T = Some nums -> nums = ∅) ->
  open_error env2 (FileName (sbl w1)) = false ->
  (fuel <= fuel2)%nat ->
  exists err w3,
    load env2 fuel2 [] (with_DeleteChunks dc w1) = Ret (err, w3)
    /\ contents w3 (Lookup (sbl w3)) = contents w1 (Lookup (sbl w1))
    /\ contents w3 (FullHashes (sbl w3)) = contents w1 (FullHashes (sbl w1))
    /\ contents w3 (FullHashRequested (sbl w3))
       = contents w1 (FullHashRequested (sbl w1))
    /\ ChunkRanges (sbl w3) = ChunkRanges (sbl w1).
Proof.
  intros Hrun1 Hdc Hopen Hfuel.
  destruct (load_cases env1 fuel delta w0 None w1 Hrun1)
    as [(Hn & _) | (cs1 & _ & Hsw1)]; [by destruct Hn |].
  set (kept := survivors_existing (DeleteChunks (sbl w0)) cs1
               ++ survivors_new (DeleteChunks (sbl w0)) delta) in *.
  pose proof (sw_outcome _ _ _ _ _ _ Hsw1) as (D1 & _ & _ & D4 & _).
  rewrite <- (sw_FileName _ _ _ _ _ _ Hsw1) in D1.
  destruct (sw_rebuilt _ _ _ _ _ _ Hsw1) as [B1 B2 B3].
  set (w2 := with_DeleteChunks dc w1) in *.
  assert (os_Open env2 (FileName (sbl w2)) w2 = (Some (GobChunk <$> kept), None))
    as Eopen.
  { unfold os_Open. subst w2. cbn. by rewrite Hopen, D1. }
  assert (survivors_existing (DeleteChunks (sbl w2)) kept = kept) as Esurv
    by (by apply survivors_existing_all).
  destruct (load_returns_no_delta env2 fuel2 w2 kept) as (err & w3 & Hrun2).
  { rewrite Eopen. reflexivity. }
  { rewrite Esurv. eapply Forall_impl; [exact (sw_fuel _ _ _ _ _ _ Hsw1) |].
    intros c. by apply kept_ok_mono. }
  exists err, w3. split; [exact Hrun2 |].
  destruct (load_cases env2 fuel2 [] w2 err w3 Hrun2)
    as [(_ & [HL Htr _]) | (cs2 & Hcs2 & Hsw2)].
  - (* the second call gave up early *)
    assert (forall p s, contents w1 p = Some s -> contents w3 p = contents w1 p)
      as Hsame.
    { intros p s Hp. destruct (contents_allocated _ _ _ Hp) as (l & -> & Hl).
      unfold contents. cbn. by apply Htr. }
    rewrite (sl_Lookup _ _ HL), (sl_FullHashes _ _ HL),
      (sl_FullHashRequested _ _ HL), (sl_ChunkRanges _ _ HL).
    subst w2. cbn.
    split; [eapply Hsame; exact B1 |]. split; [eapply Hsame; exact B2 |].
    split; [eapply Hsame; exact B3 | reflexivity].
  - (* the second call rebuilt the containers *)
    rewrite Eopen in Hcs2. cbn in Hcs2. apply GobChunk_fmap_inj in Hcs2. subst cs2.
    rewrite Esurv in Hsw2. cbn [survivors_new omap list_omap] in Hsw2.
    rewrite app_nil_r in Hsw2.
    destruct (sw_rebuilt _ _ _ _ _ _ Hsw2) as [C1 C2 C3].
    split; [by rewrite C1, B1 |]. split; [by rewrite C2, B2 |].
    split; [by rewrite C3, B3 |].
    pose proof (sw_outcome _ _ _ _ _ _ Hsw2) as Ho.
    destruct err as [e |].
    + destruct Ho as (R & _). rewrite R. subst w2. reflexivity.
    + destruct Ho as (_ & _ & _ & R & _). eapply summary_of_unique; eassumption.
Qed.

Lemma empty_delta_idempotent_witness :
  let w0 := Sample.with_log [GobChunk Sample.add1] Sample.world0 in
  let w1 := Sample.after (load no_faults 3 [Some Sample.sub_full] w0) in
  exists err w3,
    load no_faults 3 [] (with_DeleteChunks ∅ w1) = Ret (err, w3)
    /\ contents w3 (Lookup (sbl w3)) = contents w1 (Lookup (sbl w1))
    /\ contents w3 (FullHashes (sbl w3)) = contents w1 (FullHashes (sbl w1))
    /\ contents w3 (FullHashRequested (sbl w3))
       = contents w1 (FullHashRequested (sbl w1))
    /\ ChunkRanges (sbl w3) = ChunkRanges (sbl w1).
Proof.
  intros w0 w1.
  apply (empty_delta_idempotent no_faults no_faults 3 3 [Some Sample.sub_full]
           ∅ w0 w1).
  - vm_compute. reflexivity.
  - intros T nums H. rewrite lookup_empty in H. discriminate.
  - reflexivity.
  - lia.
Defined.

(** C6 as the specification states it fails: a list as a successful merge
    left it, its [DeleteChunks] map empty, is merged again with an empty
    delta while the persisted log cannot be opened.  [load] returns nil all
    the same: the log is taken to be empty, the three containers are
    replaced by empty ones, [ChunkRanges] lists nothing and the log is
    replaced by an empty one. *)
Lemma empty_delta_open_failure_counterexample :
  let w0 := Sample.with_log [GobChunk Sample.add1] Sample.world0 in
  let w1 := Sample.after (load no_faults 3 [Some Sample.sub_full] w0) in
  exists w3,
    load no_faults 3 [Some Sample.sub_full] w0 = Ret (None, w1)
    /\ DeleteChunks (sbl w1) = ∅
    /\ disk w1 !! "f"%string
       = Some [GobChunk Sample.add1; GobChunk Sample.sub_full]
    /\ contents w1 (Lookup (sbl w1)) = Some {["abcd"%string; "efgh"%string]}
    /\ contents w1 (FullHashRequested (sbl w1))
       = Some {[string_of_list_byte Sample.hash32]}
    /\ ChunkRanges (sbl w1)
       = <[CHUNK_TYPE_SUB := "2"%string]> {[CHUNK_TYPE_ADD := "1"%string]}
    /\ open_error Sample.open_fails "f" = true
    /\ load Sample.open_fails 3 [] w1 = Ret (None, w3)
    /\ contents w3 (Lookup (sbl w3)) = Some ∅
    /\ contents w3 (FullHashes (sbl w3)) = Some ∅
    /\ contents w3 (FullHashRequested (sbl w3)) = Some ∅
    /\ ChunkRanges (sbl w3)
       = <[CHUNK_TYPE_SUB := ""%string]> {[CHUNK_TYPE_ADD := ""%string]}
    /\ disk w3 !! "f"%string = Some [].
Proof.
  intros w0 w1.
  exists (Sample.after (load Sample.open_fails 3 [] w1)).
  do 12 (split; [vm_compute; reflexivity |]).
  vm_compute. reflexivity.
Qed.

(* ===================================================================== *)
(** ** Nothing to merge *)
(* ===================================================================== *)

Lemma load_empty_returns env fuel w :
  disk w !! FileName (sbl w) = None ->
  create_error env (FileName (sbl w) +:+ ".tmp") = false ->
  rename_error env (FileName (sbl w) +:+ ".tmp") = false ->
  exists w', load env fuel [] w = Ret (None, w').
Proof.
  intros Hlog Hcreate Hrename.
  unfold load, os_Open, os_Create. cbn [sbl disk Logger FileName].
  rewrite Hlog.
  assert (forall w1, sbl w1 = sbl w -> disk w1 = disk w ->
            exists w',
              (load_merge env fuel None []
                 (set_disk (<[FileName (sbl w) +:+ ".tmp":=[]]> (disk w1)) w1)
               ≫= (fun r =>
                     let '(err, w0) :=
                       match r with
                       | inl out => out
                       | inr (v, w0) => load_commit env None v w0
                       end in
                     Ret (err, close_tmp_file env (FileName (sbl w)) w0)))
              = Ret (None, w')) as Hgo.
  { intros w1 Hs1 Hd1. unfold load_merge, load_old, load_new.
    rewrite !bind_Ret. unfold load_commit, os_Rename.
    cbn [sbl disk Logger set_sbl set_disk FileName].
    assert (forall x, FileName (sbl (reset_tmp x)) = FileName (sbl x)) as Hn
      by (intros x; by destruct (reset_tmp_spec x)
                         as (? & ? & ? & _ & _ & _ & _ & [] & _)).
    assert (forall x, disk (reset_tmp x) = disk x) as Hd
      by (intros x; by destruct (reset_tmp_spec x)
                         as (? & ? & ? & _ & _ & _ & _ & _ & _ & ?)).
    rewrite Hn, Hd. cbn [sbl disk set_disk]. rewrite Hs1.
    rewrite lookup_insert_eq, Hrename. eexists. reflexivity. }
  destruct (open_error env (FileName (sbl w))); cbn [negb IsNotExist];
    rewrite Hcreate; apply Hgo; reflexivity.
Qed.

Lemma buildChunkRanges_empty : buildChunkRanges ∅ = ""%string.
Proof. vm_compute. reflexivity. Qed.

(** C7 (as the code has it). With no pending delta sources
    [loadDataFromRedirectLists] does nothing but log: it returns nil and
    leaves the list, the tries and the disk as they were, whether or not a
    persisted log exists.  [load] itself, handed an empty delta when no
    persisted log exists and no storage failure occurs, is not a no-op: it
    returns nil having created an empty persisted log, installed three empty
    containers, set both chunk ranges to the empty string and cleared
    [DeleteChunks]. *)
Theorem no_pending_updates
    (request : string -> Response + error)
    (ReadChunk : list byte -> Z -> (option ChunkData * Z) + error)
    env fuel w :
  (DataRedirects (sbl w) = [] ->
   exists w',
     loadDataFromRedirectLists request ReadChunk env fuel w = Ret (None, w')
     /\ sbl w' = sbl w /\ tries w' = tries w /\ disk w' = disk w)
  /\ (disk w !! FileName (sbl w) = None ->
      create_error env (FileName (sbl w) +:+ ".tmp") = false ->
      rename_error env (FileName (sbl w) +:+ ".tmp") = false ->
      exists w',
        load env fuel [] w = Ret (None, w')
        /\ disk w' !! FileName (sbl w) = Some []
        /\ contents w' (Lookup (sbl w')) = Some ∅
        /\ contents w' (FullHashes (sbl w')) = Some ∅
        /\ contents w' (FullHashRequested (sbl w')) = Some ∅
        /\ ChunkRanges (sbl w')
           = <[CHUNK_TYPE_SUB := ""%string]> {[CHUNK_TYPE_ADD := ""%string]}
        /\ DeleteChunks (sbl w') = ∅).
Proof.
  split.
  - intros Hnone. unfold loadDataFromRedirectLists. rewrite Hnone. cbn.
    eexists. split; [reflexivity |]. done.
  - intros Hlog Hcreate Hrename.
    destruct (load_empty_returns env fuel w Hlog Hcreate Hrename) as (w' & Hrun).
    exists w'. split; [exact Hrun |].
    destruct (load_cases env fuel [] w None w' Hrun)
      as [(Hn & _) | (cs & Hcs & Hsw)]; [by destruct Hn |].
    assert (cs = []) as ->.
    { unfold os_Open in Hcs. rewrite Hlog in Hcs.
      by destruct (open_error env (FileName (sbl w))). }
    cbn [survivors_existing survivors_new filter list_filter omap list_omap app]
      in Hsw.
    destruct (sw_rebuilt _ _ _ _ _ _ Hsw) as [B1 B2 B3].
    pose proof (sw_outcome _ _ _ _ _ _ Hsw) as (D1 & _ & _ & D4 & D5 & _).
    split; [exact D1 |]. split; [exact B1 |]. split; [exact B2 |].
    split; [exact B3 |]. split; [| exact D5].
    destruct D4 as (A & S & -> & HA & HS).
    assert (A = ∅) as ->.
    { apply leibniz_equiv, set_equiv. intros n. rewrite HA. split.
      - intros H. by apply has_number_nil in H.
      - intros H. by apply not_elem_of_empty in H. }
    assert (S = ∅) as ->.
    { apply leibniz_equiv, set_equiv. intros n. rewrite HS. split.
      - intros H. by apply has_number_nil in H.
      - intros H. by apply not_elem_of_empty in H. }
    by rewrite buildChunkRanges_empty.
Qed.

Lemma no_pending_updates_witness :
  (exists w',
     loadDataFromRedirectLists Sample.no_network Sample.no_decoder no_faults 0
       (Sample.serving []) = Ret (None, w')
     /\ sbl w' = sbl (Sample.serving []) /\ tries w' = tries (Sample.serving [])
     /\ disk w' = disk (Sample.serving []))
  /\ exists w',
       load no_faults 0 [] Sample.world0 = Ret (None, w')
       /\ disk w' !! "f"%string = Some []
       /\ contents w' (Lookup (sbl w')) = Some ∅
       /\ contents w' (FullHashes (sbl w')) = Some ∅
       /\ contents w' (FullHashRequested (sbl w')) = Some ∅
       /\ ChunkRanges (sbl w')
          = <[CHUNK_TYPE_SUB := ""%string]> {[CHUNK_TYPE_ADD := ""%string]}
       /\ DeleteChunks (sbl w') = ∅.
Proof.
  split.
  - apply (no_pending_updates Sample.no_network Sample.no_decoder no_faults 0
             (Sample.serving [])). reflexivity.
  - apply (no_pending_updates Sample.no_network Sample.no_decoder no_faults 0
             Sample.world0); vm_compute; reflexivity.
Defined.

(** C7 as the specification states it fails for [load]: with an empty delta
    and no persisted log the call creates the log file and rewrites
    [DeleteChunks] and [ChunkRanges]. *)
Lemma load_empty_no_log_counterexample :
  exists w',
    disk Sample.world0 !! FileName (sbl Sample.world0) = None
    /\ load no_faults 0 [] Sample.world0 = Ret (None, w')
    /\ disk w' !! FileName (sbl Sample.world0) = Some []
    /\ DeleteChunks (sbl Sample.world0) !! CHUNK_TYPE_ADD = Some ∅
    /\ DeleteChunks (sbl w') !! CHUNK_TYPE_ADD = None
    /\ ChunkRanges (sbl Sample.world0) !! CHUNK_TYPE_ADD = None
    /\ ChunkRanges (sbl w') !! CHUNK_TYPE_ADD = Some ""%string.
Proof.
  exists (Sample.after (load no_faults 0 [] Sample.world0)).
  do 6 (split; [vm_compute; reflexivity |]). vm_compute. reflexivity.
Qed.

(* ===================================================================== *)
(** ** Storage failures *)
(* ===================================================================== *)

(** A call that fails with anything but the error of [os.Remove] or
    [os.Rename] has left the list, the tries a reader can reach and every
    file but the temporary one as they were. *)
Lemma failure_before_swap_untouched env fuel newChunks w e w' :
  load env fuel newChunks w = Ret (Some e, w') ->
  e <> ErrRemove -> e <> ErrRename ->
  untouched w w'.
Proof.
  intros Hrun H1 H2.
  destruct (load_cases env fuel newChunks w (Some e) w' Hrun)
    as [(_ & Hun) | (cs & _ & Hsw)]; [exact Hun |].
  pose proof (sw_outcome _ _ _ _ _ _ Hsw) as (_ & _ & [-> | ->]); contradiction.
Qed.

(** C8 (as the code has it). A failure to create the temporary file aborts
    [load]: the error is returned and the list, the tries and the disk are as
    before.  A failure to remove the old log or to rename the temporary file
    is never swallowed: a call that returns nil has met neither.  A failure to
    open the persisted log is not an abort: the call carries on with no old
    records at all, so that on success the persisted log is replaced by the
    surviving records of the delta alone and the containers are built from
    them alone. *)
Theorem storage_failures env fuel newChunks w :
  (create_error env (FileName (sbl w) +:+ ".tmp") = true ->
   exists w',
     load env fuel newChunks w = Ret (Some (ErrOpeningFile ErrCreate), w')
     /\ sbl w' = sbl w /\ tries w' = tries w /\ disk w' = disk w)
  /\ (forall w',
        load env fuel newChunks w = Ret (None, w') ->
        create_error env (FileName (sbl w) +:+ ".tmp") = false
        /\ rename_error env (FileName (sbl w) +:+ ".tmp") = false
        /\ (open_error env (FileName (sbl w)) = false ->
            is_Some (disk w !! FileName (sbl w)) ->
            remove_error env (FileName (sbl w)) = false))
  /\ (open_error env (FileName (sbl w)) = true ->
      forall err w',
        load env fuel newChunks w = Ret (err, w') ->
        (is_Some err /\ untouched w w')
        \/ (rebuilt w' (survivors_new (DeleteChunks (sbl w)) newChunks)
            /\ (err = None ->
                disk w' !! FileName (sbl w)
                = Some (GobChunk <$> survivors_new (DeleteChunks (sbl w)) newChunks)))).
Proof.
  split; [| split].
  - intros Hcreate. unfold load, os_Create. cbn [sbl Logger FileName].
    destruct (os_Open env (FileName (sbl w)) _) as [f oerr].
    rewrite Hcreate. eexists. split; [reflexivity |].
    destruct oerr as [e |]; [destruct (negb (IsNotExist e)) |]; done.
  - intros w' Hrun.
    destruct (load_cases env fuel newChunks w None w' Hrun)
      as [(Hn & _) | (cs & _ & Hsw)]; [by destruct Hn |].
    pose proof (sw_outcome _ _ _ _ _ _ Hsw) as (_ & _ & _ & _ & _ & R & Rm).
    split; [exact (sw_create _ _ _ _ _ _ Hsw) |]. split; [exact R |].
    intros Hopen (old & Hold). apply Rm.
    unfold os_Open. rewrite Hopen, Hold. cbn. eauto.
  - intros Hopen err w' Hrun.
    destruct (load_cases env fuel newChunks w err w' Hrun)
      as [Hun | (cs & Hcs & Hsw)]; [by left | right].
    unfold os_Open in Hcs. rewrite Hopen in Hcs. cbn in Hcs. subst cs.
    cbn [survivors_existing filter list_filter app] in Hsw.
    split; [exact (sw_rebuilt _ _ _ _ _ _ Hsw) |].
    intros ->. by pose proof (sw_outcome _ _ _ _ _ _ Hsw) as (D1 & _).
Qed.

Lemma storage_failures_witness :
  (exists w',
     load Sample.create_fails 3 [Some Sample.sub_full]
       (Sample.serving [GobChunk Sample.add1])
     = Ret (Some (ErrOpeningFile ErrCreate), w')
     /\ sbl w' = sbl (Sample.serving [GobChunk Sample.add1])
     /\ tries w' = tries (Sample.serving [GobChunk Sample.add1])
     /\ disk w' = disk (Sample.serving [GobChunk Sample.add1]))
  /\ remove_error no_faults "f" = false
  /\ rebuilt
       (Sample.after (load Sample.open_fails 3 [Some Sample.sub_full]
                        (Sample.serving [GobChunk Sample.add1])))
       [Sample.sub_full].
Proof.
  pose proof (storage_failures Sample.create_fails 3 [Some Sample.sub_full]
                (Sample.serving [GobChunk Sample.add1])) as (H1 & _ & _).
  pose proof (storage_failures no_faults 3 [Some Sample.sub_full]
                (Sample.serving [GobChunk Sample.add1])) as (_ & H2 & _).
  pose proof (storage_failures Sample.open_fails 3 [Some Sample.sub_full]
                (Sample.serving [GobChunk Sample.add1])) as (_ & _ & H3).
  split; [apply H1; reflexivity |]. split.
  - apply (H2 (Sample.after (load no_faults 3 [Some Sample.sub_full]
                               (Sample.serving [GobChunk Sample.add1])))).
    + vm_compute. reflexivity.
    + reflexivity.
    + vm_compute. eauto.
  - destruct (H3 eq_refl None
                (Sample.after (load Sample.open_fails 3 [Some Sample.sub_full]
                                 (Sample.serving [GobChunk Sample.add1]))))
      as [(Hn & _) | (Hr & _)].
    + vm_compute. reflexivity.
    + by destruct Hn.
    + exact Hr.
Defined.

(** C8 as the specification states it fails: the persisted log exists, opening
    it fails, and [load] nevertheless returns nil, having warned, thrown the
    old record away and replaced the log by the delta alone. *)
Lemma open_failure_counterexample :
  exists w',
    disk (Sample.serving [GobChunk Sample.add1]) !! "f"%string
    = Some [GobChunk Sample.add1]
    /\ open_error Sample.open_fails "f" = true
    /\ load Sample.open_fails 3 [Some Sample.sub_full]
         (Sample.serving [GobChunk Sample.add1]) = Ret (None, w')
    /\ disk w' !! "f"%string = Some [GobChunk Sample.sub_full]
    /\ contents w' (Lookup (sbl w')) = Some ∅
    /\ mkLog Warn "Error opening data file for reading, assuming empty: %s"
         [AErr ErrOpen] ∈ logged w'.
Proof.
  exists (Sample.after (load Sample.open_fails 3 [Some Sample.sub_full]
                          (Sample.serving [GobChunk Sample.add1]))).
  do 5 (split; [vm_compute; reflexivity |]).
  vm_compute. repeat first [left | right].
Qed.

(* ===================================================================== *)
(** ** Where the code departs from the specification *)
(* ===================================================================== *)

(** C1. The specification asks that a failure of the remove or the rename leave
    the persisted log and the live containers as they were.  The code swaps
    the container pointers (lines 281-284) before it touches the files: when
    the rename fails the old log is already removed and the prefix set a
    reader sees has changed; when the remove fails the log is intact but the
    containers have changed all the same. *)
Theorem remove_rename_failure_after_swap :
  let w := Sample.serving [GobChunk Sample.add1] in
  (exists w',
     load Sample.rename_fails 3 [] w = Ret (Some ErrRename, w')
     /\ disk w !! "f"%string = Some [GobChunk Sample.add1]
     /\ disk w' !! "f"%string = None
     /\ disk w' !! "f.tmp"%string = None
     /\ contents w (Lookup (sbl w)) = Some {["zzzz"%string]}
     /\ contents w' (Lookup (sbl w'))
        = Some {["abcd"%string; "efgh"%string]})
  /\ (exists w',
        load Sample.remove_fails 3 [] w = Ret (Some ErrRemove, w')
        /\ disk w' !! "f"%string = Some [GobChunk Sample.add1]
        /\ contents w (Lookup (sbl w)) = Some {["zzzz"%string]}
        /\ contents w' (Lookup (sbl w'))
           = Some {["abcd"%string; "efgh"%string]}).
Proof.
  intros w. split.
  - exists (Sample.after (load Sample.rename_fails 3 [] w)).
    do 5 (split; [vm_compute; reflexivity |]).
    vm_compute. reflexivity.
  - exists (Sample.after (load Sample.remove_fails 3 [] w)).
    do 3 (split; [vm_compute; reflexivity |]).
    vm_compute. reflexivity.
Qed.

(** C5. The specification asks that the numbers summarised in [ChunkRanges]
    be exactly those of the records retained in the persisted log.  A record
    of an unknown chunk type in the existing log is written to the new log
    (the loop over the existing log lacks the [continue] of line 266) while
    its number enters neither index set: the merge succeeds, the log holds
    record number 8, and both ranges are empty. *)
Theorem retained_record_without_range :
  let w := Sample.serving [GobChunk Sample.odd_type] in
  exists w',
    load no_faults 3 [] w = Ret (None, w')
    /\ disk w' !! "f"%string = Some [GobChunk Sample.odd_type]
    /\ has_number (ChunkType Sample.odd_type) [Sample.odd_type] 8
    /\ ChunkRanges (sbl w')
       = <[CHUNK_TYPE_SUB := ""%string]> {[CHUNK_TYPE_ADD := ""%string]}
    /\ ChunkRanges (sbl w') !! ChunkType Sample.odd_type = None.
Proof.
  intros w. exists (Sample.after (load no_faults 3 [] w)).
  split; [vm_compute; reflexivity |].
  split; [vm_compute; reflexivity |].
  split; [exists Sample.odd_type; split; [left | done] |].
  split; vm_compute; reflexivity.
Qed.

(** C2. The specification asks for the same treatment of a record outside
    the four buckets wherever it comes from.  The loop over the delta skips
    it (line 266, [continue]); the loop over the existing log only warns and
    falls through: a record of an unknown chunk type is copied into the new
    log, and on a record of an unknown prefix type [updateLookupMap] is called
    and never returns, whatever the fuel. *)
Theorem anomalous_record_asymmetry :
  (exists w',
     load no_faults 3 [] (Sample.serving [GobChunk Sample.odd_type])
     = Ret (None, w')
     /\ disk w' !! "f"%string = Some [GobChunk Sample.odd_type]
     /\ mkLog Warn "Chunk not decoded properly" [] ∈ logged w')
  /\ (exists w',
        load no_faults 3 [Some Sample.odd_type] (Sample.serving [])
        = Ret (None, w')
        /\ disk w' !! "f"%string = Some []
        /\ mkLog Warn "Unknow chunk type" [] ∈ logged w')
  /\ (forall fuel,
        load no_faults fuel [] (Sample.serving [GobChunk Sample.odd_prefix])
        = OutOfFuel)
  /\ (exists w',
        load no_faults 3 [Some Sample.odd_prefix] (Sample.serving [])
        = Ret (None, w')
        /\ disk w' !! "f"%string = Some []).
Proof.
  split; [| split; [| split]].
  - exists (Sample.after
              (load no_faults 3 [] (Sample.serving [GobChunk Sample.odd_type]))).
    do 2 (split; [vm_compute; reflexivity |]).
    vm_compute. repeat first [left | right].
  - exists (Sample.after
              (load no_faults 3 [Some Sample.odd_type] (Sample.serving []))).
    do 2 (split; [vm_compute; reflexivity |]).
    vm_compute. repeat first [left | right].
  - intros fuel.
    apply (load_unrecognised_diverges no_faults fuel [] Sample.odd_prefix []).
    + intros [H | H]; vm_compute in H; discriminate.
    + reflexivity.
    + reflexivity.
    + reflexivity.
    + vm_compute. reflexivity.
    + vm_compute. reflexivity.
  - exists (Sample.after
              (load no_faults 3 [Some Sample.odd_prefix] (Sample.serving []))).
    split; vm_compute; reflexivity.
Qed.

(* ===================================================================== *)
(** ** The scenarios of the specification, run on the model *)
(* ===================================================================== *)

Example buildChunkRanges_examples :
  buildChunkRanges ∅ = ""%string
  /\ buildChunkRanges {[5]} = "5"%string
  /\ buildChunkRanges {[1; 2; 3; 5; 7; 8; 9]} = "1-3,5,7-9"%string
  /\ buildChunkRanges {[9; 7; 8; 5; 3; 1; 2]} = "1-3,5,7-9"%string.
Proof. repeat split; vm_compute; reflexivity. Qed.

Example hex_EncodeToString_example :
  hex_EncodeToString (list_byte_of_string "abcJ") = "6162634a"%string.
Proof. vm_compute. reflexivity. Qed.

(** Scenario A: an empty list and one ADD record with two prefixes. *)
Example scenario_A :
  let w' := Sample.after (load no_faults 3 [Some Sample.add1] Sample.world0) in
  load no_faults 3 [Some Sample.add1] Sample.world0 = Ret (None, w')
  /\ contents w' (Lookup (sbl w')) = Some {["abcd"%string; "efgh"%string]}
  /\ disk w' !! "f"%string = Some [GobChunk Sample.add1]
  /\ ChunkRanges (sbl w') !! CHUNK_TYPE_ADD = Some "1"%string
  /\ ChunkRanges (sbl w') !! CHUNK_TYPE_SUB = Some ""%string.
Proof. intros w'. do 4 (split; [vm_compute; reflexivity |]). vm_compute. reflexivity. Qed.

(** Scenario B: the one persisted record is marked for deletion. *)
Example scenario_B :
  let w := Sample.delete_add 1 (Sample.serving [GobChunk Sample.add1]) in
  let w' := Sample.after (load no_faults 3 [] w) in
  load no_faults 3 [] w = Ret (None, w')
  /\ disk w' !! "f"%string = Some []
  /\ contents w' (Lookup (sbl w')) = Some ∅
  /\ ChunkRanges (sbl w') !! CHUNK_TYPE_ADD = Some ""%string.
Proof. intros w w'. do 3 (split; [vm_compute; reflexivity |]). vm_compute. reflexivity. Qed.

(** A pending source whose body is empty yields no chunk at all, and
    [newChunks[0]] is then out of range. *)
Example empty_body_panics :
  loadDataFromRedirectLists Sample.empty_reply Sample.no_decoder no_faults 3
    (set_sbl (fun s =>
       mkList (Name s) (FileName s) ["http://redirect/1"%string]
         (DeleteChunks s) (ChunkRanges s) (Lookup s) (FullHashRequested s)
         (FullHashes s) (tmpLookup s) (tmpFullHashes s) (tmpFullHashRequested s))
       Sample.world0)
  = Panic.
Proof. vm_compute. reflexivity. Qed.

(* ===================================================================== *)
(** ** The steps of [load], for the further properties *)
(* ===================================================================== *)

(** [load] either stops at [os.Create] or is the merge, the commit and the
    deferred removal of the temporary file, in that order. *)
Lemma load_steps env fuel newChunks w err w' :
  load env fuel newChunks w = Ret (err, w') ->
  let name := FileName (sbl w) in
  let tmp := name +:+ ".tmp" in
  let f := fst (os_Open env name w) in
  exists w1,
    sbl w1 = sbl w /\ tries w1 = tries w /\ disk w1 = disk w
    /\ ((create_error env tmp = true
         /\ err = Some (ErrOpeningFile ErrCreate) /\ w' = w1)
        \/ (create_error env tmp = false
            /\ exists r w4,
                 load_merge env fuel f newChunks
                   (set_disk (<[tmp := []]> (disk w1)) w1) = Ret r
                 /\ match r with
                    | inl out => out
                    | inr (v, w3) => load_commit env f v w3
                    end = (err, w4)
                 /\ w' = close_tmp_file env name w4)).
Proof.
  intros Hrun name tmp f. unfold load in Hrun.
  cbn [sbl Logger FileName] in Hrun. fold name in Hrun. fold tmp in Hrun.
  change (os_Open env name (Logger Info "Reloading %s" [AStr (Name (sbl w))] w))
    with (os_Open env name w) in Hrun.
  subst f. destruct (os_Open env name w) as [f oerr] eqn:Eopen. cbn [fst].
  match type of Hrun with
  | context [os_Create _ _ ?x] => set (w1 := x) in *
  end.
  exists w1.
  assert (sbl w1 = sbl w /\ tries w1 = tries w /\ disk w1 = disk w)
    as (Hs1 & Ht1 & Hd1).
  { subst w1. destruct oerr as [e |]; [destruct (negb (IsNotExist e)) |]; done. }
  do 3 (split; [assumption |]).
  clearbody w1. unfold os_Create in Hrun.
  destruct (create_error env tmp) eqn:Ecreate.
  { injection Hrun as <- <-. left. done. }
  right. split; [reflexivity |].
  destruct (load_merge env fuel f newChunks _) as [r | |] eqn:Emerge;
    cbn in Hrun; try discriminate.
  exists r.
  destruct (match r with
            | inl out => out
            | inr (v, w3) => load_commit env f v w3
            end) as [err4 w4] eqn:Eout.
  injection Hrun as <- <-. exists w4. done.
Qed.

(** [updateLookupMap] writes to tries only. *)
Lemma trie_update_fields f p w w' :
  trie_update f p w = Ret w' ->
  sbl w' = sbl w /\ disk w' = disk w /\ logged w' = logged w.
Proof.
  unfold trie_update. destruct p as [l |]; [| discriminate].
  destruct (tries w !! l); [| discriminate]. by intros [= <-].
Qed.

Lemma apply_entry_fields c hashlen hash w w' :
  apply_entry c hashlen hash w = Ret w' -> sbl w' = sbl w /\ disk w' = disk w.
Proof.
  unfold apply_entry, trie_Set, trie_Delete. intros H.
  repeat case_match; try (injection H as <-; done);
    try (apply trie_update_fields in H as (? & ? & _); done).
  destruct (trie_update _ (tmpFullHashes (sbl w)) w) as [w1 | |] eqn:E;
    cbn in H; try discriminate.
  apply trie_update_fields in E as (Ea & Eb & _).
  apply trie_update_fields in H as (Ha & Hb & _).
  split; congruence.
Qed.

Lemma entry_loop_fields (fuel : nat) c hashlen hasheslen :
  forall i w w',
    entry_loop fuel c hashlen hasheslen i w = Ret w' ->
    sbl w' = sbl w /\ disk w' = disk w.
Proof.
  induction fuel as [| fuel IH]; intros i w w' H; [discriminate |].
  cbn [entry_loop] in H.
  destruct (i + hashlen <=? hasheslen); [| by injection H as <-].
  destruct (slice (Hashes c) i (i + hashlen)) as [hash |]; [| discriminate].
  destruct (apply_entry c hashlen hash w) as [w1 | |] eqn:E; cbn in H;
    try discriminate.
  apply apply_entry_fields in E as (Ea & Eb).
  apply IH in H as (Ha & Hb). split; congruence.
Qed.

Lemma updateLookupMap_fields fuel chunk w w' :
  updateLookupMap fuel chunk w = Ret w' -> sbl w' = sbl w /\ disk w' = disk w.
Proof.
  destruct chunk as [c |]; [| discriminate]. apply entry_loop_fields.
Qed.

Lemma gob_Encode_sbl env tmp chunk w e w1 :
  gob_Encode env tmp chunk w = (e, w1) -> sbl w1 = sbl w.
Proof.
  unfold gob_Encode. destruct chunk; [| by intros [= _ <-]].
  destruct (encode_error env _); by intros [= _ <-].
Qed.

(** The counters through the four arms. *)
Lemma tally_counts (c : ChunkData) (v v' : Locals) :
  tally (Some c) v = Ret (Some v') ->
  let n := Z.of_nat (length (Hashes c)) in
  let bucket ty pt size :=
    if (ChunkType c =? ty) && (PrefixType c =? pt) then Z.quot n size else 0 in
  addedChunkCount v' = addedChunkCount v
  /\ deletedChunkCount v' = deletedChunkCount v
  /\ addPrefixCount v' = addPrefixCount v + bucket CHUNK_TYPE_ADD PREFIX_4B PREFIX_4B_SZ
  /\ subPrefixCount v' = subPrefixCount v + bucket CHUNK_TYPE_SUB PREFIX_4B PREFIX_4B_SZ
  /\ addFullHashCount v' = addFullHashCount v + bucket CHUNK_TYPE_ADD PREFIX_32B PREFIX_32B_SZ
  /\ subFullHashCount v' = subFullHashCount v + bucket CHUNK_TYPE_SUB PREFIX_32B PREFIX_32B_SZ.
Proof.
  unfold tally, GetChunkType, GetPrefixType, GetChunkNumber, len_Hashes.
  unfold CHUNK_TYPE_ADD, CHUNK_TYPE_SUB, PREFIX_4B, PREFIX_32B.
  intros H. cbn zeta.
  destruct (Z.eqb_spec (ChunkType c) 0) as [Ea | Na];
    destruct (Z.eqb_spec (ChunkType c) 1) as [Es | Ns];
    destruct (Z.eqb_spec (PrefixType c) 0) as [E4 | N4];
    destruct (Z.eqb_spec (PrefixType c) 1) as [E32 | N32];
    try lia; cbn in H; try discriminate;
    injection H as <-; cbn; repeat split; lia.
Qed.

Lemma entries_in_cons ty pt size c cs :
  entries_in ty pt size (c :: cs)
  = (if (ChunkType c =? ty) && (PrefixType c =? pt)
     then Z.quot (Z.of_nat (length (Hashes c))) size else 0)
    + entries_in ty pt size cs.
Proof. reflexivity. Qed.

(** The loop over the delta, when it runs to its end: no unmarked nil chunk
    was met, and the counters are those of the records kept. *)
Lemma load_new_counts env fuel tmp dc (newChunks : list (option ChunkData)) :
  forall v w v' w',
    DeleteChunks (sbl w) = dc ->
    load_new env fuel tmp newChunks v w = Ret (None, v', w') ->
    Forall (fun chunk => chunk = None -> deleted dc None = true) newChunks
    /\ deletedChunkCount v' = deletedChunkCount v
    /\ addedChunkCount v'
       = addedChunkCount v
         - (Z.of_nat (length newChunks)
            - Z.of_nat (length (survivors_new dc newChunks)))
    /\ addPrefixCount v'
       = addPrefixCount v
         + entries_in CHUNK_TYPE_ADD PREFIX_4B PREFIX_4B_SZ (survivors_new dc newChunks)
    /\ subPrefixCount v'
       = subPrefixCount v
         + entries_in CHUNK_TYPE_SUB PREFIX_4B PREFIX_4B_SZ (survivors_new dc newChunks)
    /\ addFullHashCount v'
       = addFullHashCount v
         + entries_in CHUNK_TYPE_ADD PREFIX_32B PREFIX_32B_SZ (survivors_new dc newChunks)
    /\ subFullHashCount v'
       = subFullHashCount v
         + entries_in CHUNK_TYPE_SUB PREFIX_32B PREFIX_32B_SZ (survivors_new dc newChunks).
Proof.
  induction newChunks as [| chunk rest IH]; intros v w v' w' Hdc Hrun.
  - injection Hrun as <- <-. cbn. split; [constructor |]. repeat split; lia.
  - cbn [load_new] in Hrun. unfold marked_deleted in Hrun. rewrite Hdc in Hrun.
    destruct (deleted dc chunk) eqn:Hdel.
    + assert (survivors_new dc (chunk :: rest) = survivors_new dc rest) as ->.
      { unfold survivors_new. cbn [omap list_omap]. destruct chunk; [| done].
        by rewrite Hdel. }
      destruct (IH _ _ _ _ Hdc Hrun) as (A & B & C & D1 & D2 & D3 & D4).
      split; [constructor; [by intros -> | exact A] |].
      cbn [length] in *. cbn in B, C, D1, D2, D3, D4.
      repeat split; lia.
    + destruct chunk as [c |]; [| discriminate].
      destruct (tally_spec c v) as (r & Er & Hr).
      rewrite Er, bind_Ret in Hrun.
      destruct r as [v1 |].
      * destruct Hr as (Hb & _).
        assert (survivors_new dc (Some c :: rest) = c :: survivors_new dc rest) as ->.
        { unfold survivors_new. cbn [omap list_omap]. by rewrite Hdel, Hb. }
        destruct (gob_Encode env tmp (Some c) w) as [[e |] w2] eqn:Eenc;
          [discriminate |].
        destruct (updateLookupMap fuel (Some c) w2) as [w3 | |] eqn:Eup;
          cbn in Hrun; try discriminate.
        assert (DeleteChunks (sbl w3) = dc) as Hdc3.
        { destruct (updateLookupMap_fields _ _ _ _ Eup) as (-> & _).
          by rewrite (gob_Encode_sbl _ _ _ _ _ _ Eenc). }
        destruct (IH _ _ _ _ Hdc3 Hrun) as (A & B & C & D1 & D2 & D3 & D4).
        destruct (tally_counts c v v1 Er) as (T1 & T2 & T3 & T4 & T5 & T6).
        cbn beta zeta in T3, T4, T5, T6.
        split; [constructor; [discriminate | exact A] |].
        rewrite !entries_in_cons. cbn [length].
        repeat split; lia.
      * destruct Hr as (Hb & _).
        assert (survivors_new dc (Some c :: rest) = survivors_new dc rest) as ->.
        { unfold survivors_new. cbn [omap list_omap].
          by rewrite Hb, andb_false_r. }
        destruct (IH _ (Logger Warn "Unknow chunk type" [] w) _ _ Hdc Hrun)
          as (A & B & C & D1 & D2 & D3 & D4).
        split; [constructor; [discriminate | exact A] |].
        cbn [length] in *. cbn in B, C, D1, D2, D3, D4.
        repeat split; lia.
Qed.

(** A merge that does not return early ends with the loop over the delta,
    started with the counters reset. *)
Lemma load_merge_inr env fuel dec newChunks w v w3 :
  disk w !! (FileName (sbl w) +:+ ".tmp") = Some [] ->
  load_merge env fuel dec newChunks w = Ret (inr (v, w3)) ->
  exists a s w0,
    DeleteChunks (sbl w0) = DeleteChunks (sbl w)
    /\ load_new env fuel (FileName (sbl w) +:+ ".tmp") newChunks
         (mkLocals a s 0 0 0 0 0 (Z.of_nat (length newChunks))) w0
       = Ret (None, v, w3).
Proof.
  intros Hd Hrun. unfold load_merge in Hrun.
  set (tmp := FileName (sbl w) +:+ ".tmp") in *.
  destruct (reset_tmp_spec w)
    as (l1 & l2 & l3 & _ & _ & _ & HT0 & HL0 & _ & Hd0).
  match type of Hrun with
  | context [load_old _ _ _ _ _ ?x] => set (w0 := x) in *
  end.
  apply (Logger_tmp_tables _ _ _ _ Info "Load existing data from files" [])
    in HT0. fold w0 in HT0.
  assert (disk w0 !! tmp = Some []) as Hdt.
  { assert (disk w0 = disk w) as -> by (subst w0; exact Hd0). exact Hd. }
  assert (DeleteChunks (sbl w0) = DeleteChunks (sbl w)) as Hdc0
    by (subst w0; exact (sl_DeleteChunks _ _ HL0)).
  clearbody w0.
  destruct (load_old env fuel tmp dec _ w0) as [r1 | |] eqn:Eold;
    cbn in Hrun; try discriminate.
  pose proof (load_old_spec env fuel tmp l1 l2 l3 dec _ w0 no_tables [] r1 HT0
                Hdt Eold) as Hold.
  destruct r1 as [[e w1] | [v1 w1]]; [discriminate |].
  destruct Hold as (F1 & _).
  match type of Hrun with
  | context [load_new _ _ _ _ ?v ?x] => set (w2 := x) in *; set (v2 := v) in *
  end.
  destruct (load_new env fuel tmp newChunks v2 w2) as [[[e v3] w4] | |] eqn:Enew;
    cbn in Hrun; try discriminate.
  destruct e; [discriminate |]. injection Hrun as <- <-.
  exists (addChunkIndexes v1), (subChunkIndexes v1), w2.
  split; [| exact Enew].
  subst w2. cbn. rewrite (mf_sbl _ _ _ _ _ _ F1). exact Hdc0.
Qed.

(** What the commit appends to the log, where it leaves the temporary
    pointers, and which files it can touch. *)
Lemma load_commit_more env f v w err w' :
  load_commit env f v w = (err, w') ->
  let name := FileName (sbl w) in
  tmpLookup (sbl w') = tmpLookup (sbl w)
  /\ tmpFullHashes (sbl w') = tmpFullHashes (sbl w)
  /\ tmpFullHashRequested (sbl w') = tmpFullHashRequested (sbl w)
  /\ Lookup (sbl w') = tmpLookup (sbl w)
  /\ FullHashes (sbl w') = tmpFullHashes (sbl w)
  /\ FullHashRequested (sbl w') = tmpFullHashRequested (sbl w)
  /\ (forall p, p <> name -> p <> name +:+ ".tmp" -> disk w' !! p = disk w !! p)
  /\ (err = None ->
      logged w'
      = logged w
        ++ [mkLog Info "Replacing FullHashes and Lookup lists" [];
            mkLog Info "Replaced FullHashes and Lookup lists" [];
            update_message (addedChunkCount v) (deletedChunkCount v)
              (addPrefixCount v) (subPrefixCount v)
              (addFullHashCount v) (subFullHashCount v)]).
Proof.
  intros Hrun name.
  unfold load_commit, os_Remove, os_Rename in Hrun.
  assert (forall (d : gmap string (list gobItem)) p x,
            p <> name -> p <> name +:+ ".tmp" ->
            (<[name := x]> (delete (name +:+ ".tmp") d)) !! p = d !! p) as Hins.
  { intros d p x H1 H2. rewrite lookup_insert_ne by (by apply not_eq_sym).
    by rewrite lookup_delete_ne by (by apply not_eq_sym). }
  destruct f as [stream |]; cbn in Hrun; fold name in Hrun.
  - destruct (disk w !! name) eqn:Hold.
    2: { injection Hrun as <- <-. cbn. repeat split; done. }
    destruct (remove_error env name).
    { injection Hrun as <- <-. cbn. repeat split; done. }
    cbn in Hrun.
    destruct (delete name (disk w) !! (name +:+ ".tmp")) eqn:Htmp.
    2: { injection Hrun as <- <-. cbn. repeat split; try done.
         intros p H1 H2. by rewrite lookup_delete_ne by (by apply not_eq_sym). }
    destruct (rename_error env (name +:+ ".tmp")).
    { injection Hrun as <- <-. cbn. repeat split; try done.
      intros p H1 H2. by rewrite lookup_delete_ne by (by apply not_eq_sym). }
    injection Hrun as <- <-. cbn. repeat split; try done.
    + intros p H1 H2. rewrite Hins by assumption.
      by rewrite lookup_delete_ne by (by apply not_eq_sym).
    + intros _. by rewrite <- !app_assoc.
  - destruct (disk w !! (name +:+ ".tmp")) eqn:Htmp.
    2: { injection Hrun as <- <-. cbn. repeat split; done. }
    destruct (rename_error env (name +:+ ".tmp")).
    { injection Hrun as <- <-. cbn. repeat split; done. }
    injection Hrun as <- <-. cbn. repeat split; try done.
    + intros p H1 H2. by rewrite Hins.
    + intros _. by rewrite <- !app_assoc.
Qed.

(* ===================================================================== *)
(** ** The tables, key by key *)
(* ===================================================================== *)

Lemma string_of_list_byte_length (bs : list byte) :
  String.length (string_of_list_byte bs) = length bs.
Proof. induction bs as [| b bs IH]; [reflexivity |]. cbn. f_equal. exact IH. Qed.

Lemma entry_width_4 (c : ChunkData) :
  entry_width c = PREFIX_4B_SZ <-> PrefixType c = PREFIX_4B.
Proof.
  unfold entry_width, PREFIX_4B, PREFIX_32B, PREFIX_4B_SZ, PREFIX_32B_SZ.
  destruct (Z.eqb_spec (PrefixType c) 0) as [E | N];
    destruct (Z.eqb_spec (PrefixType c) 1) as [E' | N']; split; intros; lia.
Qed.

Lemma entry_width_32_iff (c : ChunkData) :
  entry_width c = PREFIX_32B_SZ <-> PrefixType c = PREFIX_32B.
Proof. split; [apply entry_width_32_inv | apply entry_width_32]. Qed.

Section EntryFold.
Variable c : ChunkData.
Variable hashlen : Z.
Variable proj : Tables -> gset string.
Variables A S : Prop.
Hypothesis excl : A -> S -> False.
Hypothesis step : forall T e (h : string),
  h ∈ proj (table_entry c hashlen T e)
  <-> (A /\ h = string_of_list_byte e)
      \/ (h ∈ proj T /\ ~ (S /\ h = string_of_list_byte e)).

Lemma fold_entries_iff (es : list (list byte)) :
  forall T (h : string),
    h ∈ proj (foldl (table_entry c hashlen) T es)
    <-> (A /\ h ∈ (string_of_list_byte <$> es))
        \/ (h ∈ proj T /\ ~ (S /\ h ∈ (string_of_list_byte <$> es))).
Proof.
  induction es as [| e es IH]; intros T h.
  - cbn. split.
    + intros H. right. split; [exact H |]. intros (_ & Hin).
      by apply elem_of_nil in Hin.
    + intros [(_ & Hin) | (H & _)]; [by apply elem_of_nil in Hin | exact H].
  - cbn [foldl fmap list_fmap]. rewrite IH, step. split.
    + intros [(Ha & Hin) | ([(Ha & ->) | (HT & Hn)] & Hns)].
      * left. split; [exact Ha | by right].
      * left. split; [exact Ha | by left].
      * right. split; [exact HT |]. intros (Hs & Hin).
        apply elem_of_cons in Hin as [-> | Hin]; [apply Hn | apply Hns]; done.
    + intros [(Ha & Hin) | (HT & Hn)].
      * apply elem_of_cons in Hin as [-> | Hin]; [| left; done].
        right. split; [left; done |]. intros (Hs & _). exact (excl Ha Hs).
      * right. split.
        -- right. split; [exact HT |]. intros (Hs & ->). apply Hn.
           split; [exact Hs | by left].
        -- intros (Hs & Hin). apply Hn. split; [exact Hs | by right].
Qed.
End EntryFold.

Section ChunkFold.
Variable proj : Tables -> gset string.
Variables adds subs : ChunkData -> string -> Prop.
Hypothesis cstep : forall T c (h : string),
  h ∈ proj (table_chunk T c) <-> adds c h \/ (h ∈ proj T /\ ~ subs c h).

Lemma fold_chunks_iff (cs : list ChunkData) :
  forall T (h : string),
    h ∈ proj (foldl table_chunk T cs)
    <-> added_last adds subs cs h
        \/ (h ∈ proj T /\ forall c, c ∈ cs -> ~ subs c h).
Proof.
  induction cs as [| c cs IH]; intros T h.
  - cbn. split.
    + intros H. right. split; [exact H |]. intros c Hc.
      by apply elem_of_nil in Hc.
    + intros [(k1 & c & k2 & E & _) | (H & _)]; [| exact H].
      by destruct k1.
  - cbn [foldl]. rewrite IH, cstep. split.
    + intros [(k1 & c0 & k2 & -> & Ha & Hn) | ([Ha | (HT & Hn)] & Hns)].
      * left. exists (c :: k1), c0, k2. done.
      * left. exists [], c, cs. done.
      * right. split; [exact HT |]. intros c0 Hc0.
        apply elem_of_cons in Hc0 as [-> | Hc0]; [exact Hn | by apply Hns].
    + intros [(k1 & c0 & k2 & E & Ha & Hn) | (HT & Hn)].
      * destruct k1 as [| c1 k1]; cbn in E; injection E as -> ->.
        -- right. split; [by left | exact Hn].
        -- left. exists k1, c0, k2. done.
      * right. split.
        -- right. split; [exact HT |]. apply Hn. by left.
        -- intros c0 Hc0. apply Hn. by right.
Qed.
End ChunkFold.

Lemma table_entry_lookup_iff c hashlen T e (h : string) :
  h ∈ tLookup (table_entry c hashlen T e)
  <-> ((hashlen = PREFIX_4B_SZ /\ ChunkType c = CHUNK_TYPE_ADD)
       /\ h = string_of_list_byte e)
      \/ (h ∈ tLookup T
          /\ ~ ((hashlen = PREFIX_4B_SZ /\ ChunkType c = CHUNK_TYPE_SUB)
                /\ h = string_of_list_byte e)).
Proof.
  unfold table_entry, CHUNK_TYPE_ADD, CHUNK_TYPE_SUB, PREFIX_4B_SZ, PREFIX_32B_SZ.
  destruct (Z.eqb_spec hashlen 4) as [E4 | N4];
    [| destruct (Z.eqb_spec hashlen 32) as [E32 | N32]];
    destruct (Z.eqb_spec (ChunkType c) 0) as [Ea | Na];
    destruct (Z.eqb_spec (ChunkType c) 1) as [Es | Ns];
    cbn; rewrite ?elem_of_union, ?elem_of_difference, ?elem_of_singleton;
    intuition (try lia; try congruence).
Qed.

Lemma table_entry_full_iff c hashlen T e (h : string) :
  h ∈ tFullHashes (table_entry c hashlen T e)
  <-> ((hashlen = PREFIX_32B_SZ /\ ChunkType c = CHUNK_TYPE_ADD)
       /\ h = string_of_list_byte e)
      \/ (h ∈ tFullHashes T
          /\ ~ ((hashlen = PREFIX_32B_SZ /\ ChunkType c = CHUNK_TYPE_SUB)
                /\ h = string_of_list_byte e)).
Proof.
  unfold table_entry, CHUNK_TYPE_ADD, CHUNK_TYPE_SUB, PREFIX_4B_SZ, PREFIX_32B_SZ.
  destruct (Z.eqb_spec hashlen 4) as [E4 | N4];
    [| destruct (Z.eqb_spec hashlen 32) as [E32 | N32]];
    destruct (Z.eqb_spec (ChunkType c) 0) as [Ea | Na];
    destruct (Z.eqb_spec (ChunkType c) 1) as [Es | Ns];
    cbn; rewrite ?elem_of_union, ?elem_of_difference, ?elem_of_singleton;
    intuition (try lia; try congruence).
Qed.

Lemma table_entry_requested_iff c hashlen T e (h : string) :
  h ∈ tFullHashRequested (table_entry c hashlen T e)
  <-> ((hashlen = PREFIX_32B_SZ /\ ChunkType c = CHUNK_TYPE_SUB)
       /\ h = string_of_list_byte e)
      \/ (h ∈ tFullHashRequested T /\ ~ (False /\ h = string_of_list_byte e)).
Proof.
  unfold table_entry, CHUNK_TYPE_ADD, CHUNK_TYPE_SUB, PREFIX_4B_SZ, PREFIX_32B_SZ.
  destruct (Z.eqb_spec hashlen 4) as [E4 | N4];
    [| destruct (Z.eqb_spec hashlen 32) as [E32 | N32]];
    destruct (Z.eqb_spec (ChunkType c) 0) as [Ea | Na];
    destruct (Z.eqb_spec (ChunkType c) 1) as [Es | Ns];
    cbn; rewrite ?elem_of_union, ?elem_of_difference, ?elem_of_singleton;
    intuition (try lia; try congruence).
Qed.

Lemma add_sub_differ : CHUNK_TYPE_ADD <> CHUNK_TYPE_SUB.
Proof. discriminate. Qed.

(** One record against each table. *)
Lemma table_chunk_lookup_iff T c (h : string) :
  h ∈ tLookup (table_chunk T c)
  <-> adds_prefix c h \/ (h ∈ tLookup T /\ ~ subs_prefix c h).
Proof.
  unfold table_chunk.
  rewrite (fold_entries_iff c (entry_width c) tLookup
             (entry_width c = PREFIX_4B_SZ /\ ChunkType c = CHUNK_TYPE_ADD)
             (entry_width c = PREFIX_4B_SZ /\ ChunkType c = CHUNK_TYPE_SUB)
             ltac:(intros [_ Ha] [_ Hs]; rewrite Ha in Hs; discriminate)
             (table_entry_lookup_iff c (entry_width c))).
  unfold adds_prefix, subs_prefix, keys_of. rewrite entry_width_4. tauto.
Qed.

Lemma table_chunk_full_iff T c (h : string) :
  h ∈ tFullHashes (table_chunk T c)
  <-> adds_full c h \/ (h ∈ tFullHashes T /\ ~ subs_full c h).
Proof.
  unfold table_chunk.
  rewrite (fold_entries_iff c (entry_width c) tFullHashes
             (entry_width c = PREFIX_32B_SZ /\ ChunkType c = CHUNK_TYPE_ADD)
             (entry_width c = PREFIX_32B_SZ /\ ChunkType c = CHUNK_TYPE_SUB)
             ltac:(intros [_ Ha] [_ Hs]; rewrite Ha in Hs; discriminate)
             (table_entry_full_iff c (entry_width c))).
  unfold adds_full, subs_full, keys_of. rewrite entry_width_32_iff. tauto.
Qed.

Lemma table_chunk_requested_iff T c (h : string) :
  h ∈ tFullHashRequested (table_chunk T c)
  <-> subs_full c h \/ (h ∈ tFullHashRequested T /\ ~ False).
Proof.
  unfold table_chunk.
  rewrite (fold_entries_iff c (entry_width c) tFullHashRequested
             (entry_width c = PREFIX_32B_SZ /\ ChunkType c = CHUNK_TYPE_SUB)
             False
             ltac:(intros _ [])
             (table_entry_requested_iff c (entry_width c))).
  unfold subs_full, keys_of. rewrite entry_width_32_iff. tauto.
Qed.

(** A key of a record has the width of the record's entries. *)
Lemma keys_of_length (c : ChunkData) (h : string) :
  recognised_prefix c -> h ∈ keys_of c ->
  Z.of_nat (String.length h) = entry_width c.
Proof.
  intros Hrec Hin. unfold keys_of in Hin.
  apply list_elem_of_fmap in Hin as (e & -> & He).
  apply list_elem_of_lookup in He as (k & Hk).
  assert (0 < entry_width c) as Hpos
    by (destruct (recognised_width c Hrec); lia).
  apply (entries_lookup _ _ _ _ Hpos) in Hk as (Hk & ->).
  rewrite string_of_list_byte_length. by apply nth_entry_length.
Qed.

(** After a successful merge the new log determines everything else. *)
Lemma load_success_log env fuel newChunks w w' kept :
  load env fuel newChunks w = Ret (None, w') ->
  disk w' !! FileName (sbl w') = Some (GobChunk <$> kept) ->
  rebuilt w' kept
  /\ summary_of kept (ChunkRanges (sbl w'))
  /\ Forall (kept_ok fuel) kept.
Proof.
  intros Hrun Hlog.
  destruct (load_cases env fuel newChunks w None w' Hrun)
    as [(Hn & _) | (cs & _ & Hsw)]; [by destruct Hn |].
  pose proof (sw_outcome _ _ _ _ _ _ Hsw) as (D1 & _ & _ & D4 & _).
  rewrite (sw_FileName _ _ _ _ _ _ Hsw), D1 in Hlog.
  injection Hlog as Hkept. apply GobChunk_fmap_inj in Hkept. rewrite <- Hkept.
  split; [exact (sw_rebuilt _ _ _ _ _ _ Hsw) |].
  split; [exact D4 | exact (sw_fuel _ _ _ _ _ _ Hsw)].
Qed.

(* ===================================================================== *)
(** ** A run of [load], end to end *)
(* ===================================================================== *)

(** The three ways [load] returns: [os.Create] failed; a loop returned
    early; or both loops ran to their end and the commit followed. *)
Lemma load_run env fuel newChunks w err w' :
  load env fuel newChunks w = Ret (err, w') ->
  let name := FileName (sbl w) in
  let tmp := name +:+ ".tmp" in
  let dc := DeleteChunks (sbl w) in
  let f := fst (os_Open env name w) in
  (create_error env tmp = true /\ err = Some (ErrOpeningFile ErrCreate)
   /\ sbl w' = sbl w /\ tries w' = tries w /\ disk w' = disk w)
  \/ (create_error env tmp = false
      /\ exists w3 w4,
           w' = close_tmp_file env name w4
           /\ same_live (sbl w) (sbl w3)
           /\ (forall l, l ∈ dom (tries w) -> tries w3 !! l = tries w !! l)
           /\ (forall p, p <> tmp -> disk w3 !! p = disk w !! p)
           /\ ((is_Some err /\ w4 = w3)
               \/ exists l1 l2 l3 v cs,
                    (l1 ∉ dom (tries w)) /\ (l2 ∉ dom (tries w))
                    /\ (l3 ∉ dom (tries w))
                    /\ old_chunks f cs
                    /\ tmp_tables l1 l2 l3
                         (foldl table_chunk no_tables
                            (survivors_existing dc cs ++ survivors_new dc newChunks))
                         w3
                    /\ disk w3 !! tmp
                       = Some (GobChunk <$>
                                 (survivors_existing dc cs ++ survivors_new dc newChunks))
                    /\ Forall (fun chunk => chunk = None -> deleted dc None = true)
                         newChunks
                    /\ delta_counts dc newChunks v
                    /\ load_commit env f v w3 = (err, w4))).
Proof.
  intros Hrun name tmp dc f.
  pose proof (load_steps env fuel newChunks w err w' Hrun) as H.
  cbv zeta in H. fold name in H. fold tmp in H. fold f in H.
  destruct H as (w1 & Hs1 & Ht1 & Hd1
                 & [(Ec & -> & ->) | (Ec & r & w4 & Emerge & Eout & ->)]).
  { left. done. }
  right. split; [exact Ec |].
  set (w2 := set_disk (<[tmp:=[]]> (disk w1)) w1) in *.
  assert (sbl w2 = sbl w) as Hs2 by exact Hs1.
  assert (tries w2 = tries w) as Ht2 by exact Ht1.
  assert (disk w2 !! (FileName (sbl w2) +:+ ".tmp") = Some []) as Hd2.
  { rewrite Hs2. fold name. fold tmp. subst w2. cbn. apply lookup_insert_eq. }
  assert (forall p, p <> tmp -> disk w2 !! p = disk w !! p) as Hdisk2.
  { intros p Hp. subst w2. cbn. rewrite lookup_insert_ne by (by apply not_eq_sym).
    by rewrite Hd1. }
  pose proof (load_merge_spec env fuel f newChunks w2 r Hd2 Emerge) as H.
  cbv zeta in H. rewrite Hs2, Ht2 in H. fold name in H. fold tmp in H. fold dc in H.
  destruct H as (l1 & l2 & l3 & w3 & Hf1 & Hf2 & Hf3 & HL & Htr & Hdk & Hr).
  exists w3, w4. split; [reflexivity |]. split; [exact HL |].
  split; [exact Htr |].
  split; [intros p Hp; rewrite Hdk by exact Hp; by apply Hdisk2 |].
  destruct r as [[e w3'] | [v w3']].
  - destruct Hr as (-> & He). injection Eout as <- <-. left. done.
  - destruct Hr as (-> & cs & Hcs & Hall & Hdisk & HT & Ha & Hs). right.
    destruct (load_merge_inr env fuel f newChunks w2 v w3 Hd2 Emerge)
      as (a & s & w0 & Hdc0 & Hnew).
    rewrite Hs2 in Hdc0, Hnew. fold name in Hnew. fold tmp in Hnew.
    fold dc in Hdc0.
    destruct (load_new_counts env fuel tmp dc newChunks _ _ _ _ Hdc0 Hnew)
      as (N & C1 & C2 & C3 & C4 & C5 & C6).
    cbn in C1, C2, C3, C4, C5, C6.
    exists l1, l2, l3, v, cs.
    do 3 (split; [assumption |]). split; [exact Hcs |].
    split; [exact HT |]. split; [exact Hdisk |]. split; [exact N |].
    split; [| exact Eout].
    unfold delta_counts. cbv zeta. repeat split; lia.
Qed.

Lemma load_commit_tries env f v w err w' :
  load_commit env f v w = (err, w') -> tries w' = tries w.
Proof.
  intros Hrun. unfold load_commit, os_Remove, os_Rename in Hrun.
  destruct f as [stream |]; cbn in Hrun.
  - destruct (disk w !! FileName (sbl w)).
    2: { by injection Hrun as <- <-. }
    destruct (remove_error env (FileName (sbl w))).
    { by injection Hrun as <- <-. }
    cbn in Hrun.
    destruct (delete (FileName (sbl w)) (disk w) !! (FileName (sbl w) +:+ ".tmp")).
    2: { by injection Hrun as <- <-. }
    destruct (rename_error env (FileName (sbl w) +:+ ".tmp"));
      by injection Hrun as <- <-.
  - destruct (disk w !! (FileName (sbl w) +:+ ".tmp")).
    2: { by injection Hrun as <- <-. }
    destruct (rename_error env (FileName (sbl w) +:+ ".tmp"));
      by injection Hrun as <- <-.
Qed.

(* ===================================================================== *)
(** ** Further properties of the source *)
(* ===================================================================== *)

Lemma newSafeBrowsingList_marks_nothing (name filename : string) (w : World) :
  forall T nums,
    DeleteChunks (sbl (newSafeBrowsingList name filename w)) !! T = Some nums ->
    nums = ∅.
Proof.
  intros T nums E. unfold newSafeBrowsingList, NewTrie in E. cbn in E.
  apply lookup_insert_Some in E as [[_ <-] | [_ E]]; [done |].
  apply lookup_insert_Some in E as [[_ <-] | [_ E]]; [done |].
  by rewrite lookup_empty in E.
Qed.

(** X1 ([newSafeBrowsingList], lines 65-81, with [load], lines 121-315).
    What one list has persisted, a new list restores.  Take the state a
    successful merge left, make a new list over the same file with
    [newSafeBrowsingList] and call [load] on it with an empty delta.
    Provided the log can be opened, the call returns (the fuel that served
    the merge is enough); and if it returns nil, the three containers of the
    new list have the members the old list's containers had, [ChunkRanges] is
    what the old list recorded, the log holds the same records, and the tries
    of the old list are not written.  (The new list starts with nothing
    marked for deletion, so no record of the log is dropped.) *)
Theorem restart_restores env1 env2 fuel fuel2 delta w0 w1 (name : string) :
  load env1 fuel delta w0 = Ret (None, w1) ->
  open_error env2 (FileName (sbl w1)) = false ->
  (fuel <= fuel2)%nat ->
  let w2 := newSafeBrowsingList name (FileName (sbl w1)) w1 in
  exists err w3,
    load env2 fuel2 [] w2 = Ret (err, w3)
    /\ (forall l, l ∈ dom (tries w1) -> tries w3 !! l = tries w1 !! l)
    /\ (err = None ->
        contents w3 (Lookup (sbl w3)) = contents w1 (Lookup (sbl w1))
        /\ contents w3 (FullHashes (sbl w3)) = contents w1 (FullHashes (sbl w1))
        /\ contents w3 (FullHashRequested (sbl w3))
           = contents w1 (FullHashRequested (sbl w1))
        /\ ChunkRanges (sbl w3) = ChunkRanges (sbl w1)
        /\ disk w3 !! FileName (sbl w1) = disk w1 !! FileName (sbl w1)
        /\ Name (sbl w3) = name).
Proof.
  intros Hrun1 Hopen Hfuel w2.
  destruct (load_cases env1 fuel delta w0 None w1 Hrun1)
    as [(Hn & _) | (cs1 & _ & Hsw1)]; [by destruct Hn |].
  set (kept := survivors_existing (DeleteChunks (sbl w0)) cs1
               ++ survivors_new (DeleteChunks (sbl w0)) delta) in *.
  pose proof (sw_outcome _ _ _ _ _ _ Hsw1) as (D1 & _ & _ & D4 & _).
  rewrite <- (sw_FileName _ _ _ _ _ _ Hsw1) in D1.
  destruct (sw_rebuilt _ _ _ _ _ _ Hsw1) as [B1 B2 B3].
  assert (FileName (sbl w2) = FileName (sbl w1)) as Hname by reflexivity.
  assert (Name (sbl w2) = name) as Hnm by reflexivity.
  assert (disk w2 = disk w1) as Hdisk by reflexivity.
  assert (forall l, l ∈ dom (tries w1) -> l ∈ dom (tries w2)
                    /\ tries w2 !! l = tries w1 !! l) as Htr2.
  { intros l Hl. subst w2. unfold newSafeBrowsingList, NewTrie.
    cbn [tries set_sbl set_tries].
    set (l1 := fresh (dom (tries w1))).
    set (l2 := fresh (dom (<[l1:=∅]> (tries w1)))).
    set (l3 := fresh (dom (<[l2:=∅]> (<[l1:=∅]> (tries w1))))).
    pose proof (is_fresh (dom (tries w1))) as Hf1. fold l1 in Hf1.
    pose proof (is_fresh (dom (<[l1:=∅]> (tries w1)))) as Hf2. fold l2 in Hf2.
    pose proof (is_fresh (dom (<[l2:=∅]> (<[l1:=∅]> (tries w1))))) as Hf3.
    fold l3 in Hf3.
    rewrite !dom_insert_L in Hf3. rewrite dom_insert_L in Hf2.
    split; [rewrite !dom_insert_L; set_solver |].
    rewrite !lookup_insert_ne; [done | | |]; intros ->; set_solver. }
  assert (os_Open env2 (FileName (sbl w2)) w2 = (Some (GobChunk <$> kept), None))
    as Eopen.
  { unfold os_Open. by rewrite Hname, Hopen, Hdisk, D1. }
  assert (survivors_existing (DeleteChunks (sbl w2)) kept = kept) as Esurv.
  { apply survivors_existing_all. apply newSafeBrowsingList_marks_nothing. }
  destruct (load_returns_no_delta env2 fuel2 w2 kept) as (err & w3 & Hrun2).
  { rewrite Eopen. reflexivity. }
  { rewrite Esurv. eapply Forall_impl; [exact (sw_fuel _ _ _ _ _ _ Hsw1) |].
    intros c. by apply kept_ok_mono. }
  exists err, w3. split; [exact Hrun2 |].
  destruct (load_cases env2 fuel2 [] w2 err w3 Hrun2)
    as [(He & [_ Htr _]) | (cs2 & Hcs2 & Hsw2)].
  - split.
    + intros l Hl. destruct (Htr2 l Hl) as (Hl2 & <-). by apply Htr.
    + intros ->. by destruct He.
  - split.
    + intros l Hl. destruct (Htr2 l Hl) as (Hl2 & <-).
      by apply (sw_tries _ _ _ _ _ _ Hsw2).
    + intros ->.
      rewrite Eopen in Hcs2. cbn in Hcs2. apply GobChunk_fmap_inj in Hcs2.
      subst cs2.
      rewrite Esurv in Hsw2. cbn [survivors_new omap list_omap] in Hsw2.
      rewrite app_nil_r in Hsw2.
      destruct (sw_rebuilt _ _ _ _ _ _ Hsw2) as [C1 C2 C3].
      pose proof (sw_outcome _ _ _ _ _ _ Hsw2) as (E1 & _ & _ & R & _).
      rewrite Hname in E1.
      split; [by rewrite C1, B1 |]. split; [by rewrite C2, B2 |].
      split; [by rewrite C3, B3 |].
      split; [eapply summary_of_unique; eassumption |].
      split; [by rewrite E1, D1 |].
      by rewrite (sw_Name _ _ _ _ _ _ Hsw2).
Qed.

Lemma restart_restores_witness :
  let w0 := Sample.with_log [GobChunk Sample.add1] Sample.world0 in
  let w1 := Sample.after (load no_faults 3 [Some Sample.sub_full] w0) in
  let w2 := newSafeBrowsingList "goog-phish-shavar" (FileName (sbl w1)) w1 in
  exists err w3,
    load no_faults 3 [] w2 = Ret (err, w3)
    /\ (forall l, l ∈ dom (tries w1) -> tries w3 !! l = tries w1 !! l)
    /\ (err = None ->
        contents w3 (Lookup (sbl w3)) = contents w1 (Lookup (sbl w1))
        /\ contents w3 (FullHashes (sbl w3)) = contents w1 (FullHashes (sbl w1))
        /\ contents w3 (FullHashRequested (sbl w3))
           = contents w1 (FullHashRequested (sbl w1))
        /\ ChunkRanges (sbl w3) = ChunkRanges (sbl w1)
        /\ disk w3 !! FileName (sbl w1) = disk w1 !! FileName (sbl w1)
        /\ Name (sbl w3) = "goog-phish-shavar"%string).
Proof.
  intros w0 w1.
  apply (restart_restores no_faults no_faults 3 3 [Some Sample.sub_full] w0 w1
           "goog-phish-shavar").
  - vm_compute. reflexivity.
  - reflexivity.
  - lia.
Defined.

Example restart_restores_example :
  let w0 := Sample.with_log [GobChunk Sample.add1] Sample.world0 in
  let w1 := Sample.after (load no_faults 3 [Some Sample.sub_full] w0) in
  let w2 := newSafeBrowsingList "goog-phish-shavar" "f" w1 in
  let w3 := Sample.after (load no_faults 3 [] w2) in
  load no_faults 3 [] w2 = Ret (None, w3)
  /\ contents w2 (Lookup (sbl w2)) = Some ∅
  /\ contents w3 (Lookup (sbl w3)) = Some {["abcd"%string; "efgh"%string]}
  /\ Lookup (sbl w3) <> Lookup (sbl w1).
Proof.
  intros w0 w1 w2 w3.
  do 3 (split; [vm_compute; reflexivity |]).
  vm_compute. discriminate.
Qed.

(** X2 ([load], lines 184-276 and 288-297).  The log a successful merge
    leaves is known record for record: the records of the old log that are
    not marked for deletion, in their old order, followed by the records of
    the delta that are not marked and fall in one of the four buckets, in
    the order of the delta.  (The old log is the stream [os.Open] gave; a
    file that is absent or cannot be opened counts as no records.)  In
    particular the old log held nothing the decoder rejects. *)
Theorem load_log_exact env fuel newChunks w w' :
  load env fuel newChunks w = Ret (None, w') ->
  let name := FileName (sbl w) in
  let dc := DeleteChunks (sbl w) in
  exists cs,
    old_chunks (fst (os_Open env name w)) cs
    /\ FileName (sbl w') = name
    /\ disk w' !! name
       = Some (GobChunk <$> (survivors_existing dc cs ++ survivors_new dc newChunks)).
Proof.
  intros Hrun name dc.
  destruct (load_cases env fuel newChunks w None w' Hrun)
    as [(Hn & _) | (cs & Hcs & Hsw)]; [by destruct Hn |].
  exists cs. split; [exact Hcs |].
  split; [exact (sw_FileName _ _ _ _ _ _ Hsw) |].
  by destruct (sw_outcome _ _ _ _ _ _ Hsw) as (D1 & _).
Qed.

Lemma load_log_exact_witness :
  let w := Sample.delete_add 1
             (Sample.serving [GobChunk Sample.add1; GobChunk Sample.sub_full]) in
  let delta := [Some Sample.odd_type; Some Sample.add_full; Some Sample.add1] in
  let w' := Sample.after (load no_faults 3 delta w) in
  exists cs,
    old_chunks (fst (os_Open no_faults "f" w)) cs
    /\ FileName (sbl w') = "f"%string
    /\ disk w' !! "f"%string
       = Some (GobChunk <$>
                 (survivors_existing (DeleteChunks (sbl w)) cs
                  ++ survivors_new (DeleteChunks (sbl w)) delta)).
Proof.
  intros w delta w'.
  apply (load_log_exact no_faults 3 delta w w').
  vm_compute. reflexivity.
Defined.

(** X3 ([load] with [updateLookupMap], lines 331-339).  After a successful
    merge the prefix set is determined by the new log alone: a key is in
    [Lookup] exactly when some record of the log adds it as a 4-byte prefix
    and no later record of the log retracts it.  Nothing of the prefix set
    of before the call survives unless the log carries it. *)
Theorem lookup_membership env fuel newChunks w w' kept :
  load env fuel newChunks w = Ret (None, w') ->
  disk w' !! FileName (sbl w') = Some (GobChunk <$> kept) ->
  exists L,
    contents w' (Lookup (sbl w')) = Some L
    /\ forall h, h ∈ L <-> added_last adds_prefix subs_prefix kept h.
Proof.
  intros Hrun Hlog.
  destruct (load_success_log env fuel newChunks w w' kept Hrun Hlog)
    as (Hrb & _ & _).
  eexists. split; [exact (rb_lookup _ _ Hrb) |].
  intros h.
  rewrite (fold_chunks_iff tLookup adds_prefix subs_prefix
             table_chunk_lookup_iff kept no_tables h).
  cbn. split; [intros [H | (H & _)]; [exact H | set_solver] | by left].
Qed.

Lemma lookup_membership_witness :
  let w := Sample.serving [GobChunk Sample.add1] in
  let w' := Sample.after (load no_faults 3 [Some Sample.sub1] w) in
  exists L,
    contents w' (Lookup (sbl w')) = Some L
    /\ forall h, h ∈ L
         <-> added_last adds_prefix subs_prefix [Sample.add1; Sample.sub1] h.
Proof.
  intros w w'.
  apply (lookup_membership no_faults 3 [Some Sample.sub1] w w'
           [Sample.add1; Sample.sub1]); vm_compute; reflexivity.
Defined.

(** X4 ([load] with [updateLookupMap], lines 340-354).  After a successful
    merge a key is in [FullHashes] exactly when some record of the new log
    adds it as a full hash and no later record of the log retracts it. *)
Theorem full_hashes_membership env fuel newChunks w w' kept :
  load env fuel newChunks w = Ret (None, w') ->
  disk w' !! FileName (sbl w') = Some (GobChunk <$> kept) ->
  exists F,
    contents w' (FullHashes (sbl w')) = Some F
    /\ forall h, h ∈ F <-> added_last adds_full subs_full kept h.
Proof.
  intros Hrun Hlog.
  destruct (load_success_log env fuel newChunks w w' kept Hrun Hlog)
    as (Hrb & _ & _).
  eexists. split; [exact (rb_full _ _ Hrb) |].
  intros h.
  rewrite (fold_chunks_iff tFullHashes adds_full subs_full
             table_chunk_full_iff kept no_tables h).
  cbn. split; [intros [H | (H & _)]; [exact H | set_solver] | by left].
Qed.

Lemma full_hashes_membership_witness :
  let w := Sample.serving [GobChunk Sample.sub_full] in
  let w' := Sample.after (load no_faults 3 [Some Sample.add_full] w) in
  exists F,
    contents w' (FullHashes (sbl w')) = Some F
    /\ forall h, h ∈ F
         <-> added_last adds_full subs_full [Sample.sub_full; Sample.add_full] h.
Proof.
  intros w w'.
  apply (full_hashes_membership no_faults 3 [Some Sample.add_full] w w'
           [Sample.sub_full; Sample.add_full]); vm_compute; reflexivity.
Defined.

(** X5 ([load] with [updateLookupMap], lines 347-353).  After a successful
    merge [FullHashRequested] holds exactly the entries of the SUB records
    with full hashes of the new log: nothing ever leaves this set within a
    merge, and nothing else enters it. *)
Theorem requested_membership env fuel newChunks w w' kept :
  load env fuel newChunks w = Ret (None, w') ->
  disk w' !! FileName (sbl w') = Some (GobChunk <$> kept) ->
  exists R,
    contents w' (FullHashRequested (sbl w')) = Some R
    /\ forall h, h ∈ R <-> exists c, c ∈ kept /\ subs_full c h.
Proof.
  intros Hrun Hlog.
  destruct (load_success_log env fuel newChunks w w' kept Hrun Hlog)
    as (Hrb & _ & _).
  eexists. split; [exact (rb_req _ _ Hrb) |].
  intros h.
  rewrite (fold_chunks_iff tFullHashRequested subs_full (fun _ _ => False)
             table_chunk_requested_iff kept no_tables h).
  cbn. split.
  - intros [(k1 & c & k2 & -> & Hc & _) | (H & _)]; [| set_solver].
    exists c. split; [| exact Hc]. apply elem_of_app. right. by left.
  - intros (c & Hin & Hc). left.
    apply list_elem_of_split in Hin as (k1 & k2 & ->).
    exists k1, c, k2. split; [reflexivity |]. split; [exact Hc | tauto].
Qed.

Lemma requested_membership_witness :
  let w := Sample.serving [GobChunk Sample.sub_full] in
  let w' := Sample.after (load no_faults 3 [Some Sample.add_full] w) in
  exists R,
    contents w' (FullHashRequested (sbl w')) = Some R
    /\ forall h, h ∈ R
         <-> exists c, c ∈ [Sample.sub_full; Sample.add_full] /\ subs_full c h.
Proof.
  intros w w'.
  apply (requested_membership no_faults 3 [Some Sample.add_full] w w'
           [Sample.sub_full; Sample.add_full]); vm_compute; reflexivity.
Defined.

(** X6 ([updateLookupMap], lines 318-331, through [load]).  After a
    successful merge every key of [Lookup] is 4 bytes long and every key of
    [FullHashes] and of [FullHashRequested] is 32 bytes long: the width of
    the entries decides the container, whatever the length of the blob. *)
Theorem key_widths env fuel newChunks w w' :
  load env fuel newChunks w = Ret (None, w') ->
  exists L F R,
    contents w' (Lookup (sbl w')) = Some L
    /\ contents w' (FullHashes (sbl w')) = Some F
    /\ contents w' (FullHashRequested (sbl w')) = Some R
    /\ (forall h, h ∈ L -> String.length h = 4%nat)
    /\ (forall h, h ∈ F -> String.length h = 32%nat)
    /\ (forall h, h ∈ R -> String.length h = 32%nat).
Proof.
  intros Hrun.
  destruct (load_cases env fuel newChunks w None w' Hrun)
    as [(Hn & _) | (cs & _ & Hsw)]; [by destruct Hn |].
  pose proof (sw_rebuilt _ _ _ _ _ _ Hsw) as Hrb.
  pose proof (sw_fuel _ _ _ _ _ _ Hsw) as Hok.
  set (kept := survivors_existing (DeleteChunks (sbl w)) cs
               ++ survivors_new (DeleteChunks (sbl w)) newChunks) in *.
  assert (forall c, c ∈ kept -> recognised_prefix c) as Hrec.
  { intros c Hc. rewrite Forall_forall in Hok. by destruct (Hok c Hc). }
  do 3 eexists.
  split; [exact (rb_lookup _ _ Hrb) |].
  split; [exact (rb_full _ _ Hrb) |].
  split; [exact (rb_req _ _ Hrb) |].
  split; [| split]; intros h Hh.
  - apply (fold_chunks_iff tLookup adds_prefix subs_prefix
             table_chunk_lookup_iff kept no_tables h) in Hh
      as [(k1 & c & k2 & E & (_ & Hp & Hin) & _) | (Hh & _)]; [| set_solver].
    assert (c ∈ kept) as Hc by (rewrite E; apply elem_of_app; right; by left).
    pose proof (keys_of_length c h (Hrec c Hc) Hin) as Hlen.
    apply entry_width_4 in Hp. rewrite Hp in Hlen.
    unfold PREFIX_4B_SZ in Hlen. lia.
  - apply (fold_chunks_iff tFullHashes adds_full subs_full
             table_chunk_full_iff kept no_tables h) in Hh
      as [(k1 & c & k2 & E & (_ & Hp & Hin) & _) | (Hh & _)]; [| set_solver].
    assert (c ∈ kept) as Hc by (rewrite E; apply elem_of_app; right; by left).
    pose proof (keys_of_length c h (Hrec c Hc) Hin) as Hlen.
    apply entry_width_32_iff in Hp. rewrite Hp in Hlen.
    unfold PREFIX_32B_SZ in Hlen. lia.
  - apply (fold_chunks_iff tFullHashRequested subs_full (fun _ _ => False)
             table_chunk_requested_iff kept no_tables h) in Hh
      as [(k1 & c & k2 & E & (_ & Hp & Hin) & _) | (Hh & _)]; [| set_solver].
    assert (c ∈ kept) as Hc by (rewrite E; apply elem_of_app; right; by left).
    pose proof (keys_of_length c h (Hrec c Hc) Hin) as Hlen.
    apply entry_width_32_iff in Hp. rewrite Hp in Hlen.
    unfold PREFIX_32B_SZ in Hlen. lia.
Qed.

Lemma key_widths_witness :
  let w := Sample.serving [GobChunk Sample.add_ragged] in
  let w' := Sample.after (load no_faults 3 [Some Sample.sub_full] w) in
  exists L F R,
    contents w' (Lookup (sbl w')) = Some L
    /\ contents w' (FullHashes (sbl w')) = Some F
    /\ contents w' (FullHashRequested (sbl w')) = Some R
    /\ (forall h, h ∈ L -> String.length h = 4%nat)
    /\ (forall h, h ∈ F -> String.length h = 32%nat)
    /\ (forall h, h ∈ R -> String.length h = 32%nat).
Proof.
  intros w w'.
  apply (key_widths no_faults 3 [Some Sample.sub_full] w w').
  vm_compute. reflexivity.
Defined.

(** X7 ([load], lines 173-179 and 281-284).  [load] never writes into a
    trie that existed before the call: whoever holds a pointer to one keeps
    seeing the same set, whatever the call returns.  The three live pointers
    move together or not at all: either the call failed and they are the old
    ones, or they lead to three pairwise different tries made during the
    call, which the temporary pointers keep pointing to after the return.
    A nil result is always of the second kind. *)
Theorem load_fresh_tries env fuel newChunks w err w' :
  load env fuel newChunks w = Ret (err, w') ->
  (forall l, l ∈ dom (tries w) -> tries w' !! l = tries w !! l)
  /\ ((is_Some err
       /\ Lookup (sbl w') = Lookup (sbl w)
       /\ FullHashes (sbl w') = FullHashes (sbl w)
       /\ FullHashRequested (sbl w') = FullHashRequested (sbl w))
      \/ exists l1 l2 l3 : positive,
           (l1 ∉ dom (tries w)) /\ (l2 ∉ dom (tries w)) /\ (l3 ∉ dom (tries w))
           /\ l1 <> l2 /\ l1 <> l3 /\ l2 <> l3
           /\ Lookup (sbl w') = Some l1
           /\ FullHashes (sbl w') = Some l2
           /\ FullHashRequested (sbl w') = Some l3
           /\ tmpLookup (sbl w') = Some l1
           /\ tmpFullHashes (sbl w') = Some l2
           /\ tmpFullHashRequested (sbl w') = Some l3).
Proof.
  intros Hrun.
  pose proof (load_run env fuel newChunks w err w' Hrun) as H. cbv zeta in H.
  destruct H as [(_ & -> & Hs & Ht & _)
                | (_ & w3 & w4 & -> & HL & Htr & _ & Hcase)].
  { split; [intros l _; by rewrite Ht |]. left. rewrite Hs. eauto. }
  destruct (close_tmp_file_spec env (FileName (sbl w)) w4) as (A & B & _).
  destruct Hcase as [(He & ->)
                    | (l1 & l2 & l3 & v & cs & Hf1 & Hf2 & Hf3 & _ & HT & _ & _
                       & _ & Ecommit)].
  - split; [intros l Hl; rewrite B; by apply Htr |]. left. rewrite A.
    split; [exact He |].
    by rewrite (sl_Lookup _ _ HL), (sl_FullHashes _ _ HL),
      (sl_FullHashRequested _ _ HL).
  - destruct (load_commit_more env (fst (os_Open env (FileName (sbl w)) w))
                v w3 err w4 Ecommit)
      as (M1 & M2 & M3 & M4 & M5 & M6 & _).
    pose proof (load_commit_tries env _ v w3 err w4 Ecommit) as Ht4.
    split; [intros l Hl; rewrite B, Ht4; by apply Htr |]. right.
    destruct HT as [T1 T2 T3 N12 N13 N23 _ _ _].
    exists l1, l2, l3. rewrite A, M1, M2, M3, M4, M5, M6. done.
Qed.

Lemma load_fresh_tries_witness :
  let w := Sample.serving [GobChunk Sample.add1] in
  let w' := Sample.after (load Sample.rename_fails 3 [] w) in
  (forall l, l ∈ dom (tries w) -> tries w' !! l = tries w !! l)
  /\ ((is_Some (Some ErrRename)
       /\ Lookup (sbl w') = Lookup (sbl w)
       /\ FullHashes (sbl w') = FullHashes (sbl w)
       /\ FullHashRequested (sbl w') = FullHashRequested (sbl w))
      \/ exists l1 l2 l3 : positive,
           (l1 ∉ dom (tries w)) /\ (l2 ∉ dom (tries w)) /\ (l3 ∉ dom (tries w))
           /\ l1 <> l2 /\ l1 <> l3 /\ l2 <> l3
           /\ Lookup (sbl w') = Some l1
           /\ FullHashes (sbl w') = Some l2
           /\ FullHashRequested (sbl w') = Some l3
           /\ tmpLookup (sbl w') = Some l1
           /\ tmpFullHashes (sbl w') = Some l2
           /\ tmpFullHashRequested (sbl w') = Some l3).
Proof.
  intros w w'.
  apply (load_fresh_tries Sample.rename_fails 3 [] w (Some ErrRename) w').
  vm_compute. reflexivity.
Defined.

(** X8 ([load], lines 299-303).  A successful merge consumes the pending
    deletions: [DeleteChunks] is a new, empty map, so that no chunk is marked
    any more (it does not even hold the two inner maps a new list starts
    with).  A failed merge keeps both [DeleteChunks] and [ChunkRanges] as
    they were, whichever step failed, so that the deletions are still pending
    for the next attempt. *)
Theorem pending_deletions env fuel newChunks w err w' :
  load env fuel newChunks w = Ret (err, w') ->
  match err with
  | None =>
      DeleteChunks (sbl w') = ∅
      /\ DeleteChunks (sbl w') !! CHUNK_TYPE_ADD = None
      /\ DeleteChunks (sbl w') !! CHUNK_TYPE_SUB = None
      /\ forall chunk, marked_deleted w' chunk = false
  | Some _ =>
      DeleteChunks (sbl w') = DeleteChunks (sbl w)
      /\ ChunkRanges (sbl w') = ChunkRanges (sbl w)
  end.
Proof.
  intros Hrun.
  destruct (load_cases env fuel newChunks w err w' Hrun)
    as [(He & Hun) | (cs & _ & Hsw)].
  - destruct He as [e ->]. destruct Hun as [HL _ _].
    by rewrite (sl_DeleteChunks _ _ HL), (sl_ChunkRanges _ _ HL).
  - pose proof (sw_outcome _ _ _ _ _ _ Hsw) as Ho. destruct err as [e |].
    + by destruct Ho as (-> & -> & _).
    + destruct Ho as (_ & _ & _ & _ & Hdc & _).
      split; [exact Hdc |]. unfold marked_deleted, deleted. rewrite Hdc.
      split; [apply lookup_empty |]. split; [apply lookup_empty |].
      intros chunk. by rewrite lookup_empty.
Qed.

Lemma pending_deletions_witness :
  let w := Sample.delete_add 1 (Sample.serving [GobChunk Sample.add1]) in
  let w' := Sample.after (load no_faults 3 [Some Sample.sub1] w) in
  DeleteChunks (sbl w') = ∅
  /\ DeleteChunks (sbl w') !! CHUNK_TYPE_ADD = None
  /\ DeleteChunks (sbl w') !! CHUNK_TYPE_SUB = None
  /\ forall chunk, marked_deleted w' chunk = false.
Proof.
  intros w w'.
  apply (pending_deletions no_faults 3 [Some Sample.sub1] w None w').
  vm_compute. reflexivity.
Defined.

(** X9 ([load], lines 146-157, the deferred [close_tmp_file]).  Once the
    temporary file has been created, no return of [load] leaves it behind
    unless its removal itself fails: whether the merge succeeded (the file
    was renamed) or failed at any later step, the path [FileName + ".tmp"]
    is free afterwards.  When the creation fails the disk is as before. *)
Theorem temporary_file_removed env fuel newChunks w err w' :
  load env fuel newChunks w = Ret (err, w') ->
  let tmp := FileName (sbl w) +:+ ".tmp" in
  (create_error env tmp = false -> remove_error env tmp = false ->
   disk w' !! tmp = None)
  /\ (create_error env tmp = true -> disk w' = disk w).
Proof.
  intros Hrun tmp.
  pose proof (load_run env fuel newChunks w err w' Hrun) as H. cbv zeta in H.
  fold tmp in H.
  destruct H as [(Ec & _ & _ & _ & Hd) | (Ec & w3 & w4 & -> & _)].
  { split; [congruence | by intros _]. }
  split; [| congruence]. intros _ Hrm.
  unfold close_tmp_file, os_Remove. fold tmp.
  destruct (disk w4 !! tmp) eqn:E; [| exact E].
  rewrite Hrm. cbn. apply lookup_delete_eq.
Qed.

Lemma temporary_file_removed_witness :
  let w := Sample.serving [GobChunk Sample.add1; GobGarbage] in
  let w' := Sample.after (load no_faults 3 [Some Sample.sub1] w) in
  (create_error no_faults "f.tmp" = false ->
   remove_error no_faults "f.tmp" = false ->
   disk w' !! "f.tmp"%string = None)
  /\ (create_error no_faults "f.tmp" = true -> disk w' = disk w).
Proof.
  intros w w'.
  apply (temporary_file_removed no_faults 3 [Some Sample.sub1] w
           (Some ErrDecode) w').
  vm_compute. reflexivity.
Defined.

(** X10 ([load], lines 129, 146, 153, 288-297).  The only paths [load] can
    change are [FileName] and [FileName + ".tmp"]: every other file is the
    same after the call, whatever it returns. *)
Theorem other_files_untouched env fuel newChunks w err w' (p : string) :
  load env fuel newChunks w = Ret (err, w') ->
  p <> FileName (sbl w) ->
  p <> FileName (sbl w) +:+ ".tmp" ->
  disk w' !! p = disk w !! p.
Proof.
  intros Hrun Hp1 Hp2.
  pose proof (load_run env fuel newChunks w err w' Hrun) as H. cbv zeta in H.
  destruct H as [(_ & _ & _ & _ & ->) | (_ & w3 & w4 & -> & HL & _ & Hdk & Hcase)];
    [reflexivity |].
  destruct (close_tmp_file_spec env (FileName (sbl w)) w4) as (_ & _ & C & _).
  rewrite C by exact Hp2.
  destruct Hcase as [(_ & ->)
                    | (l1 & l2 & l3 & v & cs & _ & _ & _ & _ & _ & _ & _ & _
                       & Ecommit)].
  - by apply Hdk.
  - destruct (load_commit_more env _ v w3 err w4 Ecommit)
      as (_ & _ & _ & _ & _ & _ & M & _).
    rewrite (sl_FileName _ _ HL) in M.
    rewrite M by assumption. by apply Hdk.
Qed.

Lemma other_files_untouched_witness :
  let w := Sample.with_log [GobChunk Sample.add1]
             (set_disk {["g"%string := [GobChunk Sample.sub1]]} Sample.world0) in
  let w' := Sample.after (load no_faults 3 [Some Sample.sub1] w) in
  disk w' !! "g"%string = disk w !! "g"%string.
Proof.
  intros w w'.
  apply (other_files_untouched no_faults 3 [Some Sample.sub1] w None w' "g").
  - vm_compute. reflexivity.
  - discriminate.
  - discriminate.
Defined.

(** X11 ([load], lines 184-189 and 220-222).  A persisted log that holds
    anything the decoder rejects is never merged: if the file can be opened
    and its stream is corrupt at any position, every return of [load] is an
    error, and the list, the tries a reader can reach and the log file are
    as before, however many records were read before the corrupt one. *)
Theorem corrupt_log_aborts env fuel newChunks w err w' stream :
  load env fuel newChunks w = Ret (err, w') ->
  open_error env (FileName (sbl w)) = false ->
  disk w !! FileName (sbl w) = Some stream ->
  GobGarbage ∈ stream ->
  is_Some err /\ untouched w w'.
Proof.
  intros Hrun Hopen Hlog Hbad.
  destruct (load_cases env fuel newChunks w err w' Hrun)
    as [H | (cs & Hcs & _)]; [exact H |].
  unfold os_Open in Hcs. rewrite Hopen, Hlog in Hcs. cbn in Hcs. subst stream.
  apply list_elem_of_fmap in Hbad as (c & Hc & _). discriminate.
Qed.

Lemma corrupt_log_aborts_witness :
  let w := Sample.serving [GobChunk Sample.add1; GobGarbage] in
  let w' := Sample.after (load no_faults 3 [Some Sample.sub1] w) in
  is_Some (Some ErrDecode) /\ untouched w w'.
Proof.
  intros w w'.
  apply (corrupt_log_aborts no_faults 3 [Some Sample.sub1] w (Some ErrDecode) w'
           [GobChunk Sample.add1; GobGarbage]).
  - vm_compute. reflexivity.
  - reflexivity.
  - vm_compute. reflexivity.
  - right. left.
Defined.

Lemma survivors_new_app dc (d1 d2 : list (option ChunkData)) :
  survivors_new dc (d1 ++ d2) = survivors_new dc d1 ++ survivors_new dc d2.
Proof. unfold survivors_new. apply omap_app. Qed.

Lemma survivors_new_unmarked dc dc' (d : list (option ChunkData)) :
  (forall chunk, chunk ∈ d -> deleted dc chunk = false) ->
  (forall chunk, deleted dc' chunk = false) ->
  survivors_new dc d = survivors_new dc' d.
Proof.
  intros H H'. induction d as [| chunk d IH]; [reflexivity |].
  assert (forall dc0, survivors_new dc0 (chunk :: d)
          = match chunk with
            | Some c =>
                if negb (deleted dc0 chunk) && in_bucket c
                then c :: survivors_new dc0 d else survivors_new dc0 d
            | None => survivors_new dc0 d
            end) as Hcons.
  { intros dc0. destruct chunk as [c |]; [| reflexivity].
    unfold survivors_new at 1. cbn [omap list_omap].
    by destruct (negb (deleted dc0 (Some c)) && in_bucket c). }
  rewrite !Hcons, IH by (intros x Hx; apply H; by right).
  destruct chunk as [c |]; [| reflexivity].
  by rewrite (H (Some c)) by (by left); rewrite H'.
Qed.

Lemma old_chunks_unique dec cs cs' :
  old_chunks dec cs -> old_chunks dec cs' -> cs = cs'.
Proof.
  destruct dec as [stream |]; cbn.
  - intros -> H. by apply GobChunk_fmap_inj.
  - by intros -> ->.
Qed.

Lemma table_chunk_idem T c :
  table_chunk (table_chunk T c) c = table_chunk T c.
Proof.
  assert (forall A B : Tables,
            tLookup A = tLookup B -> tFullHashes A = tFullHashes B ->
            tFullHashRequested A = tFullHashRequested B -> A = B) as Hext.
  { intros [] [] ; cbn; by intros -> -> ->. }
  apply Hext; apply leibniz_equiv, set_equiv; intros h.
  - rewrite !table_chunk_lookup_iff. tauto.
  - rewrite !table_chunk_full_iff. tauto.
  - rewrite !table_chunk_requested_iff. tauto.
Qed.

(** X12 ([load], lines 184-276 and 299-303).  Two merges in a row are one
    merge of the two deltas together: if a first merge of [d1] and then a
    second of [d2] both succeed, and so does a single merge of [d1 ++ d2]
    from the same start, then the persisted log, the three containers and
    [ChunkRanges] are the same either way, provided that the second merge
    could open the log and that no chunk of [d2] was marked for deletion at
    the start (the first merge clears the marks, so the second would not
    drop it). *)
Theorem merge_in_two_steps env env2 fuel d1 d2 w0 w1 w2 w12 :
  load env fuel d1 w0 = Ret (None, w1) ->
  load env2 fuel d2 w1 = Ret (None, w2) ->
  load env fuel (d1 ++ d2) w0 = Ret (None, w12) ->
  open_error env2 (FileName (sbl w1)) = false ->
  (forall chunk, chunk ∈ d2 -> marked_deleted w0 chunk = false) ->
  disk w12 !! FileName (sbl w0) = disk w2 !! FileName (sbl w0)
  /\ contents w12 (Lookup (sbl w12)) = contents w2 (Lookup (sbl w2))
  /\ contents w12 (FullHashes (sbl w12)) = contents w2 (FullHashes (sbl w2))
  /\ contents w12 (FullHashRequested (sbl w12))
     = contents w2 (FullHashRequested (sbl w2))
  /\ ChunkRanges (sbl w12) = ChunkRanges (sbl w2).
Proof.
  intros H1 H2 H12 Hopen Hd2.
  destruct (load_cases env fuel d1 w0 None w1 H1)
    as [(Hn & _) | (cs & Hcs & Hsw1)]; [by destruct Hn |].
  destruct (load_cases env2 fuel d2 w1 None w2 H2)
    as [(Hn & _) | (cs1 & Hcs1 & Hsw2)]; [by destruct Hn |].
  destruct (load_cases env fuel (d1 ++ d2) w0 None w12 H12)
    as [(Hn & _) | (cs' & Hcs' & Hsw12)]; [by destruct Hn |].
  rewrite <- (old_chunks_unique _ _ _ Hcs Hcs') in Hsw12. clear cs' Hcs'.
  pose proof (sw_outcome _ _ _ _ _ _ Hsw1) as (D1 & _ & _ & _ & Hdc1 & _).
  pose proof (sw_FileName _ _ _ _ _ _ Hsw1) as Hn1.
  unfold os_Open in Hcs1. rewrite Hopen, Hn1, D1 in Hcs1. cbn in Hcs1.
  apply GobChunk_fmap_inj in Hcs1. subst cs1.
  rewrite Hdc1 in Hsw2.
  rewrite survivors_existing_all in Hsw2
    by (intros T nums E; by rewrite lookup_empty in E).
  rewrite <- (survivors_new_unmarked (DeleteChunks (sbl w0)) ∅ d2) in Hsw2.
  2: { exact Hd2. }
  2: { intros chunk. unfold deleted. by rewrite lookup_empty. }
  rewrite survivors_new_app, app_assoc in Hsw12.
  set (kept := (survivors_existing (DeleteChunks (sbl w0)) cs
                ++ survivors_new (DeleteChunks (sbl w0)) d1)
               ++ survivors_new (DeleteChunks (sbl w0)) d2) in *.
  pose proof (sw_outcome _ _ _ _ _ _ Hsw2) as (E2 & _ & _ & S2 & _).
  pose proof (sw_outcome _ _ _ _ _ _ Hsw12) as (E12 & _ & _ & S12 & _).
  destruct (sw_rebuilt _ _ _ _ _ _ Hsw2) as [R1 R2 R3].
  destruct (sw_rebuilt _ _ _ _ _ _ Hsw12) as [Q1 Q2 Q3].
  rewrite Hn1 in E2.
  split; [by rewrite E2, E12 |].
  split; [by rewrite R1, Q1 |].
  split; [by rewrite R2, Q2 |].
  split; [by rewrite R3, Q3 |].
  exact (summary_of_unique _ _ _ S12 S2).
Qed.

Lemma merge_in_two_steps_witness :
  let w0 := Sample.serving [GobChunk Sample.add1] in
  let d1 := [Some Sample.sub1] in
  let d2 := [Some Sample.add_full; Some Sample.odd_type] in
  let w1 := Sample.after (load no_faults 3 d1 w0) in
  let w2 := Sample.after (load no_faults 3 d2 w1) in
  let w12 := Sample.after (load no_faults 3 (d1 ++ d2) w0) in
  disk w12 !! FileName (sbl w0) = disk w2 !! FileName (sbl w0)
  /\ contents w12 (Lookup (sbl w12)) = contents w2 (Lookup (sbl w2))
  /\ contents w12 (FullHashes (sbl w12)) = contents w2 (FullHashes (sbl w2))
  /\ contents w12 (FullHashRequested (sbl w12))
     = contents w2 (FullHashRequested (sbl w2))
  /\ ChunkRanges (sbl w12) = ChunkRanges (sbl w2).
Proof.
  intros w0 d1 d2 w1 w2 w12.
  apply (merge_in_two_steps no_faults no_faults 3 d1 d2 w0 w1 w2 w12).
  - vm_compute. reflexivity.
  - vm_compute. reflexivity.
  - vm_compute. reflexivity.
  - reflexivity.
  - intros chunk _. apply deleted_empty. intros T nums E.
    unfold w0, Sample.serving, Sample.list0 in E. cbn [sbl DeleteChunks] in E.
    apply lookup_insert_Some in E as [[_ <-] | [_ E]]; [done |].
    by apply lookup_singleton_Some in E as [_ <-].
Defined.

(** X13 ([updateLookupMap], lines 317-357).  Applying a record a second time
    changes nothing: with the three temporary tries in place, whenever
    [updateLookupMap] returns for a chunk, a second call for the same chunk
    returns too and leaves every trie as the first call left it.  So a record
    that is both in the old log and in the delta does no harm. *)
Theorem updateLookupMap_replay l1 l2 l3 T fuel c w w1 :
  tmp_tables l1 l2 l3 T w ->
  updateLookupMap fuel (Some c) w = Ret w1 ->
  exists w2,
    updateLookupMap fuel (Some c) w1 = Ret w2
    /\ tries w2 = tries w1 /\ sbl w2 = sbl w1 /\ disk w2 = disk w1.
Proof.
  intros HT H1.
  destruct (updateLookupMap_ret l1 l2 l3 T fuel c w w1 HT H1)
    as (Hrec & Hfuel & HT1 & _).
  destruct (updateLookupMap_total l1 l2 l3 _ fuel c w1 HT1 Hrec Hfuel)
    as (w2 & H2).
  exists w2. split; [exact H2 |].
  destruct (updateLookupMap_ret l1 l2 l3 _ fuel c w1 w2 HT1 H2)
    as (_ & _ & HT2 & [Hs Hd Htr]).
  split; [| by split].
  rewrite table_chunk_idem in HT2.
  destruct HT1 as [_ _ _ _ _ _ A1 A2 A3].
  destruct HT2 as [_ _ _ _ _ _ B1 B2 B3].
  apply map_eq. intros l.
  destruct (decide (l = l1)) as [-> | N1]; [by rewrite A1, B1 |].
  destruct (decide (l = l2)) as [-> | N2]; [by rewrite A2, B2 |].
  destruct (decide (l = l3)) as [-> | N3]; [by rewrite A3, B3 |].
  by apply Htr.
Qed.

Lemma updateLookupMap_replay_witness :
  let w1 := Sample.updated
              (updateLookupMap 3 (Some Sample.sub_full) Sample.updating) in
  exists w2,
    updateLookupMap 3 (Some Sample.sub_full) w1 = Ret w2
    /\ tries w2 = tries w1 /\ sbl w2 = sbl w1 /\ disk w2 = disk w1.
Proof.
  intros w1.
  apply (updateLookupMap_replay 4 5 6 no_tables 3 Sample.sub_full Sample.updating).
  - split; vm_compute; congruence.
  - vm_compute. reflexivity.
Defined.

Lemma close_tmp_file_logged env name w :
  logged (close_tmp_file env name w) = logged w.
Proof.
  unfold close_tmp_file, os_Remove.
  destruct (disk w !! (name +:+ ".tmp")); [| done].
  by destruct (remove_error env _).
Qed.

(** X14 ([load], lines 236-241 and 305-313).  The last message of a
    successful merge counts the delta alone: the number of chunks it reports
    as added is the number of records of the delta that were kept, the
    prefix and full-hash counts are those of these records, and the number
    of deleted chunks it reports is always 0, however many records were
    dropped (the counter is reset after the first loop and the second loop
    never increments it). *)
Theorem final_message env fuel newChunks w w' :
  load env fuel newChunks w = Ret (None, w') ->
  let kept := survivors_new (DeleteChunks (sbl w)) newChunks in
  last (logged w')
  = Some (update_message (Z.of_nat (length kept)) 0
            (entries_in CHUNK_TYPE_ADD PREFIX_4B PREFIX_4B_SZ kept)
            (entries_in CHUNK_TYPE_SUB PREFIX_4B PREFIX_4B_SZ kept)
            (entries_in CHUNK_TYPE_ADD PREFIX_32B PREFIX_32B_SZ kept)
            (entries_in CHUNK_TYPE_SUB PREFIX_32B PREFIX_32B_SZ kept)).
Proof.
  intros Hrun kept.
  pose proof (load_run env fuel newChunks w None w' Hrun) as H. cbv zeta in H.
  destruct H as [(_ & He & _) | (_ & w3 & w4 & -> & _ & _ & _ & Hcase)];
    [discriminate |].
  destruct Hcase as [([e He] & _)
                    | (l1 & l2 & l3 & v & cs & _ & _ & _ & _ & _ & _ & _ & Hc
                       & Ecommit)]; [discriminate |].
  destruct (load_commit_more env _ v w3 None w4 Ecommit)
    as (_ & _ & _ & _ & _ & _ & _ & Hlog).
  rewrite close_tmp_file_logged, (Hlog eq_refl).
  destruct Hc as (C1 & C2 & C3 & C4 & C5 & C6). fold kept in C2, C3, C4, C5, C6.
  rewrite C1, C2, C3, C4, C5, C6.
  rewrite last_app. reflexivity.
Qed.

Lemma final_message_witness :
  let w := Sample.delete_add 1
             (Sample.serving [GobChunk Sample.add1; GobChunk Sample.sub_full]) in
  let delta := [Some Sample.odd_type; Some Sample.add_full; Some Sample.add1] in
  let kept := survivors_new (DeleteChunks (sbl w)) delta in
  last (logged (Sample.after (load no_faults 3 delta w)))
  = Some (update_message (Z.of_nat (length kept)) 0
            (entries_in CHUNK_TYPE_ADD PREFIX_4B PREFIX_4B_SZ kept)
            (entries_in CHUNK_TYPE_SUB PREFIX_4B PREFIX_4B_SZ kept)
            (entries_in CHUNK_TYPE_ADD PREFIX_32B PREFIX_32B_SZ kept)
            (entries_in CHUNK_TYPE_SUB PREFIX_32B PREFIX_32B_SZ kept)).
Proof.
  intros w delta.
  apply (final_message no_faults 3 delta w).
  vm_compute. reflexivity.
Defined.

(** X15 ([load], lines 245-253).  A nil chunk in the delta is never merged:
    unless chunk 0 of type ADD is marked for deletion (a nil chunk reads as
    that one, and is then skipped), a delta that holds a nil chunk makes
    every return of [load] an error return that leaves the list, the
    reachable tries and the log file as they were; the call never returns
    nil. *)
Theorem nil_chunk_never_merged env fuel newChunks w err w' :
  load env fuel newChunks w = Ret (err, w') ->
  None ∈ newChunks ->
  marked_deleted w None = false ->
  is_Some err /\ untouched w w'.
Proof.
  intros Hrun Hin Hfree.
  pose proof (load_run env fuel newChunks w err w' Hrun) as H. cbv zeta in H.
  destruct H as [(_ & -> & Hs & Ht & Hd)
                | (_ & w3 & w4 & -> & HL & Htr & Hdk & Hcase)].
  { split; [eauto |].
    split; [rewrite Hs; by split | intros; by rewrite Ht | intros; by rewrite Hd]. }
  destruct Hcase as [(He & ->)
                    | (l1 & l2 & l3 & v & cs & _ & _ & _ & _ & _ & _ & Hnil & _)].
  - split; [exact He |].
    destruct (close_tmp_file_spec env (FileName (sbl w)) w3) as (A & B & C & _).
    split.
    + by rewrite A.
    + intros l Hl. rewrite B. by apply Htr.
    + intros p Hp. rewrite C by exact Hp. by apply Hdk.
  - rewrite Forall_forall in Hnil. specialize (Hnil None Hin eq_refl).
    unfold marked_deleted in Hfree. congruence.
Qed.

Lemma nil_chunk_never_merged_witness :
  let w := Sample.serving [GobGarbage] in
  let w' := Sample.after (load no_faults 3 [Some Sample.add1; None] w) in
  is_Some (Some ErrDecode) /\ untouched w w'.
Proof.
  intros w w'.
  apply (nil_chunk_never_merged no_faults 3 [Some Sample.add1; None] w
           (Some ErrDecode) w').
  - vm_compute. reflexivity.
  - right. left.
  - vm_compute. reflexivity.
Defined.

Example nil_chunk_panics :
  load no_faults 3 [Some Sample.add1; None] (Sample.serving []) = Panic.
Proof. vm_compute. reflexivity. Qed.

Lemma table_chunk_unknown_type T c :
  ChunkType c <> CHUNK_TYPE_ADD -> ChunkType c <> CHUNK_TYPE_SUB ->
  table_chunk T c = T.
Proof.
  intros Ha Hs.
  assert (forall A B : Tables,
            tLookup A = tLookup B -> tFullHashes A = tFullHashes B ->
            tFullHashRequested A = tFullHashRequested B -> A = B) as Hext.
  { intros [] []; cbn; by intros -> -> ->. }
  apply Hext; apply leibniz_equiv, set_equiv; intros h.
  - rewrite table_chunk_lookup_iff. unfold adds_prefix, subs_prefix. tauto.
  - rewrite table_chunk_full_iff. unfold adds_full, subs_full. tauto.
  - rewrite table_chunk_requested_iff. unfold subs_full. tauto.
Qed.

(** X16 ([updateLookupMap], lines 334-354).  A record whose chunk type is
    neither ADD nor SUB changes no container: both [switch] statements on the
    chunk type have no default case, so [updateLookupMap] walks the entries
    of such a record and leaves every trie, the list and the disk as they
    were.  (The first loop of [load] writes such a record to the new log all
    the same.) *)
Theorem unknown_type_applies_nothing l1 l2 l3 T fuel c w w' :
  tmp_tables l1 l2 l3 T w ->
  ChunkType c <> CHUNK_TYPE_ADD ->
  ChunkType c <> CHUNK_TYPE_SUB ->
  updateLookupMap fuel (Some c) w = Ret w' ->
  tries w' = tries w /\ sbl w' = sbl w /\ disk w' = disk w.
Proof.
  intros HT Ha Hs Hrun.
  destruct (updateLookupMap_ret l1 l2 l3 T fuel c w w' HT Hrun)
    as (_ & _ & HT' & [Hsbl Hdisk Htr]).
  split; [| by split].
  rewrite table_chunk_unknown_type in HT' by assumption.
  destruct HT as [_ _ _ _ _ _ A1 A2 A3].
  destruct HT' as [_ _ _ _ _ _ B1 B2 B3].
  apply map_eq. intros l.
  destruct (decide (l = l1)) as [-> | N1]; [by rewrite A1, B1 |].
  destruct (decide (l = l2)) as [-> | N2]; [by rewrite A2, B2 |].
  destruct (decide (l = l3)) as [-> | N3]; [by rewrite A3, B3 |].
  by apply Htr.
Qed.

Lemma unknown_type_applies_nothing_witness :
  let w' := Sample.updated (updateLookupMap 3 (Some Sample.odd_type) Sample.updating) in
  tries w' = tries Sample.updating
  /\ sbl w' = sbl Sample.updating /\ disk w' = disk Sample.updating.
Proof.
  intros w'.
  apply (unknown_type_applies_nothing 4 5 6 no_tables 3 Sample.odd_type
           Sample.updating w').
  - split; vm_compute; congruence.
  - discriminate.
  - discriminate.
  - vm_compute. reflexivity.
Defined.

(* ===================================================================== *)
(** ** Further properties of [loadDataFromRedirectLists] *)
(* ===================================================================== *)

Lemma fetch_redirects_bad request ReadChunk fuel (url : string) :
  bad_source request url ->
  forall urls acc r,
    fetch_redirects request ReadChunk fuel urls acc = Ret r ->
    url ∈ urls ->
    exists e, r = inl e.
Proof.
  intros Hbad urls. induction urls as [| u rest IH]; intros acc r Hrun Hin.
  { by apply elem_of_nil in Hin. }
  cbn [fetch_redirects] in Hrun. unfold bad_source in Hbad.
  destruct (request u) as [response | e] eqn:Ereq.
  2: { injection Hrun as <-. eauto. }
  destruct (Z.eqb_spec (StatusCode response) 200) as [E200 | N200]; cbn in Hrun.
  2: { injection Hrun as <-. eauto. }
  destruct (read_chunks _ _ _ _ _ _) as [[e | chunks] | |]; cbn in Hrun;
    try discriminate.
  { injection Hrun as <-. eauto. }
  apply elem_of_cons in Hin as [-> | Hin].
  - rewrite Ereq in Hbad. contradiction.
  - exact (IH _ _ Hrun Hin).
Qed.

(** X17 ([loadDataFromRedirectLists], lines 93-102).  One bad redirect spoils
    the whole update: if any of the pending redirects cannot be fetched or is
    answered with a status other than 200, then every return of the call is
    an error return and nothing at all has changed, whatever the other
    redirects delivered and wherever in the list the bad one stands. *)
Theorem bad_source_aborts request ReadChunk env fuel w err w' (url : string) :
  loadDataFromRedirectLists request ReadChunk env fuel w = Ret (err, w') ->
  url ∈ DataRedirects (sbl w) ->
  bad_source request url ->
  is_Some err /\ w' = w.
Proof.
  intros Hrun Hin Hbad. unfold loadDataFromRedirectLists in Hrun.
  destruct (DataRedirects (sbl w)) as [| u rest] eqn:Eurls.
  { by apply elem_of_nil in Hin. }
  replace (Z.of_nat (length (u :: rest)) <? 1) with false in Hrun
    by (symmetry; apply Z.ltb_ge; cbn [length]; lia).
  destruct (fetch_redirects request ReadChunk fuel (u :: rest) [])
    as [r | |] eqn:Efetch; cbn in Hrun; try discriminate.
  destruct (fetch_redirects_bad request ReadChunk fuel url Hbad _ _ _ Efetch Hin)
    as (e & ->).
  injection Hrun as <- <-. eauto.
Qed.

Lemma bad_source_aborts_witness :
  let w := Sample.with_redirects ["http://redirect/1"; "http://redirect/2"]%string
             Sample.world0 in
  let answer (url : string) : Response + error :=
    if String.eqb url "http://redirect/2" then inl (mkResponse 503 [])
    else Sample.three_bytes url in
  is_Some (Some (ErrStatus 503)) /\ w = w.
Proof.
  intros w answer.
  apply (bad_source_aborts answer Sample.byte_decoder no_faults 5 w
           (Some (ErrStatus 503)) w "http://redirect/2").
  - vm_compute. reflexivity.
  - right. left.
  - vm_compute. discriminate.
Defined.

(** X18 ([loadDataFromRedirectLists], lines 83-119).  The call never edits
    the list of pending redirects (nor the names of the list): on every
    return, a successful merge included, [DataRedirects] is what it was, so
    that the same redirects are fetched again unless the caller clears
    them. *)
Theorem redirects_kept request ReadChunk env fuel w err w' :
  loadDataFromRedirectLists request ReadChunk env fuel w = Ret (err, w') ->
  DataRedirects (sbl w') = DataRedirects (sbl w)
  /\ Name (sbl w') = Name (sbl w)
  /\ FileName (sbl w') = FileName (sbl w).
Proof.
  intros Hrun. unfold loadDataFromRedirectLists in Hrun.
  destruct (Z.of_nat (length (DataRedirects (sbl w))) <? 1).
  { by injection Hrun as <- <-. }
  destruct (fetch_redirects _ _ _ _ _) as [[e | chunks] | |]; cbn in Hrun;
    try discriminate.
  { by injection Hrun as <- <-. }
  destruct chunks as [| [c |] chunks]; try discriminate.
  2: { by injection Hrun as <- <-. }
  destruct (load_cases env fuel _ w err w' Hrun) as [(_ & Hun) | (cs & _ & Hsw)].
  - destruct Hun as [HL _ _].
    by rewrite (sl_DataRedirects _ _ HL), (sl_Name _ _ HL), (sl_FileName _ _ HL).
  - by rewrite (sw_DataRedirects _ _ _ _ _ _ Hsw), (sw_Name _ _ _ _ _ _ Hsw),
      (sw_FileName _ _ _ _ _ _ Hsw).
Qed.

Lemma redirects_kept_witness :
  let w := Sample.with_redirects ["http://redirect/1"]%string Sample.world0 in
  let w' := Sample.after
              (loadDataFromRedirectLists Sample.three_bytes Sample.byte_decoder
                 no_faults 5 w) in
  DataRedirects (sbl w') = DataRedirects (sbl w)
  /\ Name (sbl w') = Name (sbl w)
  /\ FileName (sbl w') = FileName (sbl w).
Proof.
  intros w w'.
  apply (redirects_kept Sample.three_bytes Sample.byte_decoder no_faults 5 w
           None w').
  vm_compute. reflexivity.
Defined.

Lemma uint32_small (n : Z) : 0 <= n < 2 ^ 32 -> uint32 n = n.
Proof. intros H. unfold uint32. by apply Z.mod_small. Qed.

Lemma slice_suffix (data : list byte) (i : Z) :
  0 <= i <= Z.of_nat (length data) ->
  is_Some (slice data i (Z.of_nat (length data))).
Proof.
  intros H. unfold slice.
  replace (0 <=? i) with true by (symmetry; apply Z.leb_le; lia).
  replace (i <=? Z.of_nat (length data)) with true
    by (symmetry; apply Z.leb_le; lia).
  rewrite Z.leb_refl. cbn. eauto.
Qed.

(** X19 ([loadDataFromRedirectLists], lines 104-113).  The loop that cuts a
    response body into chunks ends, without running past the body, for every
    body shorter than 2^32 bytes, as long as the decoder consumes something
    each time it is called: if every successful [ReadChunk] reports fewer
    bytes left than it was given, then at most as many rounds as the body has
    bytes are made, and the loop ends with the chunks read or with the
    decoder's error. *)
Theorem read_chunks_returns ReadChunk (data : list byte)
    (acc : list (option ChunkData)) (n : nat) :
  Z.of_nat (length data) < 2 ^ 32 ->
  (forall rest len chunk new_len,
     0 < len -> ReadChunk rest len = inl (chunk, new_len) -> 0 <= new_len < len) ->
  (length data < n)%nat ->
  exists r,
    read_chunks ReadChunk n data
      (uint32 (Z.of_nat (length data))) (uint32 (Z.of_nat (length data))) acc
    = Ret r.
Proof.
  intros Hsmall Hdec Hn.
  rewrite uint32_small by lia.
  set (total := Z.of_nat (length data)) in *.
  assert (forall m acc0 len,
            0 <= len <= total -> (Z.to_nat len < m)%nat ->
            exists r, read_chunks ReadChunk m data total len acc0 = Ret r) as Hgen.
  { intros m. induction m as [| m IH]; intros acc0 len Hlen Hfuel; [lia |].
    cbn [read_chunks].
    destruct (Z.eqb_spec len 0) as [E0 | N0]; [eauto |].
    rewrite uint32_small by lia.
    destruct (slice_suffix data (total - len) ltac:(lia)) as [rest ->].
    destruct (ReadChunk rest len) as [[chunk new_len] | e] eqn:Eread; [| eauto].
    pose proof (Hdec rest len chunk new_len ltac:(lia) Eread) as Hnew.
    rewrite uint32_small by lia.
    apply IH; lia. }
  apply Hgen; lia.
Qed.

Lemma read_chunks_returns_witness :
  exists r,
    read_chunks Sample.byte_decoder 4 (list_byte_of_string "xyz")
      (uint32 (Z.of_nat (length (list_byte_of_string "xyz"))))
      (uint32 (Z.of_nat (length (list_byte_of_string "xyz")))) []
    = Ret r.
Proof.
  apply (read_chunks_returns Sample.byte_decoder (list_byte_of_string "xyz") [] 4).
  - vm_compute. reflexivity.
  - intros rest len chunk new_len Hpos H. unfold Sample.byte_decoder in H.
    injection H as _ <-. lia.
  - vm_compute. lia.
Defined.

Lemma fetch_redirects_empty request ReadChunk fuel (urls : list string) :
  (0 < fuel)%nat ->
  (forall url, url ∈ urls ->
     exists response, request url = inl response
       /\ StatusCode response = 200 /\ Body response = []) ->
  fetch_redirects request ReadChunk fuel urls [] = Ret (inr []).
Proof.
  intros Hfuel. induction urls as [| u rest IH]; intros Hall; [reflexivity |].
  cbn [fetch_redirects].
  destruct (Hall u ltac:(by left)) as (response & -> & -> & ->).
  destruct fuel as [| fuel]; [lia |]. cbn.
  apply IH. intros url Hin. apply Hall. by right.
Qed.

(** X20 ([loadDataFromRedirectLists], lines 91-117).  Redirects that all
    answer 200 with an empty body make the call panic: no chunk is read, and
    the test [newChunks[0] == nil] indexes an empty slice.  The message "No
    chunk : empty redirect file" is not what an empty redirect file
    produces. *)
Theorem empty_bodies_panic request ReadChunk env fuel w :
  DataRedirects (sbl w) <> [] ->
  (forall url, url ∈ DataRedirects (sbl w) ->
     exists response, request url = inl response
       /\ StatusCode response = 200 /\ Body response = []) ->
  (0 < fuel)%nat ->
  loadDataFromRedirectLists request ReadChunk env fuel w = Panic.
Proof.
  intros Hne Hall Hfuel. unfold loadDataFromRedirectLists.
  replace (Z.of_nat (length (DataRedirects (sbl w))) <? 1) with false.
  2: { symmetry. apply Z.ltb_ge. destruct (DataRedirects (sbl w)); [done |].
       cbn [length]. lia. }
  by rewrite (fetch_redirects_empty request ReadChunk fuel _ Hfuel Hall).
Qed.

Lemma empty_bodies_panic_witness :
  loadDataFromRedirectLists Sample.empty_reply Sample.no_decoder no_faults 1
    (Sample.with_redirects ["http://redirect/1"; "http://redirect/2"]%string
       Sample.world0)
  = Panic.
Proof.
  apply empty_bodies_panic.
  - discriminate.
  - intros url _. exists (mkResponse 200 []). done.
  - lia.
Defined.

(* ===================================================================== *)
(** ** When [load] returns, delta and all *)
(* ===================================================================== *)

Lemma in_bucket_recognised (c : ChunkData) :
  in_bucket c = true -> recognised_prefix c.
Proof.
  unfold in_bucket, recognised_prefix. intros H.
  apply andb_true_iff in H as (_ & H). apply orb_true_iff in H as [H | H];
    apply Z.eqb_eq in H; auto.
Qed.

Section Returns.
Variable env : Faults.
Variable fuel : nat.

Lemma load_existing_returns tmp l1 l2 l3 dc (stream : list gobItem) :
  forall v w T out,
    DeleteChunks (sbl w) = dc ->
    tmp_tables l1 l2 l3 T w ->
    disk w !! tmp = Some out ->
    Forall (kept_ok fuel) (survivors_existing dc (decoded stream)) ->
    exists r, load_existing env fuel tmp stream v w = Ret r.
Proof.
  induction stream as [| [c |] stream IH]; intros v w T out Hdc HT Hd Hall;
    [eexists; reflexivity | | eexists; reflexivity].
  cbn [load_existing decoded] in *. unfold marked_deleted. rewrite Hdc.
  unfold survivors_existing in Hall.
  destruct (deleted dc (Some c)) eqn:Hdel.
  - rewrite filter_cons_False in Hall by (by rewrite Hdel).
    eapply IH; eassumption.
  - rewrite filter_cons_True in Hall by done.
    apply Forall_cons in Hall as ((Hrec & Hfuel) & Hall).
    destruct (tally_spec c v) as (r & Er & _). rewrite Er, bind_Ret.
    assert (exists v1 w1,
              match r with
              | Some v'0 => (v'0, w)
              | None => (v, Logger Warn "Chunk not decoded properly" [] w)
              end = (v1, w1)
              /\ tmp_tables l1 l2 l3 T w1 /\ disk w1 !! tmp = Some out
              /\ DeleteChunks (sbl w1) = dc)
      as (v1 & w1 & -> & HT1 & Hd1 & Hdc1).
    { destruct r as [v1 |]; [exists v1, w | eexists v, _];
        (split; [reflexivity |]); auto using Logger_tmp_tables. }
    destruct (gob_Encode env tmp (Some c) w1) as [[e |] w2] eqn:Eenc;
      [eexists; reflexivity |].
    pose proof (gob_Encode_ok _ _ _ _ _ _ Hd1 Eenc) as Ew2.
    assert (tmp_tables l1 l2 l3 T w2) as HT2
      by (subst w2; destruct HT1; by split).
    destruct (updateLookupMap_total l1 l2 l3 T fuel c w2 HT2 Hrec Hfuel)
      as (w3 & Eup).
    rewrite Eup, bind_Ret.
    destruct (keep_step _ _ _ _ _ _ _ _ _ _ _ _ HT1 Hd1 Eenc Eup)
      as (_ & _ & HT3 & F3 & Hd3).
    eapply IH; [| exact HT3 | exact Hd3 | exact Hall].
    by rewrite (mf_sbl _ _ _ _ _ _ F3).
Qed.

Lemma load_new_returns tmp l1 l2 l3 dc (newChunks : list (option ChunkData)) :
  forall v w T out,
    DeleteChunks (sbl w) = dc ->
    tmp_tables l1 l2 l3 T w ->
    disk w !! tmp = Some out ->
    Forall (delta_ok fuel dc) newChunks ->
    exists r, load_new env fuel tmp newChunks v w = Ret r.
Proof.
  induction newChunks as [| chunk rest IH]; intros v w T out Hdc HT Hd Hall;
    [eexists; reflexivity |].
  apply Forall_cons in Hall as (Hok & Hall).
  cbn [load_new]. unfold marked_deleted. rewrite Hdc.
  destruct (deleted dc chunk) eqn:Hdel.
  { eapply IH; eassumption. }
  destruct (Hok Hdel) as (c & -> & Hfuel).
  destruct (tally_spec c v) as (r & Er & Hr). rewrite Er, bind_Ret.
  destruct r as [v1 |].
  - destruct Hr as (Hb & _).
    destruct (gob_Encode env tmp (Some c) w) as [[e |] w2] eqn:Eenc;
      [eexists; reflexivity |].
    pose proof (gob_Encode_ok _ _ _ _ _ _ Hd Eenc) as Ew2.
    assert (tmp_tables l1 l2 l3 T w2) as HT2
      by (subst w2; destruct HT; by split).
    destruct (updateLookupMap_total l1 l2 l3 T fuel c w2 HT2
                (in_bucket_recognised c Hb) (Hfuel Hb)) as (w3 & Eup).
    rewrite Eup, bind_Ret.
    destruct (keep_step _ _ _ _ _ _ _ _ _ _ _ _ HT Hd Eenc Eup)
      as (_ & _ & HT3 & F3 & Hd3).
    eapply IH; [| exact HT3 | exact Hd3 | exact Hall].
    by rewrite (mf_sbl _ _ _ _ _ _ F3).
  - eapply IH; [| apply Logger_tmp_tables; exact HT | exact Hd | exact Hall].
    exact Hdc.
Qed.

Lemma load_merge_returns dec newChunks (w : World) :
  disk w !! (FileName (sbl w) +:+ ".tmp") = Some [] ->
  Forall (kept_ok fuel)
    (survivors_existing (DeleteChunks (sbl w)) (decoded (default [] dec))) ->
  Forall (delta_ok fuel (DeleteChunks (sbl w))) newChunks ->
  exists r, load_merge env fuel dec newChunks w = Ret r.
Proof.
  intros Hd Hold Hnew. unfold load_merge.
  set (tmp := FileName (sbl w) +:+ ".tmp") in *.
  set (dc := DeleteChunks (sbl w)) in *.
  destruct (reset_tmp_spec w)
    as (l1 & l2 & l3 & _ & _ & _ & HT0 & HL0 & _ & Hd0).
  match goal with
  | |- context [load_old _ _ _ _ _ ?x] => set (w0 := x) in *
  end.
  apply (Logger_tmp_tables _ _ _ _ Info "Load existing data from files" [])
    in HT0. fold w0 in HT0.
  assert (disk w0 !! tmp = Some []) as Hdt.
  { assert (disk w0 = disk w) as -> by (subst w0; exact Hd0). exact Hd. }
  assert (DeleteChunks (sbl w0) = dc) as Hdc0
    by (subst w0; exact (sl_DeleteChunks _ _ HL0)).
  clearbody w0.
  assert (exists r0, load_old env fuel tmp dec (mkLocals ∅ ∅ 0 0 0 0 0 0) w0
                     = Ret r0) as (r0 & Er0).
  { unfold load_old. destruct dec as [stream |]; [| eexists; reflexivity].
    cbn in Hold.
    destruct (load_existing_returns tmp l1 l2 l3 dc stream
                (mkLocals ∅ ∅ 0 0 0 0 0 0) w0 _ _ Hdc0 HT0 Hdt Hold)
      as ([[ex v1] w3] & ->).
    rewrite bind_Ret.
    destruct ex as [e | e]; [destruct (is_EOF e) |]; eexists; reflexivity. }
  rewrite Er0, bind_Ret.
  pose proof (load_old_spec env fuel tmp l1 l2 l3 dec _ w0 _ _ r0 HT0 Hdt Er0)
    as Hspec.
  cbv zeta in Hspec. rewrite Hdc0 in Hspec.
  destruct r0 as [[e w3] | [v w3]]; [eexists; reflexivity |].
  destruct Hspec as (F & cs & _ & _ & Hd3 & HT3 & _).
  match goal with
  | |- context [load_new _ _ _ _ ?v0 ?x] =>
      destruct (load_new_returns tmp l1 l2 l3 dc newChunks v0 x
                  (foldl table_chunk no_tables (survivors_existing dc cs))
                  ([] ++ (GobChunk <$> survivors_existing dc cs)))
        as ([[e v4] w4] & ->)
  end.
  - cbn. by rewrite (mf_sbl _ _ _ _ _ _ F).
  - do 2 apply Logger_tmp_tables. exact HT3.
  - exact Hd3.
  - exact Hnew.
  - rewrite bind_Ret. destruct e; eexists; reflexivity.
Qed.
End Returns.

(** X21 ([load], lines 121-315).  [load] returns, with an error or with
    nil, under three conditions that can be read off its input: every record
    that the decoder hands out before its first error, unless marked for
    deletion, has a recognised prefix type; no unmarked chunk of the delta is
    nil; and the fuel is enough for the entries of any one record to be
    applied.  No storage failure and no corrupt log can make it panic or
    loop. *)
Theorem load_returns env fuel newChunks (w : World) :
  let name := FileName (sbl w) in
  let dc := DeleteChunks (sbl w) in
  Forall (kept_ok fuel)
    (survivors_existing dc (decoded (default [] (fst (os_Open env name w))))) ->
  Forall (delta_ok fuel dc) newChunks ->
  exists err w', load env fuel newChunks w = Ret (err, w').
Proof.
  intros name dc Hold Hnew. unfold load. fold name.
  set (tmp := name +:+ ".tmp") in *.
  cbn [sbl Logger FileName]. fold name. fold tmp.
  change (os_Open env name (Logger Info "Reloading %s" [AStr (Name (sbl w))] w))
    with (os_Open env name w).
  destruct (os_Open env name w) as [f oerr] eqn:Eopen. cbn [fst] in Hold.
  match goal with
  | |- context [os_Create _ _ ?x] => set (w1 := x) in *
  end.
  assert (sbl w1 = sbl w /\ tries w1 = tries w /\ disk w1 = disk w)
    as (Hs1 & Ht1 & Hd1).
  { subst w1. destruct oerr as [e |]; [destruct (negb (IsNotExist e)) |]; done. }
  clearbody w1. unfold os_Create.
  destruct (create_error env tmp); [eexists _, _; reflexivity |].
  set (w2 := set_disk (<[tmp:=[]]> (disk w1)) w1) in *.
  assert (sbl w2 = sbl w) as Hs2 by exact Hs1.
  destruct (load_merge_returns env fuel f newChunks w2) as (r & ->).
  - rewrite Hs2. fold name. fold tmp. subst w2. cbn. apply lookup_insert_eq.
  - rewrite Hs2. exact Hold.
  - rewrite Hs2. exact Hnew.
  - rewrite bind_Ret.
    destruct r as [[e w3] | [v w3]]; [eexists _, _; reflexivity |].
    destruct (load_commit env f v w3) as [e w4]. eexists _, _. reflexivity.
Qed.

Lemma load_returns_witness :
  exists err w',
    load Sample.rename_fails 3
      [Some Sample.odd_prefix; Some Sample.add_ragged; Some Sample.sub_full]
      (Sample.serving [GobChunk Sample.add1; GobGarbage; GobChunk Sample.odd_prefix])
    = Ret (err, w').
Proof.
  apply (load_returns Sample.rename_fails 3
           [Some Sample.odd_prefix; Some Sample.add_ragged; Some Sample.sub_full]
           (Sample.serving
              [GobChunk Sample.add1; GobGarbage; GobChunk Sample.odd_prefix])).
  - repeat constructor; vm_compute; lia.
  - repeat constructor; intros _; eexists; (split; [reflexivity |]);
      vm_compute; (discriminate || lia).
Defined.
